(** * Backscrub: the streaming frame pipeline, embedded and verified

    A shallow embedding of the background-replacement pipeline:

    - [Compositor]: the pixel routines [alpha_blend] and
      [convert_rgb_to_yuyv], with their data pointers and loop counters;
    - [VideoFormat] and [Loopback]: the format negotiated with the
      virtual output device, its life cycle ([loopback_init],
      [print_format], [loopback_free]) and the per-frame write loop of
      [main];
    - [Orchestrator]: the geometry resolution, the frame-rate divisor and
      the throttling counter of [main];
    - [MaskEngine]: the class [CalcMask], its worker thread, its two
      single-slot mailboxes and its destructor, as step machines;
    - [Cli]: the option loop of [main] and the helpers it calls;
    - [MainLoop]: which frame of the two buffers is submitted and which
      is displayed in each turn;
    - [EngineRuns]: the executions of a running engine.

    Integers of the C++ program are modelled in [Z]; every narrowing cast
    the source performs is written out ([uint8_t], [int_cast],
    [unsigned_int]). *)

From Stdlib Require Import Ascii String.
From Stdlib Require Import ZArith List Bool Lia.
From Stdlib Require Import QArith Qround.
From Stdlib Require Import DecimalString.
Import ListNotations.

#[local] Open Scope Z_scope.

(** ** Machine integers *)

(** The cast [(uint8_t)x]: reduction modulo 256. *)
Definition uint8_t (x : Z) : Z := x mod 256.

Definition INT_MAX : Z := 2147483647.
Definition INT_MIN : Z := -2147483648.

(** A value stored in an [int]: two's complement wrap-around on 32 bits. *)
Definition int_cast (x : Z) : Z := (x + 2147483648) mod 4294967296 - 2147483648.

(** A value of type [unsigned int]: reduction modulo 2^32. *)
Definition unsigned_int (x : Z) : Z := x mod 4294967296.

Definition in_int (x : Z) : Prop := INT_MIN <= x <= INT_MAX.

(** A sample of an 8-bit image. *)
Definition is_byte (x : Z) : Prop := 0 <= x < 256.

(** ** Images *)

(** The element types of [cv::Mat] that the pipeline uses. *)
Inductive mat_type : Type := CV_8UC1 | CV_8UC2 | CV_8UC3.

Definition mat_type_eqb (s t : mat_type) : bool :=
  match s, t with
  | CV_8UC1, CV_8UC1 | CV_8UC2, CV_8UC2 | CV_8UC3, CV_8UC3 => true
  | _, _ => false
  end.

Definition channels (t : mat_type) : Z :=
  match t with CV_8UC1 => 1 | CV_8UC2 => 2 | CV_8UC3 => 3 end.

(** A continuous [cv::Mat]: geometry, element type and the bytes behind
    its [data] pointer, row after row. *)
Record Mat : Type := mkMat {
  rows : Z;
  cols : Z;
  type : mat_type;
  data : list Z
}.

(** What OpenCV guarantees of every matrix it hands out. *)
Record Mat_wf (m : Mat) : Prop := {
  wf_rows : 0 <= rows m;
  wf_cols : 0 <= cols m;
  wf_size : Z.of_nat (length (data m)) = rows m * cols m * channels (type m);
  wf_bytes : Forall is_byte (data m)
}.

(** [cv::Mat::total()]. *)
Definition total (m : Mat) : Z := rows m * cols m.

(** The default-constructed, empty [cv::Mat]. *)
Definition Mat_empty : Mat := mkMat 0 0 CV_8UC1 [].

Module Compositor.

(** *** [alpha_blend] *)

(** One output byte:
    [(uint8_t)(( (int)a*aw + (int)b*bw )/255)], the division of [int]
    truncating towards zero. *)
Definition blend_byte (a b aw bw : Z) : Z :=
  uint8_t (Z.quot (a * aw + b * bw) 255).

(** The pixel loop.  The three source pointers are the suffixes of the
    buffers still to be read; [*p++] reads the head and moves on.  Reading
    past the end of a buffer is outside the model (it reads 0). *)
Fixpoint blend_loop (npix : nat) (aptr bptr mptr : list Z) : list Z :=
  match npix with
  | O => []
  | S n =>
      let aw := nth 0 mptr 0 in
      let bw := 255 - aw in
      blend_byte (nth 0 aptr 0) (nth 0 bptr 0) aw bw ::
      blend_byte (nth 1 aptr 0) (nth 1 bptr 0) aw bw ::
      blend_byte (nth 2 aptr 0) (nth 2 bptr 0) aw bw ::
      blend_loop n (skipn 3 aptr) (skipn 3 bptr) (skipn 1 mptr)
  end.

(** The seven assertions that open the function. *)
Definition blend_asserts (srca srcb mask : Mat) : bool :=
  (rows srca =? rows srcb) && (cols srca =? cols srcb) &&
  (rows mask =? rows srca) && (cols mask =? cols srca) &&
  mat_type_eqb (type srca) CV_8UC3 && mat_type_eqb (type srcb) CV_8UC3 &&
  mat_type_eqb (type mask) CV_8UC1.

(** [alpha_blend(srca, srcb, mask)]: [None] stands for a failed assertion.
    The source documents the mask as "255=>srca, 0=>srcb".  The output
    starts as [cv::Mat::zeros(srca.size(), srca.type())]; the loop bound
    is [int npix = srca.rows * srca.cols], an [int] product, so that the
    loop stores the first [npix] pixels and leaves the zeros behind
    them where the product does not fit. *)
Definition alpha_blend (srca srcb mask : Mat) : option Mat :=
  if blend_asserts srca srcb mask then
    let zeros :=
      repeat 0 (Z.to_nat (rows srca * cols srca * channels (type srca))) in
    let npix := int_cast (rows srca * cols srca) in
    let stored :=
      blend_loop (Z.to_nat npix) (data srca) (data srcb) (data mask) in
    Some (mkMat (rows srca) (cols srca) (type srca)
            (stored ++ skipn (length stored) zeros))
  else None.

(** Well-formed inputs that pass the assertions of [alpha_blend]. *)
Record blend_inputs (srca srcb mask : Mat) : Prop := {
  bi_wf_a : Mat_wf srca;
  bi_wf_b : Mat_wf srcb;
  bi_wf_m : Mat_wf mask;
  bi_rows_ab : rows srca = rows srcb;
  bi_cols_ab : cols srca = cols srcb;
  bi_rows_m : rows mask = rows srca;
  bi_cols_m : cols mask = cols srca;
  bi_type_a : type srca = CV_8UC3;
  bi_type_b : type srcb = CV_8UC3;
  bi_type_m : type mask = CV_8UC1
}.

(** The blending step of the main loop:
    [raw[idx] = alpha_blend(bg, raw[idx], mask)], the background first and
    the captured foreground second. *)
Definition main_blend (bg foreground mask : Mat) : option Mat :=
  alpha_blend bg foreground mask.

(** *** [convert_rgb_to_yuyv] *)

(** [cv::split] of a three-channel image: plane [c] holds byte [3*i + c]
    of every pixel [i]. *)
Fixpoint split3 (bytes : list Z) : list Z * list Z * list Z :=
  match bytes with
  | c0 :: c1 :: c2 :: rest =>
      let '(p0, p1, p2) := split3 rest in (c0 :: p0, c1 :: p1, c2 :: p2)
  | _ => ([], [], [])
  end.

(** How a function that moves data pointers ends: it returns, or it
    reads or writes past the end of a buffer (undefined behaviour), or,
    in the model only, the fuel is spent with its loop still running. *)
Inductive attempt (A : Type) : Type :=
  | Returned (a : A)
  | Overrun
  | Unfinished.
Arguments Returned {A} a.
Arguments Overrun {A}.
Arguments Unfinished {A}.

(** [buf[i]] read and [buf[i] = x] written through a data pointer, for
    [i] inside the buffer. *)
Definition load (buf : list Z) (i : Z) : option Z :=
  if 0 <=? i then nth_error buf (Z.to_nat i) else None.

Definition store (buf : list Z) (i x : Z) : option (list Z) :=
  if (0 <=? i) && (i <? Z.of_nat (length buf)) then
    Some (firstn (Z.to_nat i) buf ++ x :: skipn (S (Z.to_nat i)) buf)
  else None.

#[local] Notation "x <- e ;; f" :=
  (match e with Some x => f | None => Overrun end)
  (at level 61, e at next level, right associativity).

(** The packing loop
    [for (unsigned int i = 0; i < yuyv.total(); i += 2)] from index [i],
    with [outdata] the bytes behind the output pointer.  The counter and
    the index expressions [i+1], [2*i+0], ..., [2*i+3] are
    [unsigned int]; the bound [total] is a [size_t].  Each turn stores
    four bytes: [y[i]], the halved sum of the two [v], [y[i+1]], the
    halved sum of the two [u]. *)
Fixpoint yuyv_loop (fuel : nat) (total : Z) (ydata udata vdata : list Z)
    (i : Z) (outdata : list Z) : attempt (list Z) :=
  match fuel with
  | O => Unfinished
  | S fuel' =>
      if i <? total then
        u0 <- load udata i ;;
        u1 <- load udata (unsigned_int (i + 1)) ;;
        v0 <- load vdata i ;;
        v1 <- load vdata (unsigned_int (i + 1)) ;;
        let u := uint8_t (Z.quot (u0 + u1) 2) in
        let v := uint8_t (Z.quot (v0 + v1) 2) in
        y0 <- load ydata (unsigned_int (i + 0)) ;;
        o <- store outdata (unsigned_int (2 * i + 0)) y0 ;;
        o <- store o (unsigned_int (2 * i + 1)) v ;;
        y1 <- load ydata (unsigned_int (i + 1)) ;;
        o <- store o (unsigned_int (2 * i + 2)) y1 ;;
        o <- store o (unsigned_int (2 * i + 3)) u ;;
        yuyv_loop fuel' total ydata udata vdata (unsigned_int (i + 2)) o
      else Returned outdata
  end.

Section ConvertRgbToYuyv.

(** [cv::cvtColor(input, tmp, cv::COLOR_RGB2YUV)], OpenCV's colour
    conversion; it is not code of this repository. *)
Variable cvtColor_RGB2YUV : Mat -> Mat.

(** [convert_rgb_to_yuyv(input)].  [cv::Mat yuyv(tmp.rows, tmp.cols,
    CV_8UC2)] allocates two bytes per pixel and does not initialise
    them: the zeros stand for bytes of no particular value, and the
    theorems are stated where the loop overwrites every one of them. *)
Definition convert_rgb_to_yuyv (fuel : nat) (input : Mat) : attempt Mat :=
  let tmp := cvtColor_RGB2YUV input in
  let '(ydata, udata, vdata) := split3 (data tmp) in
  let outdata := repeat 0 (Z.to_nat (total tmp * 2)) in
  match yuyv_loop fuel (total tmp) ydata udata vdata 0 outdata with
  | Returned o => Returned (mkMat (rows tmp) (cols tmp) CV_8UC2 o)
  | Overrun => Overrun
  | Unfinished => Unfinished
  end.

End ConvertRgbToYuyv.


End Compositor.

(** ** The format negotiated with the loopback device *)

Module VideoFormat.

(** Conversions to [size_t] (64 bits) and to [__u32]. *)
Definition size_t_cast (x : Z) : Z := x mod 18446744073709551616.
Definition u32_cast (x : Z) : Z := x mod 4294967296.

(** The fields of [struct v4l2_format] that [loopback_init] fills in for
    [VIDIOC_S_FMT] and that depend on the geometry. *)
Record pix_format : Type := mkPixFormat {
  pix_width : Z;
  pix_height : Z;
  pix_sizeimage : Z;
  pix_bytesperline : Z
}.

(** [size_t linewidth = w * 2; size_t framesize = h * linewidth;] and the
    assignments to [vid_format.fmt.pix]. *)
Definition vid_format (w h : Z) : pix_format :=
  let linewidth := size_t_cast (int_cast (w * 2)) in
  let framesize := size_t_cast (size_t_cast h * linewidth) in
  mkPixFormat (u32_cast w) (u32_cast h) (u32_cast framesize) (u32_cast linewidth).

End VideoFormat.

(** ** The virtual output device *)

Module Loopback.

(** The system calls the device code issues, in the order issued. *)
Inductive syscall : Type :=
  | sys_open
  | sys_ioctl_QUERYCAP
  | sys_ioctl_S_FMT (w h : Z)
  | sys_ioctl_STREAMON
  | sys_ioctl_STREAMOFF
  | sys_close.

(** The constants of [<linux/videodev2.h>] that the code uses. *)
Definition V4L2_BUF_TYPE_VIDEO_OUTPUT : Z := 2.
Definition V4L2_PIX_FMT_YUYV : Z := 1448695129.
Definition V4L2_FIELD_NONE : Z := 1.
Definition V4L2_COLORSPACE_SRGB : Z := 8.

(** [struct v4l2_format], the members [loopback_init] sets after the
    [memset] and [print_format] prints. *)
Record v4l2_format : Type := mkFormat {
  fmt_type : Z;
  pix : VideoFormat.pix_format;
  pixelformat : Z;
  field : Z;
  colorspace : Z
}.

(** What the kernel answers to each call ([< 0] is failure), and what
    the driver leaves in the structure passed to [VIDIOC_S_FMT], which
    it may adjust. *)
Record kernel : Type := mkKernel {
  open_ret : Z;
  querycap_ret : Z;
  s_fmt_ret : Z;
  streamon_ret : Z;
  streamoff_ret : Z;
  close_ret : Z;
  s_fmt_driver : v4l2_format -> v4l2_format
}.

(** The part of the process state the device code acts on: whether the
    descriptor is open, whether the device streams, the calls made so far
    and the lines printed on [stderr]. *)
Record process : Type := mkProcess {
  fd_open : bool;
  streaming : bool;
  calls : list syscall;
  stderr : list string
}.

Definition fresh_process : process := mkProcess false false [] [].

Definition do_call (c : syscall) (p : process) : process :=
  mkProcess (fd_open p) (streaming p) (calls p ++ [c]) (stderr p).

Definition report (msg : string) (p : process) : process :=
  mkProcess (fd_open p) (streaming p) (calls p) (stderr p ++ [msg]).

Definition set_fd_open (b : bool) (p : process) : process :=
  mkProcess b (streaming p) (calls p) (stderr p).

Definition set_streaming (b : bool) (p : process) : process :=
  mkProcess (fd_open p) b (calls p) (stderr p).

(** [close(fdwr)]: the descriptor is released whatever the call returns. *)
Definition close (p : process) : process :=
  set_fd_open false (do_call sys_close p).

(** The conversion [%d] of [fprintf], given an [enum] or a [__u32]. *)
Definition printf_d (x : Z) : string :=
  NilZero.string_of_int (Z.to_int (int_cast x)).

(** [print_format(&vid_format)]: nine calls of [fprintf(stderr, ...)],
    the last one an empty line. *)
Definition print_format (f : v4l2_format) : list string :=
  [ ("vid_format->type                = " ++ printf_d (fmt_type f))%string;
    ("vid_format->fmt.pix.width       = "
       ++ printf_d (VideoFormat.pix_width (pix f)))%string;
    ("vid_format->fmt.pix.height      = "
       ++ printf_d (VideoFormat.pix_height (pix f)))%string;
    ("vid_format->fmt.pix.pixelformat = " ++ printf_d (pixelformat f))%string;
    ("vid_format->fmt.pix.sizeimage   = "
       ++ printf_d (VideoFormat.pix_sizeimage (pix f)))%string;
    ("vid_format->fmt.pix.field       = " ++ printf_d (field f))%string;
    ("vid_format->fmt.pix.bytesperline= "
       ++ printf_d (VideoFormat.pix_bytesperline (pix f)))%string;
    ("vid_format->fmt.pix.colorspace  = " ++ printf_d (colorspace f))%string;
    EmptyString ].

Definition report_lines (lines : list string) (p : process) : process :=
  mkProcess (fd_open p) (streaming p) (calls p) (stderr p ++ lines).

(** The structure [loopback_init] fills in for [VIDIOC_S_FMT]. *)
Definition requested_format (w h : Z) : v4l2_format :=
  mkFormat V4L2_BUF_TYPE_VIDEO_OUTPUT (VideoFormat.vid_format w h)
    V4L2_PIX_FMT_YUYV V4L2_FIELD_NONE V4L2_COLORSPACE_SRGB.

(** [loopback_init(device, w, h, debug)]: the returned integer ([-1] on
    failure, the descriptor otherwise) and the process state left. *)
Definition loopback_init (k : kernel) (w h debug : Z) (p : process) : Z * process :=
  let p := do_call sys_open p in
  if open_ret k <? 0 then
    (-1, report "Failed to open video device" p)
  else
    let p := set_fd_open true p in
    let p := do_call sys_ioctl_QUERYCAP p in
    if querycap_ret k <? 0 then
      (-1, close (report "Failed to query device capabilities" p))
    else
      let p := do_call (sys_ioctl_S_FMT w h) p in
      let vid_format := s_fmt_driver k (requested_format w h) in
      if s_fmt_ret k <? 0 then
        (-1, close (report "Failed to set device video format" p))
      else
        let p := do_call sys_ioctl_STREAMON p in
        if streamon_ret k <? 0 then
          (-1, close (report "Failed to start streaming" p))
        else
          let p := set_streaming true p in
          if debug =? 0 then (open_ret k, p)
          else (open_ret k, report_lines (print_format vid_format) p).

(** [loopback_free(fdwr)]. *)
Definition loopback_free (k : kernel) (p : process) : Z * process :=
  let p := do_call sys_ioctl_STREAMOFF p in
  if streamoff_ret k <? 0 then
    (-1, report "Failed to stop streaming" p)
  else
    let p := set_streaming false p in
    let p := close p in
    if close_ret k <? 0 then
      (-1, report "Failed to close video device" p)
    else
      (0, p).

(** *** Writing one frame *)

(** How the write loop of [main] ends: the frame has been handed over, or
    [exit(1)] after a failed [write]; [OutOfFuel] is the model's own, for
    a loop still running when the fuel is spent. *)
Inductive write_result : Type :=
  | Written (wire : list Z)
  | WriteFatal (wire : list Z)
  | OutOfFuel (wire : list Z).

Section WriteFrame.

(** The [n]-th call [write(lbfd, buf, count)] of a frame returns
    [sys_write n count]; when that is positive the device has taken the
    first [sys_write n count] bytes of [buf]. *)
Variable sys_write : nat -> Z -> Z.

(** [while (framesize > 0) { ret = write(lbfd, raw[idx].data, framesize);
    if (ret <= 0) exit(1); framesize -= ret; }] after [n] calls, with
    [wire] the bytes the device has received.  Every call passes the
    pointer [raw[idx].data], the start of the frame. *)
Fixpoint write_loop (fuel n : nat) (buf : list Z) (framesize : Z)
    (wire : list Z) : write_result :=
  match fuel with
  | O => if 0 <? framesize then OutOfFuel wire else Written wire
  | S fuel' =>
      if 0 <? framesize then
        let ret := sys_write n framesize in
        if ret <=? 0 then WriteFatal wire
        else write_loop fuel' (S n) buf (framesize - ret)
               (wire ++ firstn (Z.to_nat ret) buf)
      else Written wire
  end.

(** The write of one frame: [framesize = step[0] * rows], the byte size
    of the packed image. *)
Definition write_frame (fuel : nat) (frame : Mat) : write_result :=
  let step0 := cols frame * channels (type frame) in
  let framesize := int_cast (step0 * rows frame) in
  write_loop fuel 0 (data frame) framesize [].

End WriteFrame.

End Loopback.

(** ** The main program: geometry, frame rate and throttling *)

Module Orchestrator.

(** What [sscanf(arg, "%d", &x)] did: stored a number and returned 1,
    returned 0 without storing, or returned [EOF] without storing. *)
Inductive scanned : Type :=
  | scan_ok (z : Z)
  | scan_nomatch
  | scan_eof.

(** The command-line switches that act on geometry or frame rate, with
    the result of parsing their argument.  [geometryFromString] yields
    [None] when the text is not [WxH]. *)
Inductive cli_option : Type :=
  | opt_w (arg : scanned)
  | opt_h (arg : scanned)
  | opt_cg (geo : option (Z * Z))
  | opt_vg (geo : option (Z * Z))
  | opt_max_fps (arg : scanned)
  | opt_other.

(** The local variables of [main] those switches set. *)
Record settings : Type := mkSettings {
  width : Z;
  height : Z;
  setWorH : bool;
  capGeo : option (Z * Z);
  vidGeo : option (Z * Z);
  maxFps : Z
}.

Definition initial_settings : settings :=
  mkSettings 640 480 false None None 0.

(** Results of code that can stop the program. *)
Inductive outcome (A : Type) : Type :=
  | Ok (a : A)
  | Usage (msg : string)     (* [usage(name, 1, ...)]: message and exit *)
  | Undefined.               (* access through an empty [std::optional] *)
Arguments Ok {A} a.
Arguments Usage {A} msg.
Arguments Undefined {A}.

Definition bind {A B : Type} (x : outcome A) (f : A -> outcome B) : outcome B :=
  match x with
  | Ok a => f a
  | Usage m => Usage m
  | Undefined => Undefined
  end.

(** The value [sscanf] leaves in the variable, and whether the guarded
    block runs (the return value is non-zero). *)
Definition sscanf_d (arg : scanned) (old : Z) : Z * bool :=
  match arg with
  | scan_ok z => (z, true)
  | scan_nomatch => (old, false)
  | scan_eof => (old, true)
  end.

(** One round of the option loop. *)
Definition parse_option (o : cli_option) (s : settings) : outcome settings :=
  match o with
  | opt_w arg =>
      let '(w, taken) := sscanf_d arg (width s) in
      if taken then
        if w =? 0 then Usage "Option require a valid value"
        else
          (* if the width is odd we will have color error! *)
          let w := int_cast (w + Z.rem w 2) in
          Ok (mkSettings w (height s) true (capGeo s) (vidGeo s) (maxFps s))
      else Ok (mkSettings w (height s) (setWorH s) (capGeo s) (vidGeo s) (maxFps s))
  | opt_h arg =>
      let '(h, taken) := sscanf_d arg (height s) in
      if taken then
        if h =? 0 then Usage "Option require a valid value"
        else Ok (mkSettings (width s) h true (capGeo s) (vidGeo s) (maxFps s))
      else Ok (mkSettings (width s) h (setWorH s) (capGeo s) (vidGeo s) (maxFps s))
  | opt_cg geo =>
      match geo with
      | None => Undefined
      | Some (w, h) =>
          if (w <? 1) || (h <? 1) then Usage "wrong geometry"
          else Ok (mkSettings (width s) (height s) (setWorH s) (Some (w, h))
                     (vidGeo s) (maxFps s))
      end
  | opt_vg geo =>
      match geo with
      | None => Undefined
      | Some (w, h) =>
          if (w <? 1) || (h <? 1) then Usage "wrong geometry"
          else
            (* if the width is odd we will have color error! *)
            let w := int_cast (w + Z.rem w 2) in
            Ok (mkSettings (width s) (height s) (setWorH s) (capGeo s)
                  (Some (w, h)) (maxFps s))
      end
  | opt_max_fps arg =>
      let '(f, taken) := sscanf_d arg (maxFps s) in
      if taken then
        if f <=? 0 then Usage "Option require a valid value"
        else Ok (mkSettings (width s) (height s) (setWorH s) (capGeo s) (vidGeo s) f)
      else Ok (mkSettings (width s) (height s) (setWorH s) (capGeo s) (vidGeo s) f)
  | opt_other => Ok s
  end.

(** [for (int arg = 1; arg < argc; arg++)] over the switches given. *)
Fixpoint parse_options (opts : list cli_option) (s : settings) : outcome settings :=
  match opts with
  | [] => Ok s
  | o :: rest => bind (parse_option o s) (parse_options rest)
  end.

Definition is_some {A : Type} (o : option A) : bool :=
  match o with Some _ => true | None => false end.

Definition geo_eqb (g h : Z * Z) : bool :=
  (fst g =? fst h) && (snd g =? snd h).

(** The virtual geometry, when set, has an even width. *)
Definition vidGeo_even (s : settings) : Prop :=
  match vidGeo s with
  | Some (w, _) => Z.even w = true
  | None => True
  end.

(** [(int)x] for a [double] [x]: the fraction is dropped (truncation
    towards zero).  The conversion is defined only where the result fits
    an [int]; the wrap-around stands for what happens outside. *)
Definition int_of_double (x : Q) : Z :=
  int_cast (if Qle_bool 0 x then Qfloor x else Qceiling x).

(** [fps = (int)cap.get(cv::CAP_PROP_FPS);], [native_fps] being the rate
    the capture device reports. *)
Definition capture_fps (native_fps : Q) : Z := int_of_double native_fps.

(** [fpsDivisor = 1; if (maxFps > 0) fpsDivisor = ((fps+maxFps-1) / maxFps);]
    on [int]. *)
Definition fpsDivisor (fps maxFps : Z) : Z :=
  if 0 <? maxFps then
    int_cast (Z.quot (int_cast (int_cast (fps + maxFps) - 1)) maxFps)
  else 1.

(** What the program has settled once the capture device is open. *)
Record plan : Type := mkPlan {
  plan_capGeo : Z * Z;
  plan_vidGeo : Z * Z;
  plan_fpsDivisor : Z
}.

Section Startup.

(** The aspect-ratio test on the virtual geometry,
    [(float)w/h > 2.726 || (float)h/w > 2.726], computed in floating
    point. *)
Variable aspect_too_big : Z * Z -> bool.

(** The capture device: the geometry it reports once the requested one
    has been set, and its frame rate [(int)cap.get(cv::CAP_PROP_FPS)]. *)
Variable cap_geometry : Z * Z -> Z * Z.
Variable cap_fps : Z.

(** From the end of the option loop to the opening of the virtual
    camera. *)
Definition resolve (s : settings) : outcome plan :=
  if match vidGeo s with Some g => aspect_too_big g | None => false end then
    Usage "Wrong --vg (--video-geometry) parameter, aspect ratio to big"
  else if setWorH s && (is_some (capGeo s) || is_some (vidGeo s)) then
    Usage "Error: (DEPRECATED) -w/-h used in conjunction with --cg/--vg."
  else
    let capGeo0 :=
      match capGeo s with Some g => g | None => (width s, height s) end in
    let tmpGeo := cap_geometry capGeo0 in
    let divisor := fpsDivisor cap_fps (maxFps s) in
    let capGeo1 := if geo_eqb tmpGeo capGeo0 then capGeo0 else tmpGeo in
    let vidGeo1 := match vidGeo s with Some g => g | None => capGeo1 end in
    Ok (mkPlan capGeo1 vidGeo1 divisor).

(** Option loop, then start-up. *)
Definition startup (opts : list cli_option) : outcome plan :=
  bind (parse_options opts initial_settings) resolve.

(** The width [main] passes to [loopback_init] and uses for the mask,
    the background and the frames that are packed. *)
Definition output_width (p : plan) : Z := fst (plan_vidGeo p).

End Startup.

(** *** Throttling *)

(** What the main loop does with one captured frame. *)
Inductive tick : Type :=
  | tick_empty       (* [continue; // sanity check] *)
  | tick_skipped     (* [skip++; continue;] *)
  | tick_processed.  (* the frame goes through the pipeline *)

(** The head of the main loop over the frames captured, [skip] being the
    counter and [divisor] the value of [fpsDivisor]. *)
Fixpoint throttle (divisor skip : Z) (captured : list Mat) : list tick :=
  match captured with
  | [] => []
  | raw :: rest =>
      if (rows raw =? 0) || (cols raw =? 0) then
        tick_empty :: throttle divisor skip rest
      else if skip <? divisor then
        tick_skipped :: throttle divisor (int_cast (skip + 1)) rest
      else
        tick_processed :: throttle divisor 1 rest
  end.

(** The value the counter [skip] has after the frames [captured]. *)
Fixpoint skip_after (divisor skip : Z) (captured : list Mat) : Z :=
  match captured with
  | [] => skip
  | raw :: rest =>
      if (rows raw =? 0) || (cols raw =? 0) then skip_after divisor skip rest
      else if skip <? divisor then skip_after divisor (int_cast (skip + 1)) rest
      else skip_after divisor 1 rest
  end.

(** [int skip = fpsDivisor; while (true) ...]. *)
Definition main_loop (divisor : Z) (captured : list Mat) : list tick :=
  throttle divisor divisor captured.

Definition tick_eqb (a b : tick) : bool :=
  match a, b with
  | tick_empty, tick_empty | tick_skipped, tick_skipped
  | tick_processed, tick_processed => true
  | _, _ => false
  end.

Definition count_ticks (t : tick) (l : list tick) : nat :=
  length (filter (tick_eqb t) l).

Definition nonempty_frame (m : Mat) : bool :=
  negb ((rows m =? 0) || (cols m =? 0)).

(** Number of frames of [l] that pass the sanity check. *)
Definition nonempty_count (l : list Mat) : Z :=
  Z.of_nat (length (filter nonempty_frame l)).

End Orchestrator.

(** ** The mask engine: [class CalcMask] *)

Module MaskEngine.

Inductive thread_state : Type := RUNNING | DONE.

(** The target of one of the buffer pointers: the first or the second
    matrix of a pair ([frame1]/[frame2], [mask1]/[mask2]). *)
Inductive buffer : Type := buf1 | buf2.

(** The data members of [CalcMask] (the timing fields are left out: no
    control flow reads them). *)
Record CalcMask : Type := mkCalcMask {
  state : thread_state;
  mask1 : Mat;
  mask2 : Mat;
  mask_current : buffer;
  mask_out : buffer;
  frame1 : Mat;
  frame2 : Mat;
  frame_current : buffer;
  frame_next : buffer;
  new_frame : bool;
  new_mask : bool
}.

(** Reading and writing through the pointers. *)
Definition frame_at (b : buffer) (c : CalcMask) : Mat :=
  match b with buf1 => frame1 c | buf2 => frame2 c end.

Definition mask_at (b : buffer) (c : CalcMask) : Mat :=
  match b with buf1 => mask1 c | buf2 => mask2 c end.

Definition store_frame (b : buffer) (m : Mat) (c : CalcMask) : CalcMask :=
  match b with
  | buf1 => mkCalcMask (state c) (mask1 c) (mask2 c) (mask_current c) (mask_out c)
              m (frame2 c) (frame_current c) (frame_next c) (new_frame c) (new_mask c)
  | buf2 => mkCalcMask (state c) (mask1 c) (mask2 c) (mask_current c) (mask_out c)
              (frame1 c) m (frame_current c) (frame_next c) (new_frame c) (new_mask c)
  end.

Definition store_mask (b : buffer) (m : Mat) (c : CalcMask) : CalcMask :=
  match b with
  | buf1 => mkCalcMask (state c) m (mask2 c) (mask_current c) (mask_out c)
              (frame1 c) (frame2 c) (frame_current c) (frame_next c)
              (new_frame c) (new_mask c)
  | buf2 => mkCalcMask (state c) (mask1 c) m (mask_current c) (mask_out c)
              (frame1 c) (frame2 c) (frame_current c) (frame_next c)
              (new_frame c) (new_mask c)
  end.

Definition set_state (t : thread_state) (c : CalcMask) : CalcMask :=
  mkCalcMask t (mask1 c) (mask2 c) (mask_current c) (mask_out c)
    (frame1 c) (frame2 c) (frame_current c) (frame_next c) (new_frame c) (new_mask c).

Definition set_new_frame (b : bool) (c : CalcMask) : CalcMask :=
  mkCalcMask (state c) (mask1 c) (mask2 c) (mask_current c) (mask_out c)
    (frame1 c) (frame2 c) (frame_current c) (frame_next c) b (new_mask c).

Definition set_new_mask (b : bool) (c : CalcMask) : CalcMask :=
  mkCalcMask (state c) (mask1 c) (mask2 c) (mask_current c) (mask_out c)
    (frame1 c) (frame2 c) (frame_current c) (frame_next c) (new_frame c) b.

(** [raw_tmp = frame_next; frame_next = frame_current; frame_current = raw_tmp;] *)
Definition swap_frames (c : CalcMask) : CalcMask :=
  mkCalcMask (state c) (mask1 c) (mask2 c) (mask_current c) (mask_out c)
    (frame1 c) (frame2 c) (frame_next c) (frame_current c) (new_frame c) (new_mask c).

(** [raw_tmp = mask_out; mask_out = mask_current; mask_current = raw_tmp;] *)
Definition swap_masks (c : CalcMask) : CalcMask :=
  mkCalcMask (state c) (mask1 c) (mask2 c) (mask_out c) (mask_current c)
    (frame1 c) (frame2 c) (frame_current c) (frame_next c) (new_frame c) (new_mask c).

(** Where the worker thread stands in [run()]. *)
Inductive worker_pc : Type :=
  | at_loop_test       (* [while (thread_state::RUNNING == this->state)] *)
  | at_lock_frame      (* [std::unique_lock<std::mutex> hold(lock_frame)] *)
  | at_new_frame_test  (* [while (!new_frame)], holding [lock_frame] *)
  | at_wait_call       (* [new_frame] found false, about to call
                          [condition_new_frame.wait(hold)], holding [lock_frame] *)
  | in_wait            (* blocked inside [wait], lock released *)
  | at_frame_swap      (* the pointer exchange, holding [lock_frame] *)
  | at_process         (* [bs_maskgen_process(...)] *)
  | at_lock_mask       (* [std::unique_lock<std::mutex> hold(lock_mask)] *)
  | at_mask_swap       (* the pointer exchange, holding [lock_mask] *)
  | returned           (* [run()] has returned: the thread can be joined *)
  | exited.            (* [exit(1)] after a failed inference *)

(** The engine together with its worker thread: the object, the worker's
    position, whether a notification has reached the waiting worker, and
    the frames handed to [bs_maskgen_process] so far, oldest first. *)
Record system : Type := mkSystem {
  engine : CalcMask;
  pc : worker_pc;
  notified : bool;
  processed : list Mat
}.

Definition with_engine (c : CalcMask) (s : system) : system :=
  mkSystem c (pc s) (notified s) (processed s).

Definition goto (w : worker_pc) (s : system) : system :=
  mkSystem (engine s) w (notified s) (processed s).

(** The mutexes are only ever held by the worker across steps: the calls
    [set_input_frame] and [get_output_mask] of the main thread run under
    a lock and are single steps of the model, and memory is sequentially
    consistent.  The test of [new_frame] and the call of [wait] are two
    steps: the worker holds [lock_frame] in between, which keeps
    [set_input_frame] out but not the destructor, which takes no lock.
    A waiting worker moves only when notified (the language allows a
    spurious wake-up, which would test [new_frame] again, and promises
    none). *)
Definition worker_holds_lock_frame (s : system) : bool :=
  match pc s with
  | at_new_frame_test | at_wait_call | at_frame_swap => true
  | _ => false
  end.

Definition worker_holds_lock_mask (s : system) : bool :=
  match pc s with at_mask_swap => true | _ => false end.

(** [condition_new_frame.notify_all()]: wakes the worker if it is
    blocked in [wait]; a worker that is not is not notified, now or
    later. *)
Definition notify_all (s : system) : system :=
  match pc s with
  | in_wait => mkSystem (engine s) (pc s) true (processed s)
  | _ => s
  end.

(** The constructor, after [bs_maskgen_new] succeeded: the object and a
    worker thread about to enter [run()]. *)
Definition construct : system :=
  mkSystem
    (mkCalcMask RUNNING Mat_empty Mat_empty buf1 buf2
       Mat_empty Mat_empty buf2 buf1 false false)
    at_loop_test false [].

Section Worker.

(** [bs_maskgen_process(maskctx, frame, mask)] of libbackscrub: given the
    frame and the mask buffer it returns the mask computed, or fails. *)
Variable bs_maskgen_process : Mat -> Mat -> option Mat.

(** One step of the worker thread; [None] when it cannot move: blocked
    in [wait], or finished. *)
Definition worker_step (s : system) : option system :=
  let c := engine s in
  match pc s with
  | at_loop_test =>
      match state c with
      | RUNNING => Some (goto at_lock_frame s)
      | DONE => Some (goto returned s)
      end
  | at_lock_frame => Some (goto at_new_frame_test s)
  | at_new_frame_test =>
      if new_frame c then Some (goto at_frame_swap s)
      else Some (goto at_wait_call s)
  | at_wait_call => Some (mkSystem c in_wait false (processed s))
  | in_wait =>
      if notified s then Some (mkSystem c at_new_frame_test false (processed s))
      else None
  | at_frame_swap =>
      Some (goto at_process (with_engine (swap_frames (set_new_frame false c)) s))
  | at_process =>
      let frame := frame_at (frame_current c) c in
      let s := mkSystem c (pc s) (notified s) (processed s ++ [frame]) in
      match bs_maskgen_process frame (mask_at (mask_current c) c) with
      | Some m => Some (goto at_lock_mask
                          (with_engine (store_mask (mask_current c) m c) s))
      | None => Some (goto exited s)
      end
  | at_lock_mask => Some (goto at_mask_swap s)
  | at_mask_swap =>
      Some (goto at_loop_test (with_engine (set_new_mask true (swap_masks c)) s))
  | returned => None
  | exited => None
  end.

(** The worker left alone for at most [fuel] steps. *)
Fixpoint run_worker (fuel : nat) (s : system) : system :=
  match fuel with
  | O => s
  | S k =>
      match worker_step s with
      | Some s' => run_worker k s'
      | None => s
      end
  end.

End Worker.

(** [set_input_frame(frame)]; [None] while the worker holds [lock_frame]
    and the caller has to wait for the mutex. *)
Definition set_input_frame (frame : Mat) (s : system) : option system :=
  if worker_holds_lock_frame s then None
  else
    let c := engine s in
    let c := store_frame (frame_next c) frame c in
    let c := set_new_frame true c in
    Some (notify_all (with_engine c s)).

(** [get_output_mask(out)]: the new state and the new contents of the
    caller's [out]; [None] while the caller has to wait for [lock_mask]. *)
Definition get_output_mask (out : Mat) (s : system) : option (system * Mat) :=
  let c := engine s in
  if new_mask c then
    if worker_holds_lock_mask s then None
    else Some (with_engine (set_new_mask false c) s, mask_at (mask_out c) c)
  else Some (s, out).

(** The destructor, [~CalcMask()], statement by statement.  It takes no
    lock. *)
Inductive destructor_pc : Type :=
  | at_mark_done        (* [state = thread_state::DONE;] *)
  | at_force_new_frame  (* [new_frame = true;] *)
  | at_notify_all       (* [condition_new_frame.notify_all();] *)
  | at_join             (* [thread.join();] *)
  | joined.             (* [join] has returned; [bs_maskgen_delete] follows *)

(** One step of the destructor; [None] when it cannot move: [join]
    blocks until [run()] has returned. *)
Definition destructor_step (d : destructor_pc) (s : system)
  : option (destructor_pc * system) :=
  match d with
  | at_mark_done =>
      Some (at_force_new_frame, with_engine (set_state DONE (engine s)) s)
  | at_force_new_frame =>
      Some (at_notify_all, with_engine (set_new_frame true (engine s)) s)
  | at_notify_all => Some (at_join, notify_all s)
  | at_join =>
      match pc s with
      | returned => Some (joined, s)
      | _ => None
      end
  | joined => None
  end.

(** Whether the worker, from where it stands, reaches the call of
    [bs_maskgen_process] before it next tests [state]. *)
Definition inference_ahead (w : worker_pc) : nat :=
  match w with
  | at_lock_frame | at_new_frame_test | at_wait_call | in_wait
  | at_frame_swap | at_process => 1
  | _ => 0
  end.

Definition finished (s : system) : bool :=
  match pc s with returned | exited => true | _ => false end.

(** A state in which the caller has just fetched, or has just built the
    engine: nothing has been computed since. *)
Definition just_fetched (s : system) : Prop :=
  s = construct \/
  exists (before : system) (out result : Mat),
    get_output_mask out before = Some (s, result).

Section Runs.

Variable bs_maskgen_process : Mat -> Mat -> option Mat.

(** Runs of the engine during which no inference completes: the main
    thread submits frames or takes steps of the destructor, and the
    worker takes any step but the one that publishes a mask (the
    exchange at [at_mask_swap], which sets [new_mask]). *)
Inductive no_completion : system -> system -> Prop :=
  | nc_here (s : system) : no_completion s s
  | nc_submit (s s1 s2 : system) (frame : Mat) :
      no_completion s s1 ->
      set_input_frame frame s1 = Some s2 ->
      no_completion s s2
  | nc_worker (s s1 s2 : system) :
      no_completion s s1 ->
      pc s1 <> at_mask_swap ->
      worker_step bs_maskgen_process s1 = Some s2 ->
      no_completion s s2
  | nc_destructor (s s1 s2 : system) (d d' : destructor_pc) :
      no_completion s s1 ->
      destructor_step d s1 = Some (d', s2) ->
      no_completion s s2.

(** *** Shutdown *)

(** The engine while its destructor runs: the main thread is inside
    [~CalcMask()], at [fst], and the worker goes on on its own. *)
Definition shutdown : Type := destructor_pc * system.

Inductive thread : Type := worker_thread | main_thread.

Definition shutdown_step (t : thread) (st : shutdown) : option shutdown :=
  match t with
  | worker_thread =>
      match worker_step bs_maskgen_process (snd st) with
      | Some s' => Some (fst st, s')
      | None => None
      end
  | main_thread => destructor_step (fst st) (snd st)
  end.

(** The state after the threads have moved as [schedule] says; [None]
    when a thread is scheduled that cannot move. *)
Fixpoint play (schedule : list thread) (st : shutdown) : option shutdown :=
  match schedule with
  | [] => Some st
  | t :: rest =>
      match shutdown_step t st with
      | Some st' => play rest st'
      | None => None
      end
  end.

(** No thread can move: the shutdown is over, or it hangs. *)
Definition at_rest (st : shutdown) : Prop :=
  forall t, shutdown_step t st = None.

End Runs.

End MaskEngine.

(** ** The command line *)

Module Cli.

Import Orchestrator.

(** A [char] as the value of its byte. *)
Definition byte_of (c : ascii) : Z := Z.of_N (N_of_ascii c).

Fixpoint bytes_of (s : string) : list Z :=
  match s with
  | EmptyString => []
  | String c rest => byte_of c :: bytes_of rest
  end.

(** [::toupper] and [::isdigit] in the "C" locale, on byte values. *)
Definition toupper (c : Z) : Z :=
  if (97 <=? c) && (c <=? 122) then c - 32 else c.

Definition isdigit (c : Z) : bool := (48 <=? c) && (c <=? 57).

(** [cv::VideoWriter::fourcc(c1, c2, c3, c4)]:
    [(c1 & 255) + ((c2 & 255) << 8) + ((c3 & 255) << 16) + ((c4 & 255) << 24)]
    as an [int]. *)
Definition VideoWriter_fourcc (c1 c2 c3 c4 : Z) : Z :=
  int_cast (Z.land c1 255 + Z.shiftl (Z.land c2 255) 8 +
            Z.shiftl (Z.land c3 255) 16 + Z.shiftl (Z.land c4 255) 24).

(** [a[i] = x] on a [std::array]. *)
Fixpoint store (i : nat) (x : Z) (a : list Z) : list Z :=
  match a, i with
  | [], _ => []
  | _ :: rest, O => x :: rest
  | y :: rest, S j => y :: store j x rest
  end.

(** [for (size_t i = 0; i < in.size(); ++i) a[i] = ::toupper(in[i]);]
    from index [i], the elements of [a] being [uint8_t]. *)
Fixpoint fill_upper (i : nat) (chars : list Z) (a : list Z) : list Z :=
  match chars with
  | [] => a
  | c :: rest => fill_upper (S i) rest (store i (uint8_t (toupper c)) a)
  end.

Section FourCc.

(** [std::stoi(in, nullptr, 16)] of the standard library; [None] when it
    throws. *)
Variable stoi_16 : string -> option Z.

(** [fourCcFromString(in)]; [None] when [std::stoi] throws. *)
Definition fourCcFromString (inp : string) : option Z :=
  if (String.length inp =? 0)%nat then Some 0
  else if (String.length inp <=? 4)%nat then
    let a := fill_upper 0 (bytes_of inp) [32; 32; 32; 32] in
    Some (VideoWriter_fourcc (nth 0 a 0) (nth 1 a 0) (nth 2 a 0) (nth 3 a 0))
  else if (String.length inp =? 8)%nat then stoi_16 inp
  else Some 0.

End FourCc.

(** The byte at place [k] of a short code once upper-cased, a space
    beyond its end. *)
Definition padded_upper (inp : string) (k : nat) : Z :=
  nth k (map (fun c => uint8_t (toupper c)) (bytes_of inp)) 32.

(** [is_number(s)]. *)
Definition is_number (s : string) : bool :=
  negb (String.length s =? 0)%nat && forallb isdigit (bytes_of s).

(** The value of a run of decimal digits, most significant first. *)
Fixpoint decimal (acc : Z) (digits : list Z) : Z :=
  match digits with
  | [] => acc
  | d :: rest => decimal (acc * 10 + (d - 48)) rest
  end.

(** [std::stoi(value)] as the program calls it, on a string for which
    [is_number] holds: the decimal value, or [None] for the
    [std::out_of_range] it throws beyond [INT_MAX]. *)
Definition stoi (value : string) : option Z :=
  let v := decimal 0 (bytes_of value) in
  if v <=? INT_MAX then Some v else None.

(** [option.find(":")]. *)
Fixpoint find_colon (s : string) : option nat :=
  match s with
  | EmptyString => None
  | String c rest =>
      if byte_of c =? 58 then Some O
      else match find_colon rest with
           | Some i => Some (S i)
           | None => None
           end
  end.

(** [option.substr(0, option.find(":"))]: up to the colon, or the whole
    string when there is none. *)
Definition option_key (option : string) : string :=
  match find_colon option with
  | Some i => substring 0 i option
  | None => option
  end.

(** [option.substr(option.find(":")+1)]: after the colon; without a
    colon [npos + 1] is 0 and this is the whole string again. *)
Definition option_value (option : string) : string :=
  match find_colon option with
  | Some i => substring (S i) (String.length option - S i) option
  | None => option
  end.

(** How a piece of start-up code ends: it goes on, it stops the program
    with an exit code ([usage] or [exit]), an exception of the standard
    library leaves [main] (its handler catches [const char*] only), or it
    reads an empty [std::optional]. *)
Inductive parse_result (A : Type) : Type :=
  | Parsed (a : A)
  | Stopped (code : Z) (msg : string)
  | Thrown
  | Undef.
Arguments Parsed {A} a.
Arguments Stopped {A} code msg.
Arguments Thrown {A}.
Arguments Undef {A}.

Definition bindp {A B : Type} (x : parse_result A) (f : A -> parse_result B)
  : parse_result B :=
  match x with
  | Parsed a => f a
  | Stopped c m => Stopped c m
  | Thrown => Thrown
  | Undef => Undef
  end.

Definition lift {A : Type} (x : outcome A) : parse_result A :=
  match x with
  | Ok a => Parsed a
  | Usage m => Stopped 1 m
  | Undefined => Undef
  end.

(** The body of the [-p] switch: the new [blur_strength]. *)
Definition post_processing (option : string) : parse_result Z :=
  if String.eqb (option_key option) "bgblur" then
    if is_number (option_value option) then
      match stoi (option_value option) with
      | Some strength =>
          if Z.rem strength 2 =? 0 then Stopped 1 "strength value must be odd"
          else Parsed strength
      | None => Thrown
      end
    else Parsed 25
  else Stopped 1 "Unknown post-processing option".

(** The local variables of [main] that the option loop sets; the
    geometry and frame-rate ones are [Orchestrator.settings]. *)
Record options : Type := mkOptions {
  debug : Z;
  showProgress : bool;
  flipHorizontal : bool;
  flipVertical : bool;
  vcam : option string;
  ccam : option string;
  back : option string;
  modelname : string;
  blur_strength : Z;
  fourcc : Z;
  threads : Z;
  geometry : settings;
  debugTiming : bool;
  sendPrevious : bool
}.

Definition initial_options : options :=
  mkOptions 0 false false false None None None
    "selfiesegmentation_mlkit-256x256-2021_01_19-v1215.f16.tflite"
    0 0 2 initial_settings false false.

Definition set_debug (x : Z) (s : options) : options :=
  mkOptions x (showProgress s) (flipHorizontal s) (flipVertical s) (vcam s) (ccam s)
    (back s) (modelname s) (blur_strength s) (fourcc s) (threads s) (geometry s)
    (debugTiming s) (sendPrevious s).

Definition set_showProgress (x : bool) (s : options) : options :=
  mkOptions (debug s) x (flipHorizontal s) (flipVertical s) (vcam s) (ccam s)
    (back s) (modelname s) (blur_strength s) (fourcc s) (threads s) (geometry s)
    (debugTiming s) (sendPrevious s).

Definition set_flipHorizontal (x : bool) (s : options) : options :=
  mkOptions (debug s) (showProgress s) x (flipVertical s) (vcam s) (ccam s)
    (back s) (modelname s) (blur_strength s) (fourcc s) (threads s) (geometry s)
    (debugTiming s) (sendPrevious s).

Definition set_flipVertical (x : bool) (s : options) : options :=
  mkOptions (debug s) (showProgress s) (flipHorizontal s) x (vcam s) (ccam s)
    (back s) (modelname s) (blur_strength s) (fourcc s) (threads s) (geometry s)
    (debugTiming s) (sendPrevious s).

Definition set_vcam (x : string) (s : options) : options :=
  mkOptions (debug s) (showProgress s) (flipHorizontal s) (flipVertical s) (Some x)
    (ccam s) (back s) (modelname s) (blur_strength s) (fourcc s) (threads s)
    (geometry s) (debugTiming s) (sendPrevious s).

Definition set_ccam (x : string) (s : options) : options :=
  mkOptions (debug s) (showProgress s) (flipHorizontal s) (flipVertical s) (vcam s)
    (Some x) (back s) (modelname s) (blur_strength s) (fourcc s) (threads s)
    (geometry s) (debugTiming s) (sendPrevious s).

Definition set_back (x : string) (s : options) : options :=
  mkOptions (debug s) (showProgress s) (flipHorizontal s) (flipVertical s) (vcam s)
    (ccam s) (Some x) (modelname s) (blur_strength s) (fourcc s) (threads s)
    (geometry s) (debugTiming s) (sendPrevious s).

Definition set_modelname (x : string) (s : options) : options :=
  mkOptions (debug s) (showProgress s) (flipHorizontal s) (flipVertical s) (vcam s)
    (ccam s) (back s) x (blur_strength s) (fourcc s) (threads s)
    (geometry s) (debugTiming s) (sendPrevious s).

Definition set_blur_strength (x : Z) (s : options) : options :=
  mkOptions (debug s) (showProgress s) (flipHorizontal s) (flipVertical s) (vcam s)
    (ccam s) (back s) (modelname s) x (fourcc s) (threads s)
    (geometry s) (debugTiming s) (sendPrevious s).

Definition set_fourcc (x : Z) (s : options) : options :=
  mkOptions (debug s) (showProgress s) (flipHorizontal s) (flipVertical s) (vcam s)
    (ccam s) (back s) (modelname s) (blur_strength s) x (threads s)
    (geometry s) (debugTiming s) (sendPrevious s).

Definition set_threads (x : Z) (s : options) : options :=
  mkOptions (debug s) (showProgress s) (flipHorizontal s) (flipVertical s) (vcam s)
    (ccam s) (back s) (modelname s) (blur_strength s) (fourcc s) x
    (geometry s) (debugTiming s) (sendPrevious s).

Definition set_geometry (x : settings) (s : options) : options :=
  mkOptions (debug s) (showProgress s) (flipHorizontal s) (flipVertical s) (vcam s)
    (ccam s) (back s) (modelname s) (blur_strength s) (fourcc s) (threads s)
    x (debugTiming s) (sendPrevious s).

Definition set_debugTiming (x : bool) (s : options) : options :=
  mkOptions (debug s) (showProgress s) (flipHorizontal s) (flipVertical s) (vcam s)
    (ccam s) (back s) (modelname s) (blur_strength s) (fourcc s) (threads s)
    (geometry s) x (sendPrevious s).

Definition set_sendPrevious (x : bool) (s : options) : options :=
  mkOptions (debug s) (showProgress s) (flipHorizontal s) (flipVertical s) (vcam s)
    (ccam s) (back s) (modelname s) (blur_strength s) (fourcc s) (threads s)
    (geometry s) (debugTiming s) x.

(** What holds of the variables whenever the option loop has run to its
    end: a blur strength that is unset or odd and positive, a thread
    count other than zero, a frame-rate cap that is unset or positive,
    geometries of positive dimensions and an even virtual width. *)
Definition settled (s : options) : Prop :=
  (blur_strength s = 0 \/
   (Z.odd (blur_strength s) = true /\ 1 <= blur_strength s <= INT_MAX)) /\
  threads s <> 0 /\
  0 <= maxFps (geometry s) /\
  vidGeo_even (geometry s) /\
  (forall w h, capGeo (geometry s) = Some (w, h) -> 1 <= w /\ 1 <= h) /\
  (forall w h, vidGeo (geometry s) = Some (w, h) -> 1 <= h).

(** The three overloads of [cmp]: [strcmp] against one, two or three
    spellings. *)
Definition cmp1 (inp opt1 : string) : bool := String.eqb inp opt1.

Definition cmp2 (inp opt1 opt2 : string) : bool :=
  String.eqb inp opt1 || String.eqb inp opt2.

Definition cmp3 (inp opt1 opt2 opt3 : string) : bool :=
  String.eqb inp opt1 || String.eqb inp opt2 || String.eqb inp opt3.

(** [*argv[arg+1] == '-']. *)
Definition starts_with_dash (v : string) : bool :=
  match v with
  | EmptyString => false
  | String c _ => byte_of c =? 45
  end.

(** [hasValidArgument]: the token after the switch, [next], must exist
    and must not begin with a dash. *)
Definition hasValidArgument (next : option string) : parse_result string :=
  match next with
  | None => Stopped 1 "Option require a value"
  | Some v =>
      if starts_with_dash v then Stopped 1 "Option require a value found"
      else Parsed v
  end.

Section OptionLoop.

(** The C library's [sscanf(arg, "%d", &x)], and
    [sscanf(arg, "%dx%d", &w, &h)] with its return value and the two
    numbers. *)
Variable scan_int : string -> scanned.
Variable scan_geometry : string -> Z * Z * Z.
Variable stoi_16 : string -> option Z.

(** [geometryFromString(in)]. *)
Definition geometryFromString (inp : string) : option (Z * Z) :=
  let '(n, w, h) := scan_geometry inp in
  if n =? 2 then Some (w, h) else None.

(** A switch that takes a value: check the next token, run the body on
    it, and report that the token has been consumed. *)
Definition with_value (next : option string) (s : options)
    (body : string -> parse_result options) : parse_result (options * bool) :=
  bindp (hasValidArgument next) (fun v =>
  bindp (body v) (fun s' => Parsed (s', true))).

(** A geometry or frame-rate switch: the round of
    [Orchestrator.parse_option] on the geometry variables. *)
Definition geometry_switch (o : cli_option) (s : options) : parse_result options :=
  bindp (lift (parse_option o (geometry s))) (fun g => Parsed (set_geometry g s)).

(** One round of [for (int arg = 1; arg < argc; arg++)] on the token
    [tok], [next] being the token that follows if there is one: the new
    variables, and whether [next] was consumed ([++arg]). *)
Definition parse_one (tok : string) (next : option string) (s : options)
  : parse_result (options * bool) :=
  if cmp3 tok "-?" "-help" "--help" then Stopped 0 "usage"
  else if cmp1 tok "-d" then Parsed (set_debug (int_cast (debug s + 1)) s, false)
  else if cmp1 tok "-s" then Parsed (set_showProgress true s, false)
  else if cmp1 tok "-H" then
    Parsed (set_flipHorizontal (negb (flipHorizontal s)) s, false)
  else if cmp1 tok "-V" then
    Parsed (set_flipVertical (negb (flipVertical s)) s, false)
  else if cmp1 tok "-v" then with_value next s (fun v => Parsed (set_vcam v s))
  else if cmp1 tok "-c" then with_value next s (fun v => Parsed (set_ccam v s))
  else if cmp1 tok "-b" then with_value next s (fun v => Parsed (set_back v s))
  else if cmp1 tok "-m" then with_value next s (fun v => Parsed (set_modelname v s))
  else if cmp1 tok "-p" then
    with_value next s (fun v =>
      bindp (post_processing v) (fun b => Parsed (set_blur_strength b s)))
  else if cmp1 tok "-w" then
    with_value next s (fun v => geometry_switch (opt_w (scan_int v)) s)
  else if cmp1 tok "-h" then
    with_value next s (fun v => geometry_switch (opt_h (scan_int v)) s)
  else if cmp3 tok "--cg" "-cg" "--camera-geometry" then
    with_value next s (fun v => geometry_switch (opt_cg (geometryFromString v)) s)
  else if cmp3 tok "--vg" "-vg" "--virtual-geometry" then
    with_value next s (fun v => geometry_switch (opt_vg (geometryFromString v)) s)
  else if cmp1 tok "-f" then
    with_value next s (fun v =>
      match fourCcFromString stoi_16 v with
      | Some code =>
          if code =? 0 then Stopped 1 "Option -f require a valid value"
          else Parsed (set_fourcc code s)
      | None => Thrown
      end)
  else if cmp1 tok "-t" then
    with_value next s (fun v =>
      let '(t, taken) := sscanf_d (scan_int v) (threads s) in
      if taken then
        if t =? 0 then Stopped 1 "Option require a valid value"
        else Parsed (set_threads t s)
      else Parsed (set_threads t s))
  else if cmp2 tok "--max-fps" "-mf" then
    with_value next s (fun v => geometry_switch (opt_max_fps (scan_int v)) s)
  else if cmp1 tok "-dd" then Parsed (set_debug 2 s, false)
  else if cmp1 tok "--version" then Stopped 0 "version"
  else if cmp2 tok "--debug-timing" "-dt" then Parsed (set_debugTiming true s, false)
  else if cmp2 tok "--video-delayed" "-vd" then Parsed (set_sendPrevious true s, false)
  else Stopped 1 "Unknown option".

(** The option loop over the tokens after [argv[0]]. *)
Fixpoint parse_args (args : list string) (s : options) : parse_result options :=
  match args with
  | [] => Parsed s
  | tok :: rest =>
      match parse_one tok (hd_error rest) s with
      | Parsed (s', true) =>
          match rest with
          | [] => Parsed s'      (* not reached: nothing to consume *)
          | _ :: rest' => parse_args rest' s'
          end
      | Parsed (s', false) => parse_args rest s'
      | Stopped c m => Stopped c m
      | Thrown => Thrown
      | Undef => Undef
      end
  end.

(** From the start of [main] to the two mandatory-option checks:
    [argc == 1] prints the usage and exits with 0. *)
Definition main_options (args : list string) : parse_result options :=
  match args with
  | [] => Stopped 0 "usage"
  | _ =>
      bindp (parse_args args initial_options) (fun s =>
      match ccam s with
      | None => Stopped 1 "Option -c is mandatory"
      | Some _ =>
          match vcam s with
          | None => Stopped 1 "Option -v is mandatory"
          | Some _ => Parsed s
          end
      end)
  end.

End OptionLoop.

(** ["permit unprefixed device names"]:
    [if (s.rfind("/dev/", 0) != 0) s = "/dev/" + s;]. *)
Definition device_path (name : string) : string :=
  if prefix "/dev/" name then name else ("/dev/" ++ name)%string.

End Cli.

(** ** The main loop: which frame goes where *)

Module MainLoop.

Import Orchestrator.

(** [cv::Mat raw[2]; int idx]. *)
Record buffers : Type := mkBuffers {
  raw0 : Mat;
  raw1 : Mat;
  idx : Z
}.

Definition raw_at (i : Z) (b : buffers) : Mat :=
  if i =? 0 then raw0 b else raw1 b.

Definition set_raw (i : Z) (m : Mat) (b : buffers) : buffers :=
  if i =? 0 then mkBuffers m (raw1 b) (idx b) else mkBuffers (raw0 b) m (idx b).

Definition set_idx (i : Z) (b : buffers) : buffers :=
  mkBuffers (raw0 b) (raw1 b) i.

(** [(idx + 1) & 1]. *)
Definition other (i : Z) : Z := Z.land (i + 1) 1.

(** What one turn of the loop did with the frame captured: dropped it as
    empty, skipped it, submitted a frame to the mask engine and put a
    frame through compositing and output, or submitted a frame and then
    ended the program before any output was complete. *)
Inductive event : Type :=
  | ev_empty
  | ev_skipped
  | ev_frame (submitted displayed : Mat)
  | ev_fatal (submitted : Mat).

Record loop_state : Type := mkLoopState {
  bufs : buffers;
  skip : Z
}.

Section Loop.

(** [--video-delayed], and the frame-rate divisor. *)
Variable sendPrevious : bool.
Variable divisor : Z.

(** The crop to the region of [bs_calc_cropping] and the [cv::resize] to
    the virtual geometry, both outside this repository's sources. *)
Variable prepare : Mat -> Mat.

(** The rest of turn [n], after [ai.set_input_frame]: what it leaves in
    [raw[idx]] from the frame it displays (the blend under the mask then
    available, the flips and the packing) once the frame is written, or
    [None] when it ends the program instead, by
    [throw "Failed to read background frame"], by a failed assertion of
    [alpha_blend] or by [exit(1)] in the write loop. *)
Variable render : nat -> Mat -> option Mat.

(** Turn [n] of [while (true)], from [cap.retrieve(raw[idx])] to the end
    of the write loop, on the frame [captured]: what the turn did, and
    the state for the next turn if there is one. *)
Definition iteration (n : nat) (captured : Mat) (st : loop_state)
  : event * option loop_state :=
  let b := set_raw (idx (bufs st)) captured (bufs st) in
  if (rows (raw_at (idx b) b) =? 0) || (cols (raw_at (idx b) b) =? 0) then
    (ev_empty, Some (mkLoopState b (skip st)))
  else if skip st <? divisor then
    (ev_skipped, Some (mkLoopState b (int_cast (skip st + 1))))
  else
    let b := set_raw (idx b) (prepare (raw_at (idx b) b)) b in
    let b :=
      if sendPrevious then
        if cols (raw_at (other (idx b)) b) =? 0 then
          set_raw (other (idx b)) (raw_at (idx b) b) b
        else b
      else b in
    let submitted := raw_at (idx b) b in
    let b := if sendPrevious then set_idx (other (idx b)) b else b in
    let displayed := raw_at (idx b) b in
    match render n displayed with
    | Some written =>
        let b := set_raw (idx b) written b in
        (ev_frame submitted displayed, Some (mkLoopState b 1))
    | None => (ev_fatal submitted, None)
    end.

(** The turns of the loop over the frames captured, from turn [n], up to
    the turn that ends the program if there is one. *)
Fixpoint turns (n : nat) (captured : list Mat) (st : loop_state) : list event :=
  match captured with
  | [] => []
  | frame :: rest =>
      match iteration n frame st with
      | (e, Some st') => e :: turns (S n) rest st'
      | (e, None) => [e]
      end
  end.

(** [cv::Mat raw[2]; int idx = 0; ... int skip = fpsDivisor;]. *)
Definition initial_state : loop_state :=
  mkLoopState (mkBuffers Mat_empty Mat_empty 0) divisor.

Definition run (captured : list Mat) : list event :=
  turns 0 captured initial_state.

End Loop.

Definition tick_of (e : event) : tick :=
  match e with
  | ev_empty => tick_empty
  | ev_skipped => tick_skipped
  | ev_frame _ _ => tick_processed
  | ev_fatal _ => tick_processed
  end.

(** The frames submitted to the engine, those displayed, and those whose
    turn ended the program, in order. *)
Fixpoint submitted_frames (l : list event) : list Mat :=
  match l with
  | [] => []
  | ev_frame s _ :: rest => s :: submitted_frames rest
  | ev_fatal s :: rest => s :: submitted_frames rest
  | _ :: rest => submitted_frames rest
  end.

Fixpoint displayed_frames (l : list event) : list Mat :=
  match l with
  | [] => []
  | ev_frame _ d :: rest => d :: displayed_frames rest
  | _ :: rest => displayed_frames rest
  end.

Fixpoint fatal_frames (l : list event) : list Mat :=
  match l with
  | [] => []
  | ev_fatal s :: rest => s :: fatal_frames rest
  | _ :: rest => fatal_frames rest
  end.

(** The captured frames that the throttle lets through. *)
Fixpoint let_through (ticks : list tick) (captured : list Mat) : list Mat :=
  match ticks, captured with
  | tick_processed :: ticks', frame :: rest => frame :: let_through ticks' rest
  | _ :: ticks', _ :: rest => let_through ticks' rest
  | _, _ => []
  end.

End MainLoop.

(** ** Executions of the mask engine *)

Module EngineRuns.

Import MaskEngine.

(** [sub] is [l] with some elements left out. *)
Inductive subsequence {A : Type} : list A -> list A -> Prop :=
  | sub_nil : subsequence [] []
  | sub_drop (x : A) (sub l : list A) :
      subsequence sub l -> subsequence sub (x :: l)
  | sub_keep (x : A) (sub l : list A) :
      subsequence sub l -> subsequence (x :: sub) (x :: l).

Section Executions.

Variable bs_maskgen_process : Mat -> Mat -> option Mat.

(** The states an engine goes through between its construction and the
    call of its destructor, with the frames submitted so far: any
    interleaving of steps of the worker with calls of [set_input_frame]
    and [get_output_mask] by the main thread. *)
Inductive running : list Mat -> system -> Prop :=
  | at_construction : running [] construct
  | worker_moves (subs : list Mat) (s s' : system) :
      running subs s ->
      worker_step bs_maskgen_process s = Some s' ->
      running subs s'
  | frame_submitted (subs : list Mat) (s s' : system) (frame : Mat) :
      running subs s ->
      set_input_frame frame s = Some s' ->
      running (subs ++ [frame]) s'
  | mask_fetched (subs : list Mat) (s s' : system) (out result : Mat) :
      running subs s ->
      get_output_mask out s = Some (s', result) ->
      running subs s'.

End Executions.

(** The bookkeeping of the input mailbox in a state reached after the
    submissions [subs]: these split into the submissions up to the one
    the worker took last, [taken], and the ones made since, [pending].
    A frame is flagged exactly when something is pending, and the next
    slot then holds the latest; what the worker has processed was picked
    in order from [taken] and ends with its last element, which is still
    under inference while the worker is at [bs_maskgen_process]. *)
Definition accounted (subs : list Mat) (s : system) : Prop :=
  exists taken pending : list Mat,
    subs = taken ++ pending /\
    (new_frame (engine s) = true <-> pending <> []) /\
    (pending <> [] ->
     frame_at (frame_next (engine s)) (engine s) = last pending Mat_empty) /\
    match pc s with
    | at_process =>
        taken <> [] /\
        frame_at (frame_current (engine s)) (engine s) = last taken Mat_empty /\
        subsequence (processed s) (removelast taken)
    | _ =>
        subsequence (processed s) taken /\
        (taken <> [] ->
         processed s <> [] /\
         last (processed s) Mat_empty = last taken Mat_empty)
    end.

(** What every state of a running engine satisfies. *)
Record consistent (subs : list Mat) (s : system) : Prop := {
  frames_apart : frame_current (engine s) <> frame_next (engine s);
  masks_apart : mask_current (engine s) <> mask_out (engine s);
  still_running : state (engine s) = RUNNING;
  not_returned : pc s <> returned;
  call_flag : pc s = at_wait_call -> new_frame (engine s) = false;
  wait_flag : pc s = in_wait -> new_frame (engine s) = notified s;
  swap_flag : pc s = at_frame_swap -> new_frame (engine s) = true;
  mailbox : accounted subs s
}.

End EngineRuns.

(** * Theorems *)

(** ** Integer facts *)

Lemma uint8_t_id (x : Z) : is_byte x -> uint8_t x = x.
Proof. unfold is_byte, uint8_t; intros; apply Z.mod_small; lia. Qed.

Lemma int_cast_id (x : Z) : in_int x -> int_cast x = x.
Proof.
  unfold in_int, int_cast, INT_MIN, INT_MAX; intros.
  rewrite Z.mod_small; lia.
Qed.

(** ** Alpha blending *)

Section AlphaBlend.

Import Compositor.

(** A weighted byte never leaves the byte range, so the cast back to
    [uint8_t] loses nothing. *)
Lemma blend_byte_exact (a b aw : Z) :
  is_byte a -> is_byte b -> is_byte aw ->
  blend_byte a b aw (255 - aw) = Z.quot (a * aw + b * (255 - aw)) 255.
Proof.
  unfold is_byte; intros Ha Hb Hw; unfold blend_byte.
  apply uint8_t_id; unfold is_byte.
  assert (0 <= a * aw + b * (255 - aw) <= 255 * 255) by nia.
  rewrite Z.quot_div_nonneg by lia.
  split; [apply Z.div_pos; lia | ].
  apply Z.div_lt_upper_bound; lia.
Qed.

Lemma blend_byte_opaque (a b : Z) : is_byte a -> blend_byte a b 255 (255 - 255) = a.
Proof.
  intros Ha; unfold blend_byte.
  replace (a * 255 + b * (255 - 255)) with (a * 255) by lia.
  rewrite Z.quot_mul by lia. now apply uint8_t_id.
Qed.

Lemma blend_byte_clear (a b : Z) : is_byte b -> blend_byte a b 0 (255 - 0) = b.
Proof.
  intros Hb; unfold blend_byte.
  replace (a * 0 + b * (255 - 0)) with (b * 255) by lia.
  rewrite Z.quot_mul by lia. now apply uint8_t_id.
Qed.

Lemma blend_loop_length (n : nat) :
  forall aptr bptr mptr, length (blend_loop n aptr bptr mptr) = (3 * n)%nat.
Proof.
  induction n as [|n IH]; intros; cbn [blend_loop length]; [reflexivity|].
  rewrite IH; lia.
Qed.

(** The byte of channel [c] of pixel [pix], as the loop stores it. *)
Lemma blend_loop_nth (n : nat) :
  forall aptr bptr mptr pix c, (pix < n)%nat -> (c < 3)%nat ->
    nth (3 * pix + c) (blend_loop n aptr bptr mptr) 0 =
    blend_byte (nth (3 * pix + c) aptr 0) (nth (3 * pix + c) bptr 0)
      (nth pix mptr 0) (255 - nth pix mptr 0).
Proof.
  induction n as [|n IH]; intros aptr bptr mptr pix c Hp Hc; [lia|].
  cbn [blend_loop].
  destruct pix as [|pix].
  - destruct c as [|[|[|c]]]; try lia; reflexivity.
  - replace (3 * S pix + c)%nat with (S (S (S (3 * pix + c)))) by lia.
    cbn [nth]. rewrite IH by lia.
    rewrite !nth_skipn. reflexivity.
Qed.

Lemma blend_loop_opaque (n : nat) :
  forall aptr bptr mptr,
    length aptr = (3 * n)%nat -> length mptr = n ->
    Forall is_byte aptr -> Forall (eq 255) mptr ->
    blend_loop n aptr bptr mptr = aptr.
Proof.
  induction n as [|n IH]; intros aptr bptr mptr La Lm Ba Fm.
  - destruct aptr; [reflexivity | discriminate].
  - destruct aptr as [|a0 [|a1 [|a2 aptr]]]; cbn [length] in La; try lia.
    destruct mptr as [|m mptr]; [discriminate|].
    inversion Fm as [|? ? Hm Fm']; subst.
    inversion Ba as [|? ? B0 Ba0]; subst.
    inversion Ba0 as [|? ? B1 Ba1]; subst.
    inversion Ba1 as [|? ? B2 Ba2]; subst.
    cbn [blend_loop nth skipn].
    rewrite !blend_byte_opaque by assumption.
    rewrite IH; auto; cbn [length] in *; lia.
Qed.

Lemma blend_loop_clear (n : nat) :
  forall aptr bptr mptr,
    length bptr = (3 * n)%nat -> length mptr = n ->
    Forall is_byte bptr -> Forall (eq 0) mptr ->
    blend_loop n aptr bptr mptr = bptr.
Proof.
  induction n as [|n IH]; intros aptr bptr mptr Lb Lm Bb Fm.
  - destruct bptr; [reflexivity | discriminate].
  - destruct bptr as [|b0 [|b1 [|b2 bptr]]]; cbn [length] in Lb; try lia.
    destruct mptr as [|m mptr]; [discriminate|].
    inversion Fm as [|? ? Hm Fm']; subst.
    inversion Bb as [|? ? B0 Bb0]; subst.
    inversion Bb0 as [|? ? B1 Bb1]; subst.
    inversion Bb1 as [|? ? B2 Bb2]; subst.
    cbn [blend_loop nth skipn].
    rewrite !blend_byte_clear by assumption.
    rewrite IH; auto; cbn [length] in *; lia.
Qed.

Lemma blend_inputs_asserts (srca srcb mask : Mat) :
  blend_inputs srca srcb mask -> blend_asserts srca srcb mask = true.
Proof.
  intros [_ _ _ Hr Hc Hrm Hcm Ta Tb Tm]; unfold blend_asserts.
  rewrite Hr, Hc, Hrm, Hcm, Ta, Tb, Tm, <- Hr, <- Hc, !Z.eqb_refl.
  reflexivity.
Qed.

Lemma wf_nth_byte (m : Mat) (i : nat) : Mat_wf m -> is_byte (nth i (data m) 0).
Proof.
  intros W. destruct (Nat.lt_ge_cases i (length (data m))) as [Hi|Hi].
  - pose proof (wf_bytes _ W) as F. rewrite Forall_forall in F.
    apply F, nth_In, Hi.
  - rewrite nth_overflow by exact Hi. unfold is_byte; lia.
Qed.

Lemma wf_pixels (m : Mat) :
  Mat_wf m -> length (data m) = Z.to_nat (rows m * cols m * channels (type m)).
Proof. intros W. rewrite <- (wf_size _ W). now rewrite Nat2Z.id. Qed.

(** An [int] product of two non-negative numbers is never more than the
    product. *)
Lemma int_cast_le (x : Z) : 0 <= x -> int_cast x <= x.
Proof.
  intros H. unfold int_cast.
  pose proof (Z.mod_le (x + 2147483648) 4294967296 ltac:(lia) ltac:(lia)). lia.
Qed.

(** Where the pixel count fits an [int], the loop fills the whole
    output and none of the initial zeros is left. *)
Lemma alpha_blend_fills (srca srcb mask : Mat) :
  0 <= rows srca * cols srca <= INT_MAX -> type srca = CV_8UC3 ->
  blend_asserts srca srcb mask = true ->
  alpha_blend srca srcb mask =
    Some (mkMat (rows srca) (cols srca) CV_8UC3
            (blend_loop (Z.to_nat (rows srca * cols srca))
               (data srca) (data srcb) (data mask))).
Proof.
  intros Hn T A. unfold alpha_blend. rewrite A, T. cbn [channels].
  rewrite int_cast_id by (unfold in_int, INT_MIN, INT_MAX in *; lia).
  rewrite skipn_all2, app_nil_r; [reflexivity|].
  rewrite repeat_length, blend_loop_length. lia.
Qed.

(** Where the product does not fit and the [int] is zero or negative,
    the loop does not run and the output is left as allocated, all
    zeros. *)
Lemma alpha_blend_leaves_zeros (srca srcb mask : Mat) :
  blend_asserts srca srcb mask = true ->
  int_cast (rows srca * cols srca) <= 0 ->
  alpha_blend srca srcb mask =
    Some (mkMat (rows srca) (cols srca) (type srca)
            (repeat 0 (Z.to_nat (rows srca * cols srca * channels (type srca))))).
Proof.
  intros A H. unfold alpha_blend. rewrite A.
  replace (Z.to_nat (int_cast (rows srca * cols srca))) with 0%nat by lia.
  reflexivity.
Qed.

End AlphaBlend.

Section AlphaBlendMain.

Import Compositor.

(** C1 (as amended).  For images whose pixel count fits an [int],
    [alpha_blend(srca, srcb, mask)] stores, for every pixel and channel,
    [(srca * mask + srcb * (255 - mask)) / 255] with truncating division.
    The main loop calls it with the background as [srca] and the captured
    frame as [srcb]; so a mask that is 255 everywhere returns the
    background exactly, and a mask that is 0 everywhere returns the
    captured (foreground) frame exactly. *)
Theorem alpha_blend_weights_background_by_mask (bg fg mask : Mat) :
  blend_inputs bg fg mask ->
  rows bg * cols bg <= INT_MAX ->
  exists out,
    main_blend bg fg mask = Some out /\
    rows out = rows bg /\ cols out = cols bg /\ type out = CV_8UC3 /\
    (forall pix c : nat,
        Z.of_nat pix < rows bg * cols bg -> (c < 3)%nat ->
        nth (3 * pix + c) (data out) 0 =
        Z.quot (nth (3 * pix + c) (data bg) 0 * nth pix (data mask) 0 +
                nth (3 * pix + c) (data fg) 0 * (255 - nth pix (data mask) 0)) 255) /\
    (Forall (eq 255) (data mask) -> out = bg) /\
    (Forall (eq 0) (data mask) -> out = fg).
Proof.
  intros I Hmax.
  pose proof (blend_inputs_asserts _ _ _ I) as HA.
  destruct I as [Wa Wb Wm Hr Hc Hrm Hcm Ta Tb Tm].
  pose proof (wf_rows _ Wa) as R0. pose proof (wf_cols _ Wa) as C0.
  assert (N0 : 0 <= rows bg * cols bg) by nia.
  unfold main_blend. rewrite (alpha_blend_fills bg fg mask) by (auto; lia).
  eexists; split; [reflexivity|]. cbn [rows cols type data].
  pose proof (wf_pixels _ Wa) as La. pose proof (wf_pixels _ Wb) as Lb.
  pose proof (wf_pixels _ Wm) as Lm.
  rewrite Ta in La. rewrite Tb, <- Hr, <- Hc in Lb. rewrite Tm, Hrm, Hcm in Lm.
  cbn [channels] in La, Lb, Lm.
  replace (Z.to_nat (rows bg * cols bg * 3))
    with (3 * Z.to_nat (rows bg * cols bg))%nat in La, Lb by lia.
  rewrite Z.mul_1_r in Lm.
  repeat split; try assumption.
  - intros pix c Hp Hc3.
    rewrite blend_loop_nth by lia.
    apply blend_byte_exact; apply wf_nth_byte; assumption.
  - intros F. destruct bg as [r c t d]; cbn [rows cols type data] in *.
    subst. f_equal. apply blend_loop_opaque; auto. exact (wf_bytes _ Wa).
  - intros F. destruct fg as [r c t d]; cbn [rows cols type data] in *.
    subst. f_equal. apply blend_loop_clear; auto. exact (wf_bytes _ Wb).
Qed.

End AlphaBlendMain.

Section AlphaBlendExamples.

Import Compositor.

Ltac solve_mat_wf :=
  constructor; cbn [rows cols type data channels length];
  [ lia | lia | reflexivity | repeat constructor; unfold is_byte; lia ].

Ltac solve_blend_inputs :=
  constructor; cbn [rows cols type data]; try reflexivity; solve_mat_wf.

Lemma alpha_blend_weights_background_by_mask_witness :
  blend_inputs (mkMat 1 1 CV_8UC3 [0; 255; 0]) (mkMat 1 1 CV_8UC3 [10; 20; 30])
    (mkMat 1 1 CV_8UC1 [128]) /\
  exists out,
    main_blend (mkMat 1 1 CV_8UC3 [0; 255; 0]) (mkMat 1 1 CV_8UC3 [10; 20; 30])
      (mkMat 1 1 CV_8UC1 [128]) = Some out /\
    rows out = 1 /\ cols out = 1 /\ type out = CV_8UC3.
Proof.
  assert (I : blend_inputs (mkMat 1 1 CV_8UC3 [0; 255; 0])
                (mkMat 1 1 CV_8UC3 [10; 20; 30]) (mkMat 1 1 CV_8UC1 [128]))
    by solve_blend_inputs.
  assert (H : rows (mkMat 1 1 CV_8UC3 [0; 255; 0])
              * cols (mkMat 1 1 CV_8UC3 [0; 255; 0]) <= INT_MAX)
    by (cbn [rows cols]; unfold INT_MAX; lia).
  split; [exact I|].
  destruct (alpha_blend_weights_background_by_mask _ _ _ I H)
    as (out & E & R & C & T & _).
  exists out. repeat split; assumption.
Defined.

(** C1 as stated fails: over a green background, a frame blended under a
    mask that is 255 everywhere comes out as the background, not as the
    frame; under a mask that is 0 everywhere it comes out as the frame,
    not as the background. *)
Lemma alpha_blend_full_mask_keeps_background_not_frame :
  let bg := mkMat 1 1 CV_8UC3 [0; 255; 0] in
  let F := mkMat 1 1 CV_8UC3 [10; 20; 30] in
  let all255 := mkMat 1 1 CV_8UC1 [255] in
  let all0 := mkMat 1 1 CV_8UC1 [0] in
  blend_inputs bg F all255 /\ blend_inputs bg F all0 /\
  Forall (eq 255) (data all255) /\ Forall (eq 0) (data all0) /\
  main_blend bg F all255 = Some bg /\ main_blend bg F all255 <> Some F /\
  main_blend bg F all0 = Some F /\ main_blend bg F all0 <> Some bg.
Proof.
  cbv zeta.
  split; [solve_blend_inputs|]. split; [solve_blend_inputs|].
  split; [repeat constructor|]. split; [repeat constructor|].
  split; [reflexivity|]. split; [vm_compute; discriminate|].
  split; [reflexivity|]. vm_compute; discriminate.
Qed.

End AlphaBlendExamples.

(** ** Packing to YUYV *)

Section PackChroma.

Import Compositor.

Lemma split3_planes (n : nat) :
  forall bytes, length bytes = (3 * n)%nat ->
    let '(p0, p1, p2) := split3 bytes in
    length p0 = n /\ length p1 = n /\ length p2 = n /\
    forall j, (j < n)%nat ->
      nth j p0 0 = nth (3 * j) bytes 0 /\
      nth j p1 0 = nth (3 * j + 1) bytes 0 /\
      nth j p2 0 = nth (3 * j + 2) bytes 0.
Proof.
  induction n as [|n IH]; intros bytes L.
  - destruct bytes; [|discriminate]. cbn. repeat split; lia.
  - destruct bytes as [|c0 [|c1 [|c2 rest]]]; cbn [length] in L; try lia.
    cbn [split3]. specialize (IH rest ltac:(lia)).
    destruct (split3 rest) as [[p0 p1] p2].
    destruct IH as (L0 & L1 & L2 & IH).
    cbn [length]. repeat split; try lia.
    all: destruct j as [|j]; [reflexivity|].
    all: replace (3 * S j)%nat with (S (S (S (3 * j)))) by lia.
    all: cbn [nth Nat.add]; apply IH; lia.
Qed.

(** Loads and stores inside a buffer. *)
Lemma load_inside (buf : list Z) (i : nat) :
  (i < length buf)%nat -> load buf (Z.of_nat i) = Some (nth i buf 0).
Proof.
  intros H. unfold load.
  replace (0 <=? Z.of_nat i) with true by (symmetry; apply Z.leb_le; lia).
  rewrite Nat2Z.id. apply nth_error_nth'. exact H.
Qed.

Lemma load_outside (buf : list Z) (i : nat) :
  (length buf <= i)%nat -> load buf (Z.of_nat i) = None.
Proof.
  intros H. unfold load.
  replace (0 <=? Z.of_nat i) with true by (symmetry; apply Z.leb_le; lia).
  rewrite Nat2Z.id. apply nth_error_None. exact H.
Qed.

Lemma store_inside (buf : list Z) (i : nat) (x : Z) :
  (i < length buf)%nat ->
  exists o, store buf (Z.of_nat i) x = Some o /\
    length o = length buf /\
    nth i o 0 = x /\
    forall j, j <> i -> nth j o 0 = nth j buf 0.
Proof.
  intros H. unfold store.
  replace (0 <=? Z.of_nat i) with true by (symmetry; apply Z.leb_le; lia).
  replace (Z.of_nat i <? Z.of_nat (length buf)) with true
    by (symmetry; apply Z.ltb_lt; lia).
  cbn [andb]. rewrite Nat2Z.id. eexists. split; [reflexivity|].
  assert (Lf : length (firstn i buf) = i) by (rewrite length_firstn; lia).
  split; [|split].
  - rewrite length_app. cbn [length]. rewrite Lf, length_skipn. lia.
  - rewrite app_nth2 by lia. rewrite Lf, Nat.sub_diag. reflexivity.
  - intros j Hj. destruct (Nat.lt_ge_cases j i) as [Hlt|Hge].
    + rewrite app_nth1 by lia. rewrite nth_firstn.
      replace (j <? i)%nat with true by (symmetry; apply Nat.ltb_lt; lia).
      reflexivity.
    + rewrite app_nth2 by lia. rewrite Lf.
      destruct (j - i)%nat as [|d] eqn:D; [lia|].
      cbn [nth]. rewrite nth_skipn. f_equal. lia.
Qed.

Lemma unsigned_int_id (x : Z) : 0 <= x < 4294967296 -> unsigned_int x = x.
Proof. intros H. unfold unsigned_int. apply Z.mod_small. exact H. Qed.

(** [n] turns of the loop from pair [k0], in an image of at most 2^31
    pixels that still has [n] whole pairs from there: the loop goes on
    from pair [k0 + n], having stored the four bytes of each of the [n]
    pairs and left the bytes before them alone. *)
Lemma yuyv_loop_advance (total : nat) (y u v : list Z) (n : nat) :
  forall (k0 fuel : nat) (out : list Z),
    (2 * (k0 + n) <= total)%nat -> Z.of_nat total <= 2147483648 ->
    length y = total -> length u = total -> length v = total ->
    length out = (2 * total)%nat ->
    exists o,
      yuyv_loop (n + fuel) (Z.of_nat total) y u v (Z.of_nat (2 * k0)) out
        = yuyv_loop fuel (Z.of_nat total) y u v (Z.of_nat (2 * (k0 + n))) o /\
      length o = length out /\
      (forall j, (j < 4 * k0)%nat -> nth j o 0 = nth j out 0) /\
      (forall k, (k0 <= k < k0 + n)%nat ->
         nth (4 * k) o 0 = nth (2 * k) y 0 /\
         nth (4 * k + 1) o 0 =
           uint8_t (Z.quot (nth (2 * k) v 0 + nth (2 * k + 1) v 0) 2) /\
         nth (4 * k + 2) o 0 = nth (2 * k + 1) y 0 /\
         nth (4 * k + 3) o 0 =
           uint8_t (Z.quot (nth (2 * k) u 0 + nth (2 * k + 1) u 0) 2)).
Proof.
  induction n as [|n IH]; intros k0 fuel out Hn Hmax Ly Lu Lv Lo.
  - rewrite Nat.add_0_r. cbn [Nat.add].
    exists out. repeat split; auto. all: lia.
  - cbn [Nat.add yuyv_loop].
    replace (Z.of_nat (2 * k0) <? Z.of_nat total) with true
      by (symmetry; apply Z.ltb_lt; lia).
    rewrite (unsigned_int_id (Z.of_nat (2 * k0) + 1)) by lia.
    rewrite (unsigned_int_id (Z.of_nat (2 * k0) + 0)) by lia.
    rewrite (unsigned_int_id (2 * Z.of_nat (2 * k0) + 0)) by lia.
    rewrite (unsigned_int_id (2 * Z.of_nat (2 * k0) + 1)) by lia.
    rewrite (unsigned_int_id (2 * Z.of_nat (2 * k0) + 2)) by lia.
    rewrite (unsigned_int_id (2 * Z.of_nat (2 * k0) + 3)) by lia.
    rewrite (unsigned_int_id (Z.of_nat (2 * k0) + 2)) by lia.
    replace (Z.of_nat (2 * k0) + 1) with (Z.of_nat (2 * k0 + 1)) by lia.
    replace (Z.of_nat (2 * k0) + 0) with (Z.of_nat (2 * k0)) by lia.
    replace (2 * Z.of_nat (2 * k0) + 0) with (Z.of_nat (4 * k0)) by lia.
    replace (2 * Z.of_nat (2 * k0) + 1) with (Z.of_nat (4 * k0 + 1)) by lia.
    replace (2 * Z.of_nat (2 * k0) + 2) with (Z.of_nat (4 * k0 + 2)) by lia.
    replace (2 * Z.of_nat (2 * k0) + 3) with (Z.of_nat (4 * k0 + 3)) by lia.
    replace (Z.of_nat (2 * k0) + 2) with (Z.of_nat (2 * (S k0))) by lia.
    rewrite !load_inside by lia.
    destruct (store_inside out (4 * k0) (nth (2 * k0) y 0) ltac:(lia))
      as (o1 & -> & L1 & S1 & K1).
    destruct (store_inside o1 (4 * k0 + 1)
                (uint8_t (Z.quot (nth (2 * k0) v 0 + nth (2 * k0 + 1) v 0) 2))
                ltac:(lia)) as (o2 & -> & L2 & S2 & K2).
    destruct (store_inside o2 (4 * k0 + 2) (nth (2 * k0 + 1) y 0) ltac:(lia))
      as (o3 & -> & L3 & S3 & K3).
    destruct (store_inside o3 (4 * k0 + 3)
                (uint8_t (Z.quot (nth (2 * k0) u 0 + nth (2 * k0 + 1) u 0) 2))
                ltac:(lia)) as (o4 & -> & L4 & S4 & K4).
    destruct (IH (S k0) fuel o4) as (o & E & Lo' & Keep & Pairs); try lia.
    exists o. split.
    { rewrite E. replace (S k0 + n)%nat with (k0 + S n)%nat by lia. reflexivity. }
    split; [lia|]. split.
    + intros j Hj. rewrite Keep by lia.
      rewrite K4, K3, K2, K1 by lia. reflexivity.
    + intros k Hk. destruct (Nat.eq_dec k k0) as [->|Hne].
      * rewrite !Keep by lia.
        rewrite (K4 (4 * k0)%nat), (K3 (4 * k0)%nat), (K2 (4 * k0)%nat) by lia.
        rewrite (K4 (4 * k0 + 1)%nat), (K3 (4 * k0 + 1)%nat) by lia.
        rewrite (K4 (4 * k0 + 2)%nat) by lia.
        rewrite S1, S2, S3, S4. repeat split; reflexivity.
      * apply Pairs. lia.
Qed.

(** With 2^32 pixels or more the counter wraps to 0 before it reaches
    the bound: whatever the fuel, the loop is still running. *)
Lemma yuyv_loop_wraps (total : nat) (y u v : list Z) (fuel : nat) :
  forall (i : Z) (out : list Z),
    4294967296 <= Z.of_nat total -> 0 <= i < 4294967296 ->
    length y = total -> length u = total -> length v = total ->
    length out = (2 * total)%nat ->
    yuyv_loop fuel (Z.of_nat total) y u v i out = Unfinished.
Proof.
  assert (B : forall x, 0 <= unsigned_int x < 4294967296)
    by (intros x; unfold unsigned_int; apply Z.mod_pos_bound; lia).
  assert (Ld : forall (buf : list Z) x, length buf = total ->
            4294967296 <= Z.of_nat total -> 0 <= x < 4294967296 ->
            exists b, load buf x = Some b).
  { intros buf x Lb Ht Hx.
    rewrite <- (Z2Nat.id x) by lia.
    rewrite load_inside by lia. eexists; reflexivity. }
  assert (St : forall (buf : list Z) x b, length buf = (2 * total)%nat ->
            4294967296 <= Z.of_nat total -> 0 <= x < 4294967296 ->
            exists o, store buf x b = Some o /\
                      length o = (2 * total)%nat).
  { intros buf x b Lb Ht Hx.
    rewrite <- (Z2Nat.id x) by lia.
    destruct (store_inside buf (Z.to_nat x) b ltac:(lia))
      as (o & E & Lo & _).
    exists o. split; [exact E | lia]. }
  induction fuel as [|fuel IH]; intros i out Ht Hi Ly Lu Lv Lo;
    cbn [yuyv_loop]; [reflexivity|].
  replace (i <? Z.of_nat total) with true by (symmetry; apply Z.ltb_lt; lia).
  destruct (Ld u i Lu Ht Hi) as (u0 & ->).
  destruct (Ld u _ Lu Ht (B (i + 1))) as (u1 & ->).
  destruct (Ld v i Lv Ht Hi) as (v0 & ->).
  destruct (Ld v _ Lv Ht (B (i + 1))) as (v1 & ->).
  destruct (Ld y _ Ly Ht (B (i + 0))) as (y0 & ->).
  destruct (St out _ y0 Lo Ht (B (2 * i + 0))) as (o1 & -> & L1).
  destruct (St o1 _ (uint8_t (Z.quot (v0 + v1) 2)) L1 Ht (B (2 * i + 1)))
    as (o2 & -> & L2).
  destruct (Ld y _ Ly Ht (B (i + 1))) as (y1 & ->).
  destruct (St o2 _ y1 L2 Ht (B (2 * i + 2))) as (o3 & -> & L3).
  destruct (St o3 _ (uint8_t (Z.quot (u0 + u1) 2)) L3 Ht (B (2 * i + 3)))
    as (o4 & -> & L4).
  apply IH; auto.
Qed.

(** Halving the sum of two bytes gives a byte: the cast is exact, and
    truncation is rounding down. *)
Lemma halved_sum_exact (a b : Z) :
  is_byte a -> is_byte b -> uint8_t (Z.quot (a + b) 2) = (a + b) / 2.
Proof.
  unfold is_byte; intros Ha Hb.
  rewrite Z.quot_div_nonneg by lia.
  apply uint8_t_id; unfold is_byte.
  split; [apply Z.div_pos; lia | apply Z.div_lt_upper_bound; lia].
Qed.

End PackChroma.

Section PackChromaCore.

Import Compositor.



Variable cvtColor_RGB2YUV : Mat -> Mat.

(** What [convert_rgb_to_yuyv] returns for a converted image with an
    even number of pixels, at most [INT_MAX] of them: the geometry, the
    size, and the four bytes stored for each pair of pixels. *)
Lemma convert_rgb_to_yuyv_returns (input : Mat) (fuel : nat) :
  let tmp := cvtColor_RGB2YUV input in
  Mat_wf tmp -> type tmp = CV_8UC3 ->
  Z.even (total tmp) = true -> total tmp <= INT_MAX ->
  (Z.to_nat (total tmp / 2) < fuel)%nat ->
  exists out,
    convert_rgb_to_yuyv cvtColor_RGB2YUV fuel input = Returned out /\
    rows out = rows tmp /\ cols out = cols tmp /\ type out = CV_8UC2 /\
    Z.of_nat (length (data out)) = 2 * total tmp /\
    (forall k : nat, 2 * Z.of_nat k + 1 < total tmp ->
       nth (4 * k) (data out) 0 = nth (3 * (2 * k)) (data tmp) 0 /\
       nth (4 * k + 1) (data out) 0 =
         (nth (3 * (2 * k) + 2) (data tmp) 0
          + nth (3 * (2 * k + 1) + 2) (data tmp) 0) / 2 /\
       nth (4 * k + 2) (data out) 0 = nth (3 * (2 * k + 1)) (data tmp) 0 /\
       nth (4 * k + 3) (data out) 0 =
         (nth (3 * (2 * k) + 1) (data tmp) 0
          + nth (3 * (2 * k + 1) + 1) (data tmp) 0) / 2).
Proof.
  intros tmp W T Ev Hmax Hfuel.
  pose proof (wf_rows _ W) as R0. pose proof (wf_cols _ W) as C0.
  assert (N0 : 0 <= total tmp) by (unfold total; nia).
  apply Z.even_spec in Ev. destruct Ev as [half Eh].
  assert (Hh : 0 <= half) by lia.
  assert (En : total tmp = Z.of_nat (2 * (0 + Z.to_nat half))) by lia.
  pose proof (wf_pixels _ W) as L. rewrite T in L. cbn [channels] in L.
  fold (total tmp) in L.
  assert (Ln : length (data tmp) = (3 * (2 * (0 + Z.to_nat half)))%nat) by lia.
  pose proof (split3_planes _ _ Ln) as P.
  unfold convert_rgb_to_yuyv. fold tmp.
  destruct (split3 (data tmp)) as [[ydata udata] vdata].
  destruct P as (Ly & Lu & Lv & P).
  assert (Hf : (Z.to_nat half < fuel)%nat).
  { replace (total tmp / 2) with half in Hfuel; [exact Hfuel|].
    rewrite Eh, Z.mul_comm, Z.div_mul by lia. reflexivity. }
  destruct fuel as [|fuel]; [lia|].
  replace (S fuel) with (Z.to_nat half + S (fuel - Z.to_nat half))%nat by lia.
  destruct (yuyv_loop_advance (2 * (0 + Z.to_nat half)) ydata udata vdata
              (Z.to_nat half) 0 (S (fuel - Z.to_nat half))
              (repeat 0 (Z.to_nat (total tmp * 2))))
    as (o & E & Lo & _ & Pairs); try assumption.
  - lia.
  - unfold INT_MAX in Hmax. lia.
  - rewrite repeat_length. lia.
  - change (Z.of_nat (2 * 0)) with 0 in E. rewrite <- En in E. rewrite E.
    cbn [yuyv_loop]. rewrite Z.ltb_irrefl.
    eexists. split; [reflexivity|]. cbn [rows cols type data].
    split; [reflexivity|]. split; [reflexivity|]. split; [reflexivity|].
    split; [rewrite Lo, repeat_length; lia|].
    intros k Hk.
    destruct (Pairs k ltac:(lia)) as (E0 & E1 & E2 & E3).
    destruct (P (2 * k)%nat ltac:(lia)) as (Py0 & Pu0 & Pv0).
    destruct (P (2 * k + 1)%nat ltac:(lia)) as (Py1 & Pu1 & Pv1).
    rewrite E0, E1, E2, E3, Py0, Py1, Pu0, Pu1, Pv0, Pv1.
    rewrite !halved_sum_exact by (apply wf_nth_byte; exact W).
    repeat split; reflexivity.
Qed.

(** With an odd number of pixels the last turn of the loop reads
    [udata[i+1]] one element past the plane (and would go on to store
    two bytes past the output). *)
Lemma convert_rgb_to_yuyv_odd_overruns (input : Mat) (fuel : nat) :
  let tmp := cvtColor_RGB2YUV input in
  Mat_wf tmp -> type tmp = CV_8UC3 ->
  Z.odd (total tmp) = true -> total tmp <= INT_MAX ->
  (Z.to_nat (total tmp / 2) < fuel)%nat ->
  convert_rgb_to_yuyv cvtColor_RGB2YUV fuel input = Overrun.
Proof.
  intros tmp W T Od Hmax Hfuel.
  pose proof (wf_rows _ W) as R0. pose proof (wf_cols _ W) as C0.
  assert (N0 : 0 <= total tmp) by (unfold total; nia).
  apply Z.odd_spec in Od. destruct Od as [half Eh].
  assert (Hh : 0 <= half) by lia.
  assert (En : total tmp = Z.of_nat (2 * Z.to_nat half + 1)) by lia.
  pose proof (wf_pixels _ W) as L. rewrite T in L. cbn [channels] in L.
  fold (total tmp) in L.
  assert (Ln : length (data tmp) = (3 * (2 * Z.to_nat half + 1))%nat) by lia.
  pose proof (split3_planes _ _ Ln) as P.
  unfold convert_rgb_to_yuyv. fold tmp.
  destruct (split3 (data tmp)) as [[ydata udata] vdata].
  destruct P as (Ly & Lu & Lv & _).
  assert (Hf : (Z.to_nat half < fuel)%nat).
  { replace (total tmp / 2) with half in Hfuel; [exact Hfuel|].
    rewrite Eh. replace (2 * half + 1) with (1 + half * 2) by lia.
    rewrite Z.div_add by lia. reflexivity. }
  destruct fuel as [|fuel]; [lia|].
  replace (S fuel) with (Z.to_nat half + S (fuel - Z.to_nat half))%nat by lia.
  destruct (yuyv_loop_advance (2 * Z.to_nat half + 1) ydata udata vdata
              (Z.to_nat half) 0 (S (fuel - Z.to_nat half))
              (repeat 0 (Z.to_nat (total tmp * 2))))
    as (o & E & Lo & _ & _); try assumption.
  - lia.
  - unfold INT_MAX in Hmax. lia.
  - rewrite repeat_length. lia.
  - change (Z.of_nat (2 * 0)) with 0 in E. rewrite <- En in E. rewrite E.
    cbn [yuyv_loop Nat.add]. rewrite En.
    replace (Z.of_nat (2 * Z.to_nat half) <? Z.of_nat (2 * Z.to_nat half + 1))
      with true by (symmetry; apply Z.ltb_lt; lia).
    rewrite load_inside by lia.
    rewrite unsigned_int_id by (unfold INT_MAX in Hmax; lia).
    replace (Z.of_nat (2 * Z.to_nat half) + 1)
      with (Z.of_nat (2 * Z.to_nat half + 1)) by lia.
    rewrite (load_outside udata) by lia. reflexivity.
Qed.

(** With 2^32 pixels or more the function never returns. *)
Lemma convert_rgb_to_yuyv_never_returns (input : Mat) (fuel : nat) :
  let tmp := cvtColor_RGB2YUV input in
  Mat_wf tmp -> type tmp = CV_8UC3 -> 4294967296 <= total tmp ->
  convert_rgb_to_yuyv cvtColor_RGB2YUV fuel input = Unfinished.
Proof.
  intros tmp W T Hbig.
  pose proof (wf_pixels _ W) as L. rewrite T in L. cbn [channels] in L.
  fold (total tmp) in L.
  assert (Ln : length (data tmp) = (3 * Z.to_nat (total tmp))%nat) by lia.
  pose proof (split3_planes _ _ Ln) as P.
  unfold convert_rgb_to_yuyv. fold tmp.
  destruct (split3 (data tmp)) as [[ydata udata] vdata].
  destruct P as (Ly & Lu & Lv & _).
  rewrite <- (Z2Nat.id (total tmp)) at 1 by lia.
  rewrite (yuyv_loop_wraps (Z.to_nat (total tmp)) ydata udata vdata fuel);
    try assumption; try reflexivity; try lia.
  rewrite repeat_length. lia.
Qed.

End PackChromaCore.

Section PackChromaMain.

Import Compositor.


End PackChromaMain.

Section PackChromaExamples.

Import Compositor.



End PackChromaExamples.

(** ** The virtual output device *)

Section Device.

Import Loopback.

(** Every failure of [loopback_init] leaves the descriptor closed. *)
Lemma loopback_init_failure_closes (k : kernel) (w h debug : Z) (p : process) :
  fd_open p = false ->
  fst (loopback_init k w h debug p) < 0 ->
  fd_open (snd (loopback_init k w h debug p)) = false.
Proof.
  intros Hp. unfold loopback_init.
  destruct (open_ret k <? 0) eqn:E0; [intros _; exact Hp|].
  destruct (querycap_ret k <? 0); [reflexivity|].
  destruct (s_fmt_ret k <? 0); [reflexivity|].
  destruct (streamon_ret k <? 0); [reflexivity|].
  apply Z.ltb_ge in E0. destruct (debug =? 0); cbn [fst]; lia.
Qed.

(** When [VIDIOC_STREAMOFF] succeeds, [loopback_free] closes the
    descriptor, whatever [close] returns. *)
Lemma loopback_free_closes_after_streamoff (k : kernel) (p : process) :
  0 <= streamoff_ret k ->
  fd_open (snd (loopback_free k p)) = false /\
  calls (snd (loopback_free k p)) = calls p ++ [sys_ioctl_STREAMOFF; sys_close].
Proof.
  intros H. unfold loopback_free.
  destruct (streamoff_ret k <? 0) eqn:E; [apply Z.ltb_lt in E; lia|].
  destruct (close_ret k <? 0); cbn; rewrite <- app_assoc; split; reflexivity.
Qed.

(** When [VIDIOC_STREAMOFF] fails, [loopback_free] reports it and
    returns: [close] is not called and the descriptor stays open. *)
Lemma loopback_free_returns_early (k : kernel) (p : process) :
  streamoff_ret k < 0 ->
  loopback_free k p =
    (-1, mkProcess (fd_open p) (streaming p) (calls p ++ [sys_ioctl_STREAMOFF])
           (stderr p ++ ["Failed to stop streaming"%string])).
Proof.
  intros H. unfold loopback_free.
  destruct (streamoff_ret k <? 0) eqn:E; [reflexivity|].
  apply Z.ltb_ge in E; lia.
Qed.

(** C3, the code at the failing input.  A device opened and streaming,
    whose [VIDIOC_STREAMOFF] fails: [loopback_free] prints its message and
    returns -1 after that single call; [close] is never attempted and the
    descriptor is still open, whereas the specification has the handle closed on
    every path. *)
Theorem loopback_free_skips_close_when_streamoff_fails :
  let k := mkKernel 3 0 0 0 (-1) 0 (fun vid_format => vid_format) in
  let opened := loopback_init k 640 480 0 fresh_process in
  let freed := loopback_free k (snd opened) in
  fst opened = 3 /\ fd_open (snd opened) = true /\
  fst freed = -1 /\
  fd_open (snd freed) = true /\
  calls (snd freed) =
    [sys_open; sys_ioctl_QUERYCAP; sys_ioctl_S_FMT 640 480; sys_ioctl_STREAMON;
     sys_ioctl_STREAMOFF] /\
  ~ In sys_close (calls (snd freed)) /\
  stderr (snd freed) = ["Failed to stop streaming"%string].
Proof.
  cbv zeta. repeat split; try reflexivity.
  cbn. intros H. repeat (destruct H as [H|H]; [discriminate|]). exact H.
Qed.

End Device.

(** ** Writing a frame *)

Section FrameWrite.

Import Loopback.

Variable sys_write : nat -> Z -> Z.

(** A [write] that fails on the first call stops the program with
    nothing sent. *)
Lemma write_loop_hard_failure (fuel n : nat) (buf wire : list Z) (framesize : Z) :
  0 < framesize -> sys_write n framesize <= 0 ->
  write_loop sys_write (S fuel) n buf framesize wire = WriteFatal wire.
Proof.
  intros Hf Hr. cbn [write_loop].
  destruct (0 <? framesize) eqn:E; [|apply Z.ltb_ge in E; lia].
  destruct (sys_write n framesize <=? 0) eqn:E'; [reflexivity|].
  apply Z.leb_gt in E'; lia.
Qed.

(** When every call accepts at least one byte and no more than asked,
    the loop ends, and the device has received as many bytes as the
    frame holds. *)
Lemma write_loop_terminates_with_count :
  (forall n count, 0 < count -> 0 < sys_write n count <= count) ->
  forall fuel n buf framesize wire,
    0 <= framesize <= Z.of_nat (length buf) ->
    (Z.to_nat framesize <= fuel)%nat ->
    exists wire',
      write_loop sys_write fuel n buf framesize wire = Written wire' /\
      Z.of_nat (length wire') = Z.of_nat (length wire) + framesize.
Proof.
  intros Hw. induction fuel as [|fuel IH]; intros n buf framesize wire Hf Hfuel.
  - cbn [write_loop]. destruct (0 <? framesize) eqn:E.
    + apply Z.ltb_lt in E; lia.
    + exists wire; split; [reflexivity | apply Z.ltb_ge in E; lia].
  - cbn [write_loop]. destruct (0 <? framesize) eqn:E.
    + apply Z.ltb_lt in E. specialize (Hw n framesize E).
      destruct (sys_write n framesize <=? 0) eqn:E'; [apply Z.leb_le in E'; lia|].
      destruct (IH (S n) buf (framesize - sys_write n framesize)
                  (wire ++ firstn (Z.to_nat (sys_write n framesize)) buf))
        as (wire' & Ew & Lw); [lia | lia |].
      exists wire'; split; [exact Ew|].
      rewrite Lw, length_app, length_firstn. lia.
    + exists wire; split; [reflexivity | apply Z.ltb_ge in E; lia].
Qed.

(** A frame taken whole by the first call arrives as it is. *)
Lemma write_loop_single_call (fuel : nat) (buf : list Z) :
  sys_write 0%nat (Z.of_nat (length buf)) = Z.of_nat (length buf) ->
  write_loop sys_write (S (S fuel)) 0 buf (Z.of_nat (length buf)) [] = Written buf.
Proof.
  intros H. cbn [write_loop]. rewrite H.
  destruct buf as [|b buf]; [reflexivity|].
  replace (0 <? Z.of_nat (length (b :: buf))) with true
    by (symmetry; apply Z.ltb_lt; cbn [length]; lia).
  replace (Z.of_nat (length (b :: buf)) <=? 0) with false
    by (symmetry; apply Z.leb_gt; cbn [length]; lia).
  rewrite Z.sub_diag, Nat2Z.id, firstn_all. reflexivity.
Qed.

(** After a short first write the second call is handed the start of the
    frame again: the bytes that follow are the first bytes of the frame,
    not the ones that were left. *)
Lemma write_loop_retry_resends_start (fuel : nat) (buf : list Z) (framesize : Z) :
  0 < sys_write 0%nat framesize < framesize ->
  sys_write 1%nat (framesize - sys_write 0%nat framesize)
    = framesize - sys_write 0%nat framesize ->
  write_loop sys_write (S (S (S fuel))) 0 buf framesize [] =
    Written (firstn (Z.to_nat (sys_write 0%nat framesize)) buf ++
             firstn (Z.to_nat (framesize - sys_write 0%nat framesize)) buf).
Proof.
  intros H0 H1. cbn [write_loop].
  replace (0 <? framesize) with true by (symmetry; apply Z.ltb_lt; lia).
  replace (sys_write 0%nat framesize <=? 0) with false
    by (symmetry; apply Z.leb_gt; lia).
  replace (0 <? framesize - sys_write 0%nat framesize) with true
    by (symmetry; apply Z.ltb_lt; lia).
  rewrite H1.
  replace (framesize - sys_write 0%nat framesize <=? 0) with false
    by (symmetry; apply Z.leb_gt; lia).
  rewrite Z.sub_diag. cbn [app]. reflexivity.
Qed.

End FrameWrite.

Section FrameWriteExamples.

Import Loopback.

(** C4, the code at the failing input.  A packed frame of four bytes and
    a device that takes three bytes at the first [write] and whatever it
    is offered afterwards.  Both calls return a positive count and the
    loop ends after the second, four bytes sent in all; but the second
    call sends byte 0 of the frame again: the device has received
    [100; 127; 101; 100], and the last byte of the frame, 129, never. *)
Theorem write_frame_resends_start_after_short_write :
  let frame := mkMat 1 2 CV_8UC2 [100; 127; 101; 129] in
  let sys_write := fun (n : nat) (count : Z) =>
                     match n with O => 3 | _ => count end in
  sys_write 0%nat 4 = 3 /\ sys_write 1%nat 1 = 1 /\
  write_frame sys_write 4 frame = Written [100; 127; 101; 100] /\
  write_frame sys_write 4 frame <> Written (data frame) /\
  ~ In 129 [100; 127; 101; 100].
Proof.
  cbv zeta. repeat split.
  - vm_compute. discriminate.
  - cbn. intros H. repeat (destruct H as [H|H]; [discriminate|]). exact H.
Qed.

End FrameWriteExamples.

(** ** Frame rate and throttling *)

Section Throttle.

Import Orchestrator.

Lemma throttle_length (d : Z) (l : list Mat) :
  forall skip, length (throttle d skip l) = length l.
Proof.
  induction l as [|raw l IH]; intros skip; cbn [throttle]; [reflexivity|].
  destruct ((rows raw =? 0) || (cols raw =? 0)); [|destruct (skip <? d)];
    cbn [length]; now rewrite IH.
Qed.

(** The loop decides frame by frame. *)
Lemma throttle_app (d : Z) (a b : list Mat) :
  forall skip,
    throttle d skip (a ++ b) = throttle d skip a ++ throttle d (skip_after d skip a) b.
Proof.
  induction a as [|raw a IH]; intros skip; cbn [throttle skip_after app]; [reflexivity|].
  destruct ((rows raw =? 0) || (cols raw =? 0)); [|destruct (skip <? d)];
    cbn [app]; now rewrite IH.
Qed.

(** Empty frames leave the counter alone; with [t = skip - 1] frames
    counted since the last one processed, [m] more frames that pass the
    sanity check make the loop process [(t + m) / d] of them and skip the
    others, and leave [(t + m) mod d] counted. *)
Lemma throttle_counts (d : Z) :
  1 <= d <= INT_MAX ->
  forall l skip, 1 <= skip <= d ->
    Z.of_nat (count_ticks tick_processed (throttle d skip l))
      = (skip - 1 + nonempty_count l) / d /\
    Z.of_nat (count_ticks tick_skipped (throttle d skip l))
      = nonempty_count l - (skip - 1 + nonempty_count l) / d /\
    skip_after d skip l = (skip - 1 + nonempty_count l) mod d + 1.
Proof.
  intros Hd. unfold count_ticks, nonempty_count.
  induction l as [|raw l IH]; intros skip Hs.
  - cbn [throttle skip_after filter length Z.of_nat].
    rewrite Z.add_0_r, Z.div_small, Z.mod_small by lia. lia.
  - cbn [throttle skip_after filter].
    assert (En : nonempty_frame raw = negb ((rows raw =? 0) || (cols raw =? 0)))
      by reflexivity.
    rewrite En. destruct ((rows raw =? 0) || (cols raw =? 0)); cbn [negb].
    + cbn [filter tick_eqb]. apply IH, Hs.
    + destruct (skip <? d) eqn:Es.
      * apply Z.ltb_lt in Es.
        rewrite int_cast_id by (unfold in_int, INT_MIN, INT_MAX in *; lia).
        cbn [filter tick_eqb length].
        destruct (IH (skip + 1) ltac:(lia)) as (P & S & A).
        rewrite !Nat2Z.inj_succ.
        replace (skip - 1 + Z.succ (Z.of_nat (length (filter nonempty_frame l))))
          with (skip + 1 - 1 + Z.of_nat (length (filter nonempty_frame l))) by lia.
        lia.
      * apply Z.ltb_ge in Es. assert (skip = d) by lia. subst skip.
        cbn [filter tick_eqb length].
        destruct (IH 1 ltac:(lia)) as (P & S & A).
        rewrite !Nat2Z.inj_succ.
        replace (d - 1 + Z.succ (Z.of_nat (length (filter nonempty_frame l))))
          with (1 - 1 + Z.of_nat (length (filter nonempty_frame l)) + 1 * d) by lia.
        rewrite Z.div_add, Z.mod_add by lia. lia.
Qed.

(** The first frame that passes the sanity check is processed, whatever
    the divisor: the counter starts at the divisor. *)
Lemma main_loop_first_frame (d : Z) (glitches : list Mat) (first : Mat) (rest : list Mat) :
  Forall (fun m => nonempty_frame m = false) glitches ->
  nonempty_frame first = true ->
  main_loop d (glitches ++ first :: rest) =
    repeat tick_empty (length glitches) ++ tick_processed :: throttle d 1 rest.
Proof.
  intros Hg Hf. unfold main_loop.
  induction Hg as [|g glitches Eg Hg IH]; cbn [app length repeat throttle].
  - unfold nonempty_frame in Hf. apply negb_true_iff in Hf. rewrite Hf.
    rewrite Z.ltb_irrefl. reflexivity.
  - unfold nonempty_frame in Eg. apply negb_false_iff in Eg. rewrite Eg.
    now rewrite IH.
Qed.

(** Without overflow of the sum, the divisor is the quotient rounded up. *)
Lemma fpsDivisor_exact (fps maxFps : Z) :
  0 < fps -> 0 < maxFps -> fps + maxFps <= INT_MAX ->
  fpsDivisor fps maxFps = (fps + maxFps - 1) / maxFps.
Proof.
  intros Hf Hm Hs. unfold fpsDivisor, INT_MAX in *.
  replace (0 <? maxFps) with true by (symmetry; apply Z.ltb_lt; lia).
  rewrite (int_cast_id (fps + maxFps))
    by (unfold in_int, INT_MIN, INT_MAX; lia).
  rewrite (int_cast_id (fps + maxFps - 1))
    by (unfold in_int, INT_MIN, INT_MAX; lia).
  rewrite Z.quot_div_nonneg by lia.
  apply int_cast_id. unfold in_int, INT_MIN, INT_MAX.
  split.
  - assert (0 <= (fps + maxFps - 1) / maxFps) by (apply Z.div_pos; lia). lia.
  - assert ((fps + maxFps - 1) / maxFps <= fps + maxFps - 1)
      by (apply Z.div_le_upper_bound; nia). lia.
Qed.

Lemma ceiling_of_quotient (fps maxFps : Z) :
  0 < maxFps ->
  Qceiling (inject_Z fps / inject_Z maxFps) = (fps + maxFps - 1) / maxFps.
Proof.
  intros Hm. destruct maxFps as [|p|p]; try lia.
  unfold Qceiling, Qfloor, Qdiv, Qinv, Qmult, Qopp, inject_Z. cbn [Qnum Qden].
  rewrite Z.mul_1_r, Pos.mul_1_l.
  apply Z.div_unique with (r := Z.pos p - 1 - (- fps) mod Z.pos p).
  - pose proof (Z.mod_pos_bound (- fps) (Z.pos p) ltac:(lia)). lia.
  - pose proof (Z.div_mod (- fps) (Z.pos p) ltac:(lia)). lia.
Qed.

Lemma fpsDivisor_bounds (fps maxFps : Z) :
  0 < fps -> 0 < maxFps -> fps + maxFps <= INT_MAX ->
  1 <= fpsDivisor fps maxFps <= INT_MAX.
Proof.
  intros Hf Hm Hs. rewrite fpsDivisor_exact by assumption. split.
  - apply Z.div_le_lower_bound; lia.
  - assert ((fps + maxFps - 1) / maxFps <= fps + maxFps - 1)
      by (apply Z.div_le_upper_bound; nia). lia.
Qed.

(** Of any [n * d] frames in a row that pass the sanity check, wherever
    the run starts, [n] are processed and the others are skipped. *)
Lemma main_loop_windows (d n : Z) (before window : list Mat) :
  1 <= d <= INT_MAX -> 0 <= n ->
  nonempty_count window = n * d ->
  Z.of_nat (count_ticks tick_processed
    (skipn (length before) (main_loop d (before ++ window)))) = n /\
  Z.of_nat (count_ticks tick_skipped
    (skipn (length before) (main_loop d (before ++ window)))) = n * d - n.
Proof.
  intros Hd Hn Hw. unfold main_loop.
  rewrite throttle_app, skipn_app, throttle_length, Nat.sub_diag.
  rewrite skipn_all2 by (rewrite throttle_length; lia).
  cbn [skipn app].
  destruct (throttle_counts d Hd before d ltac:(lia)) as (_ & _ & A).
  pose proof (Z.mod_pos_bound (d - 1 + nonempty_count before) d ltac:(lia)) as B.
  destruct (throttle_counts d Hd window (skip_after d d before) ltac:(lia))
    as (P & S & _).
  rewrite Hw in P, S. rewrite A in P, S.
  replace ((d - 1 + nonempty_count before) mod d + 1 - 1 + n * d)
    with ((d - 1 + nonempty_count before) mod d + n * d) in P, S by lia.
  rewrite Z.div_add, Z.div_small in P, S by lia.
  rewrite A. split; lia.
Qed.

End Throttle.

Section ThrottleMain.

Import Orchestrator.

(** The integer kept of a rate of at least 1 that fits an [int]. *)
Lemma capture_fps_floor (native_fps : Q) :
  (1 <= native_fps)%Q -> (native_fps <= inject_Z INT_MAX)%Q ->
  capture_fps native_fps = Qfloor native_fps /\
  1 <= capture_fps native_fps <= INT_MAX.
Proof.
  intros H1 Hmax. unfold capture_fps, int_of_double.
  assert (P : (0 <= native_fps)%Q) by (eapply Qle_trans; [|exact H1]; discriminate).
  apply Qle_bool_iff in P. rewrite P.
  assert (F1 : 1 <= Qfloor native_fps).
  { change 1 with (Qfloor (inject_Z 1)). apply Qfloor_resp_le. exact H1. }
  assert (F2 : Qfloor native_fps <= INT_MAX).
  { rewrite <- (Qfloor_Z INT_MAX). apply Qfloor_resp_le. exact Hmax. }
  rewrite int_cast_id by (unfold in_int, INT_MIN, INT_MAX in *; lia).
  split; [reflexivity | lia].
Qed.

(** C8 (as amended).  The program keeps the integer part [fps] of the
    rate the capture device reports.  For a rate of at least 1 and a
    positive maximum, with [fps + maxFps] still an [int], the divisor is
    the ceiling of [fps / maxFps], which is the ceiling of
    native_fps / max_fps when the native rate is a whole number; with
    that divisor [d], of every [d] consecutive frames that pass the
    sanity check, whatever was captured before them, the main loop
    processes exactly one and skips [d - 1].  In particular 60 fps
    capped at 25 gives 3, and of nine consecutive non-empty frames three
    are processed and six skipped. *)
Theorem fpsDivisor_is_ceiling_and_one_frame_in_divisor_is_processed
    (native_fps : Q) (maxFps : Z) :
  let fps := capture_fps native_fps in
  (1 <= native_fps)%Q -> 0 < maxFps ->
  (native_fps <= inject_Z (INT_MAX - maxFps))%Q ->
  fps = Qfloor native_fps /\
  fpsDivisor fps maxFps = Qceiling (inject_Z fps / inject_Z maxFps) /\
  (native_fps == inject_Z fps ->
   fpsDivisor fps maxFps = Qceiling (native_fps / inject_Z maxFps))%Q /\
  (forall before window : list Mat,
      nonempty_count window = fpsDivisor fps maxFps ->
      count_ticks tick_processed
        (skipn (length before)
           (main_loop (fpsDivisor fps maxFps) (before ++ window))) = 1%nat /\
      Z.of_nat (count_ticks tick_skipped
        (skipn (length before)
           (main_loop (fpsDivisor fps maxFps) (before ++ window))))
        = fpsDivisor fps maxFps - 1) /\
  fpsDivisor (capture_fps (inject_Z 60)) 25 = 3 /\
  (forall before window : list Mat,
      nonempty_count window = 9 ->
      count_ticks tick_processed
        (skipn (length before)
           (main_loop (fpsDivisor (capture_fps (inject_Z 60)) 25)
              (before ++ window))) = 3%nat /\
      count_ticks tick_skipped
        (skipn (length before)
           (main_loop (fpsDivisor (capture_fps (inject_Z 60)) 25)
              (before ++ window))) = 6%nat).
Proof.
  intros fps H1 Hm Hmax.
  assert (Hint : (native_fps <= inject_Z INT_MAX)%Q).
  { eapply Qle_trans; [exact Hmax|]. rewrite <- Zle_Qle. lia. }
  destruct (capture_fps_floor native_fps H1 Hint) as (Efl & Hf).
  fold fps in Efl, Hf.
  assert (Hs : fps + maxFps <= INT_MAX).
  { assert (Qfloor native_fps <= INT_MAX - maxFps).
    { rewrite <- (Qfloor_Z (INT_MAX - maxFps)). apply Qfloor_resp_le. exact Hmax. }
    lia. }
  assert (Hceil : fpsDivisor fps maxFps = Qceiling (inject_Z fps / inject_Z maxFps)).
  { rewrite ceiling_of_quotient by assumption. apply fpsDivisor_exact; lia. }
  split; [exact Efl|]. split; [exact Hceil|]. split; [|split; [|split]].
  - intros Eq. rewrite Hceil. apply Qceiling_comp. rewrite Eq. reflexivity.
  - intros before window Hw.
    pose proof (fpsDivisor_bounds fps maxFps ltac:(lia) Hm Hs) as Hd.
    destruct (main_loop_windows (fpsDivisor fps maxFps) 1 before window Hd
                ltac:(lia) ltac:(lia)) as (P & S).
    split; lia.
  - reflexivity.
  - intros before window Hw.
    change (fpsDivisor (capture_fps (inject_Z 60)) 25) with 3.
    destruct (main_loop_windows 3 3 before window
                ltac:(unfold INT_MAX; lia) ltac:(lia) Hw) as (P & S).
    split; lia.
Qed.

Lemma fpsDivisor_is_ceiling_and_one_frame_in_divisor_is_processed_witness :
  (1 <= inject_Z 60)%Q /\ 0 < 25 /\
  (inject_Z 60 <= inject_Z (INT_MAX - 25))%Q /\
  fpsDivisor (capture_fps (inject_Z 60)) 25
    = Qceiling (inject_Z (capture_fps (inject_Z 60)) / inject_Z 25).
Proof.
  assert (H1 : (1 <= inject_Z 60)%Q) by discriminate.
  assert (H2 : 0 < 25) by lia.
  assert (H3 : (inject_Z 60 <= inject_Z (INT_MAX - 25))%Q) by discriminate.
  split; [exact H1|]. split; [exact H2|]. split; [exact H3|].
  exact (proj1 (proj2 (fpsDivisor_is_ceiling_and_one_frame_in_divisor_is_processed
                         (inject_Z 60) 25 H1 H2 H3))).
Defined.

(** C8 as stated fails in two ways.  The sum [fps + maxFps] is an [int]:
    for 30 fps and [--max-fps 2147483647], both positive, it wraps and
    the divisor is 0, where the ceiling of the quotient is 1.  And the
    program divides the integer part of the native rate: a device that
    reports 29.97 fps, capped at 29, gets the divisor 1 and every frame
    is processed, where the ceiling of 29.97 / 29 is 2. *)
Lemma fpsDivisor_is_not_the_ceiling_of_every_rate :
  0 < 30 /\ 0 < 2147483647 /\
  fpsDivisor 30 2147483647 = 0 /\
  Qceiling (inject_Z 30 / inject_Z 2147483647) = 1 /\
  capture_fps (2997 # 100) = 29 /\
  fpsDivisor (capture_fps (2997 # 100)) 29 = 1 /\
  Qceiling ((2997 # 100) / inject_Z 29) = 2.
Proof. repeat split; reflexivity. Qed.

(** C10.  For every divisor [d >= 1], the first captured frame that
    passes the sanity check is processed, never skipped: the counter
    starts at [d], so the test [skip < d] fails for it.  Empty frames
    before it are dropped by the sanity check without touching the
    counter; a frame can be skipped only after one has been processed. *)
Theorem first_nonempty_frame_is_processed
    (d : Z) (glitches : list Mat) (first : Mat) (rest : list Mat) :
  1 <= d ->
  Forall (fun m => nonempty_frame m = false) glitches ->
  nonempty_frame first = true ->
  main_loop d (glitches ++ first :: rest) =
    repeat tick_empty (length glitches) ++ tick_processed :: throttle d 1 rest /\
  ~ In tick_skipped (firstn (S (length glitches)) (main_loop d (glitches ++ first :: rest))).
Proof.
  intros _ Hg Hf.
  pose proof (main_loop_first_frame d glitches first rest Hg Hf) as E.
  split; [exact E|]. rewrite E.
  replace (S (length glitches))
    with (length (repeat tick_empty (length glitches)) + 1)%nat
    by (rewrite repeat_length; lia).
  rewrite firstn_app_2. cbn [firstn].
  intros H. apply in_app_or in H. destruct H as [H|H].
  - apply repeat_spec in H. discriminate.
  - destruct H as [H|[]]. discriminate.
Qed.

Lemma first_nonempty_frame_is_processed_witness :
  1 <= 3 /\
  main_loop 3 [Mat_empty; mkMat 1 2 CV_8UC3 [1; 2; 3; 4; 5; 6];
               mkMat 1 2 CV_8UC3 [1; 2; 3; 4; 5; 6]]
  = [tick_empty; tick_processed; tick_skipped].
Proof.
  assert (H : 1 <= 3) by lia. split; [exact H|].
  exact (proj1 (first_nonempty_frame_is_processed 3 [Mat_empty]
           (mkMat 1 2 CV_8UC3 [1; 2; 3; 4; 5; 6])
           [mkMat 1 2 CV_8UC3 [1; 2; 3; 4; 5; 6]]
           H (Forall_cons Mat_empty eq_refl (Forall_nil _)) eq_refl)).
Defined.

End ThrottleMain.

(** ** Output geometry *)

Section Geometry.

Import Orchestrator.

Lemma int_cast_even (x : Z) : Z.even (int_cast x) = Z.even x.
Proof.
  unfold int_cast. rewrite Z.mod_eq by lia.
  replace (x + 2147483648 - 4294967296 * ((x + 2147483648) / 4294967296) - 2147483648)
    with (x + 2 * (- 2147483648 * ((x + 2147483648) / 4294967296))) by lia.
  rewrite Z.even_add_mul_2. reflexivity.
Qed.

(** [w + w % 2] is even for every [int] [w], also when the sum wraps. *)
Lemma forced_even (w : Z) : Z.even (int_cast (w + Z.rem w 2)) = true.
Proof.
  rewrite int_cast_even.
  rewrite (Z.quot_rem' w 2) at 1.
  replace (2 * Z.quot w 2 + Z.rem w 2 + Z.rem w 2)
    with (0 + 2 * (Z.quot w 2 + Z.rem w 2)) by lia.
  rewrite Z.even_add_mul_2. reflexivity.
Qed.

Lemma parse_option_vidGeo (o : cli_option) (s s' : settings) :
  parse_option o s = Ok s' ->
  (vidGeo_even s -> vidGeo_even s') /\
  (is_some (vidGeo s) = true -> is_some (vidGeo s') = true) /\
  (forall geo, o = opt_vg geo -> vidGeo_even s' /\ is_some (vidGeo s') = true).
Proof.
  unfold vidGeo_even.
  destruct o as [arg|arg|geo|geo|arg|]; cbn [parse_option].
  - destruct (sscanf_d arg (width s)) as [w [|]];
      [destruct (w =? 0); [discriminate|]|];
      intros E; injection E as <-; cbn [vidGeo]; repeat split; auto; discriminate.
  - destruct (sscanf_d arg (height s)) as [h [|]];
      [destruct (h =? 0); [discriminate|]|];
      intros E; injection E as <-; cbn [vidGeo]; repeat split; auto; discriminate.
  - destruct geo as [[w h]|]; [|discriminate].
    destruct ((w <? 1) || (h <? 1)); [discriminate|].
    intros E; injection E as <-; cbn [vidGeo]; repeat split; auto; discriminate.
  - destruct geo as [[w h]|]; [|discriminate].
    destruct ((w <? 1) || (h <? 1)); [discriminate|].
    intros E; injection E as <-; cbn [vidGeo is_some].
    repeat split; auto using forced_even.
  - destruct (sscanf_d arg (maxFps s)) as [f [|]];
      [destruct (f <=? 0); [discriminate|]|];
      intros E; injection E as <-; cbn [vidGeo]; repeat split; auto; discriminate.
  - intros E; injection E as <-; repeat split; auto; discriminate.
Qed.

Lemma parse_options_vidGeo (opts : list cli_option) :
  forall s s', parse_options opts s = Ok s' ->
    (vidGeo_even s -> vidGeo_even s') /\
    (is_some (vidGeo s) = true \/ (exists geo, In (opt_vg geo) opts) ->
     is_some (vidGeo s') = true).
Proof.
  induction opts as [|o opts IH]; intros s s' E; cbn [parse_options] in E.
  - injection E as <-. split; [auto|]. intros [H|[geo []]]. exact H.
  - destruct (parse_option o s) as [s1| |] eqn:E1; cbn [bind] in E; try discriminate.
    destruct (parse_option_vidGeo _ _ _ E1) as (Hev & Hsome & Hvg).
    destruct (IH _ _ E) as (IHev & IHsome).
    split; [auto|].
    intros [H|[geo [H|H]]]; apply IHsome.
    + left; auto.
    + left. subst o. apply (Hvg geo eq_refl).
    + right; exists geo; exact H.
Qed.

(** The path the source does guard: when [--vg] is given, the width the
    virtual device is opened with is even. *)
Lemma output_width_even_with_vg
    (aspect_too_big : Z * Z -> bool) (cap_geometry : Z * Z -> Z * Z) (cap_fps : Z)
    (opts : list cli_option) (p : plan) :
  (exists geo, In (opt_vg geo) opts) ->
  startup aspect_too_big cap_geometry cap_fps opts = Ok p ->
  Z.even (output_width p) = true.
Proof.
  intros Hvg. unfold startup.
  destruct (parse_options opts initial_settings) as [s| |] eqn:E; cbn [bind];
    try discriminate.
  destruct (parse_options_vidGeo _ _ _ E) as (Hev & Hsome).
  specialize (Hev I). specialize (Hsome (or_intror Hvg)).
  unfold vidGeo_even in Hev. unfold resolve.
  destruct (vidGeo s) as [[w h]|]; [|discriminate].
  destruct (aspect_too_big (w, h)); [discriminate|].
  destruct (setWorH s && _); [discriminate|].
  intros R; injection R as <-. exact Hev.
Qed.

End Geometry.

Section GeometryExamples.

Import Orchestrator.

(** C5, the code at the failing input.  Capture geometry 641x480 asked
    with [--cg] and granted by the capture device, no [--vg]: the
    virtual geometry is copied from the capture geometry as it is, and
    the virtual device is opened, and the frames are packed, 641 pixels
    wide.  The same happens without any switch when the device answers
    the default request with an odd width. *)
Theorem output_width_odd_when_copied_from_capture :
  let no_aspect_error := fun _ : Z * Z => false in
  let granted := fun g : Z * Z => g in
  let fixed_641 := fun _ : Z * Z => (641, 480) in
  startup no_aspect_error granted 30 [opt_cg (Some (641, 480))]
    = Ok (mkPlan (641, 480) (641, 480) 1) /\
  output_width (mkPlan (641, 480) (641, 480) 1) = 641 /\
  Z.even 641 = false /\
  startup no_aspect_error fixed_641 30 []
    = Ok (mkPlan (641, 480) (641, 480) 1).
Proof. cbv zeta. repeat split. Qed.

End GeometryExamples.

(** ** The mask engine *)

Section Engine.

Import MaskEngine.

Variable bs_maskgen_process : Mat -> Mat -> option Mat.

#[local] Abbreviation step := (worker_step bs_maskgen_process).
#[local] Abbreviation run := (run_worker bs_maskgen_process).

Lemma run_worker_step (fuel : nat) (s s' : system) :
  step s = Some s' -> run (S fuel) s = run fuel s'.
Proof. intros E. cbn [run_worker]. now rewrite E. Qed.

Lemma run_worker_stuck (fuel : nat) (s : system) :
  step s = None -> run fuel s = s.
Proof. intros E. destruct fuel; cbn [run_worker]; [reflexivity | now rewrite E]. Qed.

Lemma frame_at_store (b : buffer) (m : Mat) (c : CalcMask) :
  frame_at b (store_frame b m c) = m.
Proof. destruct b; reflexivity. Qed.

Lemma store_frame_twice (b : buffer) (m m' : Mat) (c : CalcMask) :
  store_frame b m' (store_frame b m c) = store_frame b m' c.
Proof. destruct b; reflexivity. Qed.

(** *** The output mailbox *)

(** With [new_mask] clear, [get_output_mask] takes no lock and changes
    neither the engine nor the caller's buffer. *)
Lemma get_output_mask_not_ready (s : system) (out : Mat) :
  new_mask (engine s) = false -> get_output_mask out s = Some (s, out).
Proof. intros E. unfold get_output_mask. now rewrite E. Qed.

Lemma just_fetched_new_mask (s : system) :
  just_fetched s -> new_mask (engine s) = false.
Proof.
  intros [->|(before & out & result & E)]; [reflexivity|].
  unfold get_output_mask in E.
  destruct (new_mask (engine before)) eqn:N.
  - destruct (worker_holds_lock_mask before); [discriminate|].
    injection E as <- _. reflexivity.
  - injection E as <- _. exact N.
Qed.

Lemma notify_all_engine (s : system) : engine (notify_all s) = engine s.
Proof. unfold notify_all. destruct (pc s); reflexivity. Qed.

Lemma set_input_frame_new_mask (frame : Mat) (s s' : system) :
  set_input_frame frame s = Some s' ->
  new_mask (engine s') = new_mask (engine s).
Proof.
  unfold set_input_frame. destruct (worker_holds_lock_frame s); [discriminate|].
  intros E; injection E as <-. rewrite notify_all_engine. cbn [engine with_engine].
  destruct (frame_next (engine s)); reflexivity.
Qed.

(** No statement of the destructor touches [new_mask]. *)
Lemma destructor_step_new_mask (d d' : destructor_pc) (s s' : system) :
  destructor_step d s = Some (d', s') ->
  new_mask (engine s') = new_mask (engine s).
Proof.
  destruct d; cbn [destructor_step]; try discriminate.
  - intros E; injection E as _ <-. reflexivity.
  - intros E; injection E as _ <-. reflexivity.
  - intros E; injection E as _ <-. now rewrite notify_all_engine.
  - destruct (pc s); try discriminate. intros E; injection E as _ <-. reflexivity.
Qed.

(** Only the exchange at [at_mask_swap] sets [new_mask]. *)
Lemma worker_step_new_mask (s s' : system) :
  pc s <> at_mask_swap -> step s = Some s' ->
  new_mask (engine s') = new_mask (engine s).
Proof.
  intros Hpc. unfold worker_step.
  destruct (pc s) eqn:P; try congruence.
  - destruct (state (engine s)); intros E; injection E as <-; reflexivity.
  - intros E; injection E as <-; reflexivity.
  - destruct (new_frame (engine s)); intros E; injection E as <-; reflexivity.
  - intros E; injection E as <-; reflexivity.
  - destruct (notified s); [|discriminate]. intros E; injection E as <-; reflexivity.
  - intros E; injection E as <-; reflexivity.
  - destruct (bs_maskgen_process _ _); intros E; injection E as <-;
      [|reflexivity].
    cbn [goto with_engine engine]. destruct (mask_current (engine s)); reflexivity.
  - intros E; injection E as <-; reflexivity.
Qed.

Lemma no_completion_new_mask (s0 s : system) :
  no_completion bs_maskgen_process s0 s ->
  new_mask (engine s) = new_mask (engine s0).
Proof.
  induction 1 as [s | s s1 s2 frame _ IH E | s s1 s2 _ IH Hpc E
                  | s s1 s2 d d' _ IH E].
  - reflexivity.
  - rewrite <- IH. eapply set_input_frame_new_mask; eassumption.
  - rewrite <- IH. eapply worker_step_new_mask; eassumption.
  - rewrite <- IH. eapply destructor_step_new_mask; eassumption.
Qed.

(** C6.  From the construction of the engine, or from any fetch, as long
    as no inference completes (whatever else the main thread and the
    worker do in between), [get_output_mask] returns at once, without
    taking the mask lock, and leaves the engine and the caller's buffer
    exactly as they were. *)
Theorem get_output_mask_keeps_buffer_when_no_inference_completed
    (s0 s : system) (out : Mat) :
  just_fetched s0 ->
  no_completion bs_maskgen_process s0 s ->
  get_output_mask out s = Some (s, out).
Proof.
  intros J R. apply get_output_mask_not_ready.
  rewrite (no_completion_new_mask _ _ R). now apply just_fetched_new_mask.
Qed.

(** *** The input mailbox *)

(** The caller gets [lock_frame] whenever the worker is not inside one
    of its two short critical sections; in particular while the worker
    waits and while it runs an inference. *)
Lemma set_input_frame_enabled (frame : Mat) (s : system) :
  worker_holds_lock_frame s = false ->
  set_input_frame frame s =
    Some (notify_all (with_engine
            (set_new_frame true
               (store_frame (frame_next (engine s)) frame (engine s))) s)).
Proof. intros E. unfold set_input_frame. now rewrite E. Qed.

(** The worker is never blocked while it holds [lock_frame], and has
    released it after two steps at most. *)
Lemma lock_frame_is_released (s : system) :
  worker_holds_lock_frame s = true ->
  exists s1, step s = Some s1 /\
    (worker_holds_lock_frame s1 = false \/
     exists s2, step s1 = Some s2 /\ worker_holds_lock_frame s2 = false).
Proof.
  unfold worker_holds_lock_frame, worker_step.
  destruct s as [c w n log]; cbn [pc engine processed notified].
  destruct w; try discriminate; intros _.
  - destruct (new_frame c).
    + eexists; split; [reflexivity|]. right.
      eexists; split; reflexivity.
    + eexists; split; [reflexivity|]. right.
      eexists; split; reflexivity.
  - eexists; split; [reflexivity|]. left; reflexivity.
  - eexists; split; [reflexivity|]. left; reflexivity.
Qed.

(** Two frames submitted while the worker waits: what the worker does
    when left alone afterwards. *)
Lemma two_submissions_then_worker (s : system) (F1 F2 : Mat) :
  pc s = in_wait ->
  exists s1 s2,
    set_input_frame F1 s = Some s1 /\
    set_input_frame F2 s1 = Some s2 /\
    forall fuel, (9 <= fuel)%nat ->
      processed (run fuel s2) = processed s ++ [F2] /\
      ((10 <= fuel)%nat -> step (run fuel s2) = None).
Proof.
  destruct s as [c w n log]; cbn [pc]; intros ->.
  do 2 eexists. split; [reflexivity|]. split; [reflexivity|].
  intros fuel Hfuel.
  do 9 (destruct fuel as [|fuel]; [lia|]). clear Hfuel.
  destruct c as [st m1 m2 mc mo f1 f2 fc fn nf nm].
  cbn [engine with_engine frame_next store_frame set_new_frame notify_all pc
       processed notified].
  destruct fn, mc, st;
    cbn [run_worker worker_step engine pc notified processed goto with_engine
         store_frame set_new_frame swap_frames new_frame frame_current frame_at
         frame_next mask_at mask_current state notify_all frame1 frame2 mask1 mask2
         mask_out new_mask store_mask swap_masks set_new_mask];
    destruct (bs_maskgen_process F2 _);
    cbn [run_worker worker_step engine pc notified processed goto with_engine
         store_frame set_new_frame swap_frames new_frame frame_current frame_at
         frame_next mask_at mask_current state notify_all frame1 frame2 mask1 mask2
         mask_out new_mask store_mask swap_masks set_new_mask];
    (split; [destruct fuel as [|[|fuel]];
               cbn [run_worker worker_step pc notified engine processed goto
                    new_frame];
               reflexivity
            | intros Hfuel; destruct fuel as [|[|fuel]]; try lia;
              cbn [run_worker worker_step pc notified engine processed goto
                   new_frame];
              reflexivity]).
Qed.

(** C7.  [set_input_frame] never waits for the worker: it succeeds at
    once unless the worker is inside one of its two short critical
    sections, which the worker leaves on its own within two steps (it is
    never blocked, and never runs an inference, while it holds the lock).
    And for frames [F1] then [F2] submitted while the worker waits, the
    slot holds [F2] alone, and the worker left to run handles exactly one
    frame, [F2], and then stops moving (it waits again, or has ended):
    [F1] is never seen. *)
Theorem input_mailbox_latest_frame_wins (s : system) (F1 F2 : Mat) :
  pc s = in_wait ->
  (forall (t : system) (frame : Mat),
      (exists t', set_input_frame frame t = Some t') \/
      (exists t1, step t = Some t1 /\
         ((exists t', set_input_frame frame t1 = Some t') \/
          (exists t2, step t1 = Some t2 /\
             exists t', set_input_frame frame t2 = Some t')))) /\
  exists s1 s2,
    set_input_frame F1 s = Some s1 /\
    set_input_frame F2 s1 = Some s2 /\
    frame_at (frame_next (engine s2)) (engine s2) = F2 /\
    forall fuel, (9 <= fuel)%nat ->
      processed (run fuel s2) = processed s ++ [F2] /\
      ((10 <= fuel)%nat -> step (run fuel s2) = None).
Proof.
  intros Hpc. split.
  - intros t frame.
    destruct (worker_holds_lock_frame t) eqn:L.
    + right. destruct (lock_frame_is_released t L) as (t1 & E1 & [L1|(t2 & E2 & L2)]).
      * exists t1; split; [exact E1|]. left.
        eexists; apply set_input_frame_enabled, L1.
      * exists t1; split; [exact E1|]. right.
        exists t2; split; [exact E2|].
        eexists; apply set_input_frame_enabled, L2.
    + left. eexists; apply set_input_frame_enabled, L.
  - destruct (two_submissions_then_worker s F1 F2 Hpc) as (s1 & s2 & E1 & E2 & R).
    exists s1, s2. repeat split; try assumption; try apply R; try assumption.
    clear R. unfold set_input_frame in E1, E2.
    destruct s as [c w n log]; cbn [pc] in Hpc; subst w.
    cbn [worker_holds_lock_frame pc] in E1. injection E1 as <-.
    cbn [worker_holds_lock_frame pc notify_all with_engine] in E2.
    injection E2 as <-.
    cbn [engine notify_all with_engine pc].
    destruct c as [st m1 m2 mc mo f1 f2 fc fn nf nm]; destruct fn; reflexivity.
Qed.

(** *** Shutdown *)

#[local] Abbreviation sstep := (shutdown_step bs_maskgen_process).
#[local] Abbreviation schedule_play := (play bs_maskgen_process).

(** Once the flag is [DONE] it stays so, and a step of either thread
    hands at most one more frame to the inference, none once the worker
    is past the call. *)
Lemma shutdown_step_inference (t : thread) (d d' : destructor_pc) (s s' : system) :
  state (engine s) = DONE ->
  sstep t (d, s) = Some (d', s') ->
  state (engine s') = DONE /\
  exists more,
    processed s' = processed s ++ more /\
    (length more + inference_ahead (pc s') <= inference_ahead (pc s))%nat.
Proof.
  intros Hs. destruct t; cbn [shutdown_step fst snd].
  - destruct s as [c w n log]. unfold worker_step.
    cbn [engine pc notified processed] in *.
    destruct w; try discriminate.
    + rewrite Hs. intros E; injection E as _ <-.
      split; [exact Hs|]. exists []. rewrite app_nil_r. split; [reflexivity|].
      cbn; lia.
    + intros E; injection E as _ <-.
      split; [exact Hs|]. exists []. rewrite app_nil_r. split; [reflexivity|].
      cbn; lia.
    + destruct (new_frame c); intros E; injection E as _ <-;
        (split; [exact Hs|]); exists []; rewrite app_nil_r;
        (split; [reflexivity|]); cbn; lia.
    + intros E; injection E as _ <-.
      split; [exact Hs|]. exists []. rewrite app_nil_r. split; [reflexivity|].
      cbn; lia.
    + destruct n; [|discriminate]. intros E; injection E as _ <-.
      split; [exact Hs|]. exists []. rewrite app_nil_r. split; [reflexivity|].
      cbn; lia.
    + intros E; injection E as _ <-.
      split; [exact Hs|]. exists []. rewrite app_nil_r. split; [reflexivity|].
      cbn; lia.
    + destruct (bs_maskgen_process _ _) as [m|]; intros E; injection E as _ <-.
      * cbn [engine goto with_engine pc processed].
        split; [destruct (mask_current c); exact Hs|].
        eexists. split; [reflexivity|]. cbn; lia.
      * cbn [engine goto pc processed].
        split; [exact Hs|]. eexists. split; [reflexivity|]. cbn; lia.
    + intros E; injection E as _ <-.
      split; [exact Hs|]. exists []. rewrite app_nil_r. split; [reflexivity|].
      cbn; lia.
    + intros E; injection E as _ <-.
      split; [exact Hs|]. exists []. rewrite app_nil_r. split; [reflexivity|].
      cbn; lia.
  - destruct d; cbn [destructor_step]; try discriminate.
    + intros E; injection E as _ <-. split; [reflexivity|].
      exists []. rewrite app_nil_r. split; [reflexivity|]. cbn; lia.
    + intros E; injection E as _ <-. split; [exact Hs|].
      exists []. rewrite app_nil_r. split; [reflexivity|]. cbn; lia.
    + intros E; injection E as _ <-.
      rewrite notify_all_engine. split; [exact Hs|].
      exists []. rewrite app_nil_r.
      unfold notify_all. destruct (pc s) eqn:P; cbn [processed pc];
        rewrite ?P; (split; [reflexivity|]); cbn; lia.
    + destruct (pc s) eqn:P; try discriminate. intros E; injection E as _ <-.
      split; [exact Hs|]. exists []. rewrite app_nil_r.
      split; [reflexivity|]. rewrite P. cbn; lia.
Qed.

Lemma play_inference (schedule : list thread) :
  forall (d d' : destructor_pc) (s s' : system),
    state (engine s) = DONE ->
    schedule_play schedule (d, s) = Some (d', s') ->
    exists extra,
      processed s' = processed s ++ extra /\
      (length extra + inference_ahead (pc s') <= inference_ahead (pc s))%nat.
Proof.
  induction schedule as [|t schedule IH]; intros d d' s s' Hs E; cbn [play] in E.
  - injection E as _ <-. exists []. rewrite app_nil_r. split; [reflexivity|].
    cbn; lia.
  - destruct (sstep t (d, s)) as [[d1 s1]|] eqn:E1; [|discriminate].
    destruct (shutdown_step_inference t d d1 s s1 Hs E1) as (Hs1 & more & P1 & B1).
    destruct (IH d1 d' s1 s' Hs1 E) as (extra & P & B).
    exists (more ++ extra). rewrite P, P1, app_assoc. split; [reflexivity|].
    rewrite length_app. lia.
Qed.

(** The worker blocked in [wait] when the destructor starts: the two
    threads can only move in one order, and they come to rest within
    eleven steps. *)
Lemma shutdown_of_blocked_worker (c : CalcMask) (log : list Mat) :
  let s := mkSystem c in_wait false log in
  let last := frame_at (frame_next c) c in
  forall schedule st,
    schedule_play schedule (at_mark_done, s) = Some st ->
    (length schedule <= 11)%nat /\
    (at_rest bs_maskgen_process st ->
     processed (snd st) = log ++ [last] /\
     match bs_maskgen_process last (mask_at (mask_current c) c) with
     | Some _ =>
         fst st = joined /\ pc (snd st) = returned /\
         new_mask (engine (snd st)) = true
     | None => fst st = at_join /\ pc (snd st) = exited
     end).
Proof.
  cbv zeta. destruct c as [st0 m1 m2 mc mo f1 f2 fc fn nf nm].
  cbn [frame_at frame_next mask_at mask_current].
  intros schedule.
  destruct fn, mc;
    cbn [frame_at frame_next mask_at mask_current frame1 frame2 mask1 mask2];
    match goal with |- context [bs_maskgen_process ?f ?m] =>
      destruct (bs_maskgen_process f m) eqn:Hinf end;
    do 12 (destruct schedule as [|t schedule];
           [ intros st E; injection E as <-; cbn [length fst snd];
             split; [lia|]; intros R;
             try (exfalso; pose proof (R worker_thread) as R1;
                  cbn in R1; rewrite ?Hinf in R1; discriminate);
             try (exfalso; pose proof (R main_thread) as R2;
                  cbn in R2; discriminate);
             cbn; repeat split; reflexivity
           | destruct t;
             cbn [play shutdown_step destructor_step worker_step fst snd
                  engine pc notified processed goto with_engine
                  store_frame set_new_frame swap_frames new_frame frame_current
                  frame_at frame_next mask_at mask_current state notify_all
                  frame1 frame2 mask1 mask2 mask_out new_mask store_mask
                  swap_masks set_new_mask set_state];
             rewrite ?Hinf;
             cbn [play shutdown_step destructor_step worker_step fst snd
                  engine pc notified processed goto with_engine
                  store_frame set_new_frame swap_frames new_frame frame_current
                  frame_at frame_next mask_at mask_current state notify_all
                  frame1 frame2 mask1 mask2 mask_out new_mask store_mask
                  swap_masks set_new_mask set_state];
             try (intros st E; discriminate) ]).
Qed.

(** A shutdown that comes to rest exists, whatever the inference
    answers. *)
Lemma shutdown_of_blocked_worker_ends (c : CalcMask) (log : list Mat) :
  exists schedule st,
    schedule_play schedule (at_mark_done, mkSystem c in_wait false log) = Some st /\
    at_rest bs_maskgen_process st.
Proof.
  destruct c as [st0 m1 m2 mc mo f1 f2 fc fn nf nm].
  destruct (bs_maskgen_process
              (frame_at fn (mkCalcMask st0 m1 m2 mc mo f1 f2 fc fn nf nm))
              (mask_at mc (mkCalcMask st0 m1 m2 mc mo f1 f2 fc fn nf nm)))
    as [m|] eqn:Hinf.
  - exists [main_thread; main_thread; main_thread;
            worker_thread; worker_thread; worker_thread; worker_thread;
            worker_thread; worker_thread; worker_thread; main_thread].
    destruct fn, mc; cbn [frame_at mask_at frame1 frame2 mask1 mask2] in Hinf;
      cbn [play shutdown_step destructor_step worker_step fst snd
           engine pc notified processed goto with_engine
           store_frame set_new_frame swap_frames new_frame frame_current
           frame_at frame_next mask_at mask_current state notify_all
           frame1 frame2 mask1 mask2 mask_out new_mask store_mask
           swap_masks set_new_mask set_state];
      rewrite Hinf;
      cbn [play shutdown_step destructor_step worker_step fst snd
           engine pc notified processed goto with_engine
           store_frame set_new_frame swap_frames new_frame frame_current
           frame_at frame_next mask_at mask_current state notify_all
           frame1 frame2 mask1 mask2 mask_out new_mask store_mask
           swap_masks set_new_mask set_state];
      (eexists; split; [reflexivity|]); intros [|]; reflexivity.
  - exists [main_thread; main_thread; main_thread;
            worker_thread; worker_thread; worker_thread; worker_thread].
    destruct fn, mc; cbn [frame_at mask_at frame1 frame2 mask1 mask2] in Hinf;
      cbn [play shutdown_step destructor_step worker_step fst snd
           engine pc notified processed goto with_engine
           store_frame set_new_frame swap_frames new_frame frame_current
           frame_at frame_next mask_at mask_current state notify_all
           frame1 frame2 mask1 mask2 mask_out new_mask store_mask
           swap_masks set_new_mask set_state];
      rewrite Hinf;
      (eexists; split; [reflexivity|]); intros [|]; reflexivity.
Qed.

(** C2 (as amended).  The worker does not look at the flag when it
    wakes.  For a worker blocked in [wait] when the destructor starts,
    the two threads can move in one order only and come to rest within
    eleven steps: the worker, woken by the destructor, exchanges the
    frame buffers, runs one more inference, on the buffer that was
    [frame_next], publishes the mask and returns at the next loop test,
    and [join] returns; if that inference fails the process exits.
    Wherever the worker stands, once the flag is [DONE] at most one more
    inference is started, whatever the interleaving.  But the
    destructor takes no lock: when its three statements fall between the
    worker's test of [new_frame] and its call of [wait], the
    notification is lost, the worker blocks with [new_frame] set, no
    thread can move any more and [join] never returns. *)
Theorem worker_after_done_signal (s : system) :
  (pc s = in_wait -> notified s = false ->
   let last := frame_at (frame_next (engine s)) (engine s) in
   (exists schedule st,
      schedule_play schedule (at_mark_done, s) = Some st /\
      at_rest bs_maskgen_process st) /\
   (forall schedule st,
      schedule_play schedule (at_mark_done, s) = Some st ->
      (length schedule <= 11)%nat /\
      (at_rest bs_maskgen_process st ->
       processed (snd st) = processed s ++ [last] /\
       match bs_maskgen_process last
               (mask_at (mask_current (engine s)) (engine s)) with
       | Some _ =>
           fst st = joined /\ pc (snd st) = returned /\
           new_mask (engine (snd st)) = true
       | None => fst st = at_join /\ pc (snd st) = exited
       end))) /\
  (state (engine s) = DONE ->
   forall schedule d d' s',
     schedule_play schedule (d, s) = Some (d', s') ->
     exists extra,
       processed s' = processed s ++ extra /\ (length extra <= 1)%nat) /\
  (pc s = at_wait_call ->
   exists st,
     schedule_play [main_thread; main_thread; main_thread; worker_thread]
       (at_mark_done, s) = Some st /\
     at_rest bs_maskgen_process st /\
     fst st = at_join /\ pc (snd st) = in_wait /\
     state (engine (snd st)) = DONE /\ new_frame (engine (snd st)) = true /\
     processed (snd st) = processed s).
Proof.
  split; [|split].
  - destruct s as [c w n log]; cbn [pc notified engine processed].
    intros -> ->. cbv zeta. split.
    + apply shutdown_of_blocked_worker_ends.
    + apply shutdown_of_blocked_worker.
  - intros Hs schedule d d' s' E.
    destruct (play_inference schedule d d' s s' Hs E) as (extra & P & B).
    exists extra. split; [exact P|].
    assert (inference_ahead (pc s) <= 1)%nat by (destruct (pc s); cbn; lia).
    lia.
  - destruct s as [c w n log]; cbn [pc]. intros ->.
    eexists. split; [reflexivity|].
    split; [intros [|]; reflexivity|].
    repeat split; reflexivity.
Qed.

End Engine.

Section EngineExamples.

Import MaskEngine.

Lemma get_output_mask_keeps_buffer_when_no_inference_completed_witness :
  let infer := fun _ mask : Mat => Some mask in
  let frame := mkMat 1 2 CV_8UC3 [1; 2; 3; 4; 5; 6] in
  let out := mkMat 1 2 CV_8UC1 [255; 0] in
  let submitted :=
    notify_all (with_engine
      (set_new_frame true
         (store_frame (frame_next (engine construct)) frame (engine construct)))
      construct) in
  just_fetched construct /\
  no_completion infer construct submitted /\
  get_output_mask out submitted = Some (submitted, out).
Proof.
  cbv zeta.
  assert (J : just_fetched construct) by (left; reflexivity).
  assert (R : no_completion (fun _ mask : Mat => Some mask) construct
                (notify_all (with_engine
                   (set_new_frame true
                      (store_frame (frame_next (engine construct))
                         (mkMat 1 2 CV_8UC3 [1; 2; 3; 4; 5; 6]) (engine construct)))
                   construct))).
  { eapply nc_submit; [apply nc_here | reflexivity]. }
  split; [exact J|]. split; [exact R|].
  exact (get_output_mask_keeps_buffer_when_no_inference_completed
           (fun _ mask : Mat => Some mask) construct _
           (mkMat 1 2 CV_8UC1 [255; 0]) J R).
Defined.

Lemma input_mailbox_latest_frame_wins_witness :
  let infer := fun _ mask : Mat => Some mask in
  let waiting := run_worker infer 4 construct in
  let F1 := mkMat 1 1 CV_8UC3 [1; 1; 1] in
  let F2 := mkMat 1 1 CV_8UC3 [2; 2; 2] in
  pc waiting = in_wait /\
  exists s1 s2,
    set_input_frame F1 waiting = Some s1 /\
    set_input_frame F2 s1 = Some s2 /\
    processed (run_worker infer 9 s2) = processed waiting ++ [F2].
Proof.
  cbv zeta.
  assert (P : pc (run_worker (fun _ mask : Mat => Some mask) 4 construct) = in_wait)
    by reflexivity.
  split; [exact P|].
  destruct (proj2 (input_mailbox_latest_frame_wins (fun _ mask : Mat => Some mask)
                     (run_worker (fun _ mask : Mat => Some mask) 4 construct)
                     (mkMat 1 1 CV_8UC3 [1; 1; 1]) (mkMat 1 1 CV_8UC3 [2; 2; 2]) P))
    as (s1 & s2 & E1 & E2 & _ & R).
  exists s1, s2. split; [exact E1|]. split; [exact E2|].
  exact (proj1 (R 9%nat (le_n 9))).
Defined.

Lemma worker_after_done_signal_witness :
  let infer := fun _ mask : Mat => Some mask in
  let waiting := run_worker infer 4 construct in
  let final :=
    (joined,
     mkSystem
       (mkCalcMask DONE Mat_empty Mat_empty buf2 buf1
          Mat_empty Mat_empty buf1 buf2 false true)
       returned false [Mat_empty]) in
  pc waiting = in_wait /\ notified waiting = false /\
  play infer
    [main_thread; main_thread; main_thread;
     worker_thread; worker_thread; worker_thread; worker_thread;
     worker_thread; worker_thread; worker_thread; main_thread]
    (at_mark_done, waiting) = Some final /\
  at_rest infer final /\
  processed (snd final) = processed waiting ++ [Mat_empty] /\
  fst final = joined /\ pc (snd final) = returned.
Proof.
  cbv zeta.
  change (run_worker (fun _ mask : Mat => Some mask) 4 construct)
    with (mkSystem (engine construct) in_wait false []).
  assert (P : pc (mkSystem (engine construct) in_wait false []) = in_wait)
    by reflexivity.
  assert (N : notified (mkSystem (engine construct) in_wait false []) = false)
    by reflexivity.
  assert (E : play (fun _ mask : Mat => Some mask)
                [main_thread; main_thread; main_thread;
                 worker_thread; worker_thread; worker_thread; worker_thread;
                 worker_thread; worker_thread; worker_thread; main_thread]
                (at_mark_done, mkSystem (engine construct) in_wait false [])
              = Some (joined,
                      mkSystem
                        (mkCalcMask DONE Mat_empty Mat_empty buf2 buf1
                           Mat_empty Mat_empty buf1 buf2 false true)
                        returned false [Mat_empty]))
    by reflexivity.
  assert (R : at_rest (fun _ mask : Mat => Some mask)
                (joined,
                 mkSystem
                   (mkCalcMask DONE Mat_empty Mat_empty buf2 buf1
                      Mat_empty Mat_empty buf1 buf2 false true)
                   returned false [Mat_empty]))
    by (intros [|]; reflexivity).
  split; [exact P|]. split; [exact N|]. split; [exact E|]. split; [exact R|].
  pose proof (proj2 (proj2 (proj1 (worker_after_done_signal
                                      (fun _ mask : Mat => Some mask)
                                      (mkSystem (engine construct) in_wait false []))
                               P N)
                            _ _ E) R) as F.
  split; [exact (proj1 F)|].
  split; [exact (proj1 (proj2 F)) | exact (proj1 (proj2 (proj2 F)))].
Defined.

(** C2 as stated fails.  An engine just built, its worker blocked in
    [wait] and no frame ever submitted.  The destructor sets the flag,
    forces [new_frame] and notifies: the worker wakes, and its next
    steps are the test of [new_frame], the exchange of the frame buffers
    and a call of [bs_maskgen_process] (here on the empty, never-filled
    frame): an inference is started after the stop signal, and only
    after it does the worker see the flag and return. *)
Lemma worker_starts_inference_after_done_signal :
  let infer := fun _ mask : Mat => Some mask in
  let waiting := run_worker infer 4 construct in
  pc waiting = in_wait /\ worker_step infer waiting = None /\
  processed waiting = [] /\
  exists stopped,
    play infer [main_thread; main_thread; main_thread] (at_mark_done, waiting)
      = Some (at_join, stopped) /\
    state (engine stopped) = DONE /\
    map pc [run_worker infer 1 stopped; run_worker infer 2 stopped;
            run_worker infer 3 stopped; run_worker infer 4 stopped;
            run_worker infer 5 stopped; run_worker infer 6 stopped;
            run_worker infer 7 stopped]
      = [at_new_frame_test; at_frame_swap; at_process; at_lock_mask; at_mask_swap;
         at_loop_test; returned] /\
    processed (run_worker infer 4 stopped) = [Mat_empty] /\
    processed (run_worker infer 7 stopped) <> processed waiting.
Proof.
  cbv zeta. split; [reflexivity|]. split; [reflexivity|]. split; [reflexivity|].
  eexists. split; [reflexivity|]. split; [reflexivity|]. split; [reflexivity|].
  split; [reflexivity|]. vm_compute. discriminate.
Qed.

End EngineExamples.

(** * Further properties of the code *)

(** ** Device life cycle *)

Section DeviceLifeCycle.

Import Loopback.

(** X1.  [loopback_init] is all or nothing.  When the four system calls
    succeed it returns the descriptor, having issued exactly open,
    QUERYCAP, S_FMT at the requested geometry and STREAMON, and leaves
    the device open and streaming; it has printed nothing when [debug]
    is 0, and otherwise the nine lines of [print_format] for the format
    as the driver left it.  In every other case it returns -1 with one
    line of diagnostics, whatever [debug] is, leaves the descriptor
    closed and the device not streaming, and its last call, once the
    device was open, is close. *)
Theorem loopback_init_all_or_nothing (k : kernel) (w h debug : Z) :
  (0 <= open_ret k /\ 0 <= querycap_ret k /\ 0 <= s_fmt_ret k /\
   0 <= streamon_ret k /\
   loopback_init k w h debug fresh_process =
     (open_ret k,
      mkProcess true true
        [sys_open; sys_ioctl_QUERYCAP; sys_ioctl_S_FMT w h; sys_ioctl_STREAMON]
        (if debug =? 0 then []
         else print_format (s_fmt_driver k (requested_format w h))))) \/
  ((open_ret k < 0 \/ querycap_ret k < 0 \/ s_fmt_ret k < 0 \/ streamon_ret k < 0) /\
   fst (loopback_init k w h debug fresh_process) = -1 /\
   fd_open (snd (loopback_init k w h debug fresh_process)) = false /\
   streaming (snd (loopback_init k w h debug fresh_process)) = false /\
   length (stderr (snd (loopback_init k w h debug fresh_process))) = 1%nat /\
   (0 <= open_ret k ->
    last (calls (snd (loopback_init k w h debug fresh_process))) sys_open
      = sys_close)).
Proof.
  unfold loopback_init.
  destruct (open_ret k <? 0) eqn:E0.
  { right. apply Z.ltb_lt in E0. cbn. repeat split; auto; lia. }
  apply Z.ltb_ge in E0.
  destruct (querycap_ret k <? 0) eqn:E1.
  { right. apply Z.ltb_lt in E1. cbn. repeat split; auto. }
  apply Z.ltb_ge in E1.
  destruct (s_fmt_ret k <? 0) eqn:E2.
  { right. apply Z.ltb_lt in E2. cbn. repeat split; auto. }
  apply Z.ltb_ge in E2.
  destruct (streamon_ret k <? 0) eqn:E3.
  { right. apply Z.ltb_lt in E3. cbn. repeat split; auto 6. }
  apply Z.ltb_ge in E3.
  left. destruct (debug =? 0); repeat split; assumption.
Qed.

(** X2.  A device opened by [loopback_init] and released by
    [loopback_free], all six system calls succeeding: [loopback_free]
    returns 0 and prints nothing, so that [stderr] holds nothing when
    [debug] is 0 and the lines of [print_format] otherwise; the calls
    are STREAMOFF then close after the four of the opening, and the
    descriptor ends closed with streaming off. *)
Theorem loopback_init_then_free (k : kernel) (w h debug : Z) :
  0 <= open_ret k -> 0 <= querycap_ret k -> 0 <= s_fmt_ret k ->
  0 <= streamon_ret k -> 0 <= streamoff_ret k -> 0 <= close_ret k ->
  loopback_free k (snd (loopback_init k w h debug fresh_process)) =
    (0, mkProcess false false
          [sys_open; sys_ioctl_QUERYCAP; sys_ioctl_S_FMT w h; sys_ioctl_STREAMON;
           sys_ioctl_STREAMOFF; sys_close]
          (if debug =? 0 then []
           else print_format (s_fmt_driver k (requested_format w h)))).
Proof.
  intros H0 H1 H2 H3 H4 H5. unfold loopback_init, loopback_free.
  replace (open_ret k <? 0) with false by (symmetry; apply Z.ltb_ge; lia).
  replace (querycap_ret k <? 0) with false by (symmetry; apply Z.ltb_ge; lia).
  replace (s_fmt_ret k <? 0) with false by (symmetry; apply Z.ltb_ge; lia).
  replace (streamon_ret k <? 0) with false by (symmetry; apply Z.ltb_ge; lia).
  destruct (debug =? 0); cbn [snd];
    replace (streamoff_ret k <? 0) with false by (symmetry; apply Z.ltb_ge; lia);
    replace (close_ret k <? 0) with false by (symmetry; apply Z.ltb_ge; lia);
    reflexivity.
Qed.

Lemma loopback_init_then_free_witness :
  loopback_free (mkKernel 3 0 0 0 0 0 (fun vid_format => vid_format))
    (snd (loopback_init (mkKernel 3 0 0 0 0 0 (fun vid_format => vid_format))
            640 480 1 fresh_process)) =
    (0, mkProcess false false
          [sys_open; sys_ioctl_QUERYCAP; sys_ioctl_S_FMT 640 480; sys_ioctl_STREAMON;
           sys_ioctl_STREAMOFF; sys_close]
          [ "vid_format->type                = 2";
            "vid_format->fmt.pix.width       = 640";
            "vid_format->fmt.pix.height      = 480";
            "vid_format->fmt.pix.pixelformat = 1448695129";
            "vid_format->fmt.pix.sizeimage   = 614400";
            "vid_format->fmt.pix.field       = 1";
            "vid_format->fmt.pix.bytesperline= 1280";
            "vid_format->fmt.pix.colorspace  = 8";
            EmptyString ]%string).
Proof.
  apply (loopback_init_then_free
           (mkKernel 3 0 0 0 0 0 (fun vid_format => vid_format)) 640 480 1);
    cbn [open_ret querycap_ret s_fmt_ret streamon_ret streamoff_ret close_ret]; lia.
Defined.

(** [loopback_free] returns 0 exactly when STREAMOFF and close both
    succeed; it prints a line exactly when it returns -1; and a failing
    close still releases the descriptor and stops the stream. *)
Lemma loopback_free_result (k : kernel) (p : process) :
  (fst (loopback_free k p) = 0 <-> 0 <= streamoff_ret k /\ 0 <= close_ret k) /\
  (fst (loopback_free k p) = 0 \/ fst (loopback_free k p) = -1) /\
  (fst (loopback_free k p) = 0 -> stderr (snd (loopback_free k p)) = stderr p) /\
  (fst (loopback_free k p) = -1 ->
   length (stderr (snd (loopback_free k p))) = S (length (stderr p))) /\
  (0 <= streamoff_ret k -> close_ret k < 0 ->
   fd_open (snd (loopback_free k p)) = false /\
   streaming (snd (loopback_free k p)) = false).
Proof.
  unfold loopback_free.
  destruct (streamoff_ret k <? 0) eqn:E0;
    [apply Z.ltb_lt in E0 | apply Z.ltb_ge in E0];
    [|destruct (close_ret k <? 0) eqn:E1;
      [apply Z.ltb_lt in E1 | apply Z.ltb_ge in E1]];
    cbn [fst snd stderr report close set_fd_open set_streaming do_call fd_open
         streaming];
    rewrite ?length_app; cbn [length];
    repeat split; intros; try lia; auto; try discriminate.
Qed.

End DeviceLifeCycle.

(** ** The write loop on whole frames *)

Section WholeFrames.

Import Loopback.

Variable sys_write : nat -> Z -> Z.

(** The byte count [main] computes for a well-formed frame is the length
    of its buffer. *)
Lemma framesize_is_buffer_length (frame : Mat) :
  Mat_wf frame ->
  rows frame * cols frame * channels (type frame) <= INT_MAX ->
  int_cast (cols frame * channels (type frame) * rows frame)
    = Z.of_nat (length (data frame)).
Proof.
  intros W Hmax. rewrite (wf_size _ W).
  replace (cols frame * channels (type frame) * rows frame)
    with (rows frame * cols frame * channels (type frame)) by lia.
  apply int_cast_id. unfold in_int, INT_MIN, INT_MAX in *.
  pose proof (wf_size _ W). lia.
Qed.

(** With a device that never takes more than it is offered, the loop
    reports success only once it has been credited with the whole
    count. *)
Lemma write_loop_no_short_success :
  (forall n count, sys_write n count <= count) ->
  forall fuel n buf framesize wire wire',
    0 <= framesize <= Z.of_nat (length buf) ->
    write_loop sys_write fuel n buf framesize wire = Written wire' ->
    Z.of_nat (length wire') = Z.of_nat (length wire) + framesize.
Proof.
  intros Hw. induction fuel as [|fuel IH]; intros n buf framesize wire wire' Hf E;
    cbn [write_loop] in E.
  - destruct (0 <? framesize) eqn:E0; [discriminate|].
    apply Z.ltb_ge in E0. injection E as <-. lia.
  - destruct (0 <? framesize) eqn:E0.
    + apply Z.ltb_lt in E0.
      destruct (sys_write n framesize <=? 0) eqn:E1; [discriminate|].
      apply Z.leb_gt in E1. specialize (Hw n framesize).
      apply IH in E; [|lia].
      rewrite E, length_app, length_firstn. lia.
    + apply Z.ltb_ge in E0. injection E as <-. lia.
Qed.

(** X4.  For a well-formed frame and a device that at each call takes at
    least one byte and at most what it is offered, the write loop ends
    within as many calls as the frame has bytes, reports success, and the
    device has then received exactly as many bytes as the frame holds;
    more fuel changes nothing. *)
Theorem write_frame_terminates (frame : Mat) :
  (forall n count, 0 < count -> 0 < sys_write n count <= count) ->
  Mat_wf frame ->
  rows frame * cols frame * channels (type frame) <= INT_MAX ->
  forall fuel, (length (data frame) <= fuel)%nat ->
    exists wire,
      write_frame sys_write fuel frame = Written wire /\
      length wire = length (data frame).
Proof.
  intros Hw W Hmax fuel Hfuel. unfold write_frame.
  rewrite framesize_is_buffer_length by assumption.
  destruct (write_loop_terminates_with_count sys_write Hw fuel 0 (data frame)
              (Z.of_nat (length (data frame))) []) as (wire & E & L);
    [lia | lia |].
  exists wire. split; [exact E|]. cbn [length] in L. lia.
Qed.

(** X5.  The write loop never reports a frame as written short: if the
    device never takes more than it is offered, a result [Written] means
    that the counts returned add up to the whole frame size.  A return
    of zero or less at the first call is fatal with nothing sent. *)
Theorem write_frame_success_is_complete (frame : Mat) (fuel : nat) (wire : list Z) :
  (forall n count, sys_write n count <= count) ->
  Mat_wf frame ->
  rows frame * cols frame * channels (type frame) <= INT_MAX ->
  (write_frame sys_write fuel frame = Written wire ->
   length wire = length (data frame)) /\
  (data frame <> [] ->
   sys_write 0%nat (Z.of_nat (length (data frame))) <= 0 ->
   write_frame sys_write (S fuel) frame = WriteFatal []).
Proof.
  intros Hw W Hmax. unfold write_frame.
  rewrite framesize_is_buffer_length by assumption. split.
  - intros E. apply write_loop_no_short_success in E; [|exact Hw|lia].
    cbn [length] in E. lia.
  - intros Hne Hfail. apply write_loop_hard_failure; [|exact Hfail].
    destruct (data frame); [congruence | cbn [length]; lia].
Qed.

(** X6.  When the device takes the whole frame at the first call, what it
    has received is the frame, byte for byte. *)
Theorem write_frame_single_call (frame : Mat) (fuel : nat) :
  Mat_wf frame ->
  rows frame * cols frame * channels (type frame) <= INT_MAX ->
  sys_write 0%nat (Z.of_nat (length (data frame))) = Z.of_nat (length (data frame)) ->
  write_frame sys_write (S (S fuel)) frame = Written (data frame).
Proof.
  intros W Hmax H. unfold write_frame.
  rewrite framesize_is_buffer_length by assumption.
  now apply write_loop_single_call.
Qed.

End WholeFrames.

Section WholeFramesExamples.

Import Loopback.

Lemma packed_pair_wf : Mat_wf (mkMat 1 2 CV_8UC2 [100; 127; 101; 129]).
Proof.
  constructor; cbn [rows cols type data channels length];
    [ lia | lia | reflexivity | repeat constructor; unfold is_byte; lia ].
Defined.

Lemma write_frame_terminates_witness :
  exists wire,
    write_frame (fun _ count => Z.min count 3) 4
      (mkMat 1 2 CV_8UC2 [100; 127; 101; 129]) = Written wire /\
    length wire = 4%nat.
Proof.
  apply (write_frame_terminates (fun _ count => Z.min count 3)
           (mkMat 1 2 CV_8UC2 [100; 127; 101; 129])).
  - intros n count Hc. cbv beta. lia.
  - exact packed_pair_wf.
  - cbn. unfold INT_MAX. lia.
  - cbn. lia.
Defined.

Lemma write_frame_success_is_complete_witness :
  write_frame (fun _ count => Z.min count 3) 4
    (mkMat 1 2 CV_8UC2 [100; 127; 101; 129]) = Written [100; 127; 101; 100] /\
  length [100; 127; 101; 100] = length [100; 127; 101; 129].
Proof.
  split; [reflexivity|].
  exact (proj1 (write_frame_success_is_complete (fun _ count => Z.min count 3)
                  (mkMat 1 2 CV_8UC2 [100; 127; 101; 129]) 4
                  [100; 127; 101; 100]
                  (fun _ count => Z.le_min_l count 3)
                  packed_pair_wf
                  ltac:(cbn; unfold INT_MAX; lia)) eq_refl).
Defined.

Lemma write_frame_single_call_witness :
  write_frame (fun _ count => count) 2 (mkMat 1 2 CV_8UC2 [100; 127; 101; 129])
    = Written [100; 127; 101; 129].
Proof.
  apply (write_frame_single_call (fun _ count => count)
           (mkMat 1 2 CV_8UC2 [100; 127; 101; 129]) 0 packed_pair_wf).
  - cbn. unfold INT_MAX. lia.
  - reflexivity.
Defined.

End WholeFramesExamples.

(** ** More on blending *)

Section BlendFacts.

Import Compositor.

Lemma blend_byte_is_byte (a b aw bw : Z) : is_byte (blend_byte a b aw bw).
Proof.
  unfold blend_byte, uint8_t, is_byte. apply Z.mod_pos_bound. lia.
Qed.

Lemma blend_loop_bytes (n : nat) :
  forall aptr bptr mptr, Forall is_byte (blend_loop n aptr bptr mptr).
Proof.
  induction n as [|n IH]; intros; cbn [blend_loop]; [constructor|].
  repeat (constructor; [apply blend_byte_is_byte|]). apply IH.
Qed.

(** X7.  Whenever [alpha_blend] returns, that is whenever the seven
    assertions hold, the result is a well-formed three-channel image of
    the geometry of the first source: three bytes per pixel, every one in
    0..255, whatever the contents of the sources and of the mask. *)
Theorem alpha_blend_result_is_well_formed (srca srcb mask out : Mat) :
  0 <= rows srca -> 0 <= cols srca ->
  alpha_blend srca srcb mask = Some out ->
  Mat_wf out /\ rows out = rows srca /\ cols out = cols srca /\
  type out = CV_8UC3 /\ rows out = rows mask /\ cols out = cols mask.
Proof.
  intros Hr Hc. unfold alpha_blend.
  destruct (blend_asserts srca srcb mask) eqn:A; [|discriminate].
  intros E; injection E as <-.
  unfold blend_asserts in A.
  repeat (apply andb_prop in A; destruct A as [A ?]).
  assert (T : type srca = CV_8UC3) by (destruct (type srca); try discriminate; reflexivity).
  repeat match goal with H : (_ =? _) = true |- _ => apply Z.eqb_eq in H end.
  cbn [rows cols type data].
  split; [|repeat split; congruence].
  constructor; cbn [rows cols type data].
  - assumption.
  - assumption.
  - rewrite length_app, length_skipn, repeat_length, blend_loop_length, T.
    cbn [channels].
    pose proof (int_cast_le (rows srca * cols srca) ltac:(nia)). nia.
  - apply Forall_app. split; [apply blend_loop_bytes|].
    apply Forall_forall. intros x Hx.
    assert (Hz : In x (repeat 0 (Z.to_nat (rows srca * cols srca * channels (type srca))))).
    { rewrite <- (firstn_skipn
                   (length (blend_loop (Z.to_nat (int_cast (rows srca * cols srca)))
                              (data srca) (data srcb) (data mask)))).
      apply in_or_app. right. exact Hx. }
    apply repeat_spec in Hz. subst x. unfold is_byte; lia.
Qed.

Lemma alpha_blend_result_is_well_formed_witness :
  exists out,
    alpha_blend (mkMat 1 1 CV_8UC3 [0; 255; 0]) (mkMat 1 1 CV_8UC3 [10; 20; 30])
      (mkMat 1 1 CV_8UC1 [128]) = Some out /\ Mat_wf out.
Proof.
  eexists. split; [reflexivity|].
  exact (proj1 (alpha_blend_result_is_well_formed
           (mkMat 1 1 CV_8UC3 [0; 255; 0]) (mkMat 1 1 CV_8UC3 [10; 20; 30])
           (mkMat 1 1 CV_8UC1 [128]) _
           ltac:(cbn; lia) ltac:(cbn; lia) eq_refl)).
Defined.

Lemma weighted_mean_between (a b w : Z) :
  is_byte a -> is_byte b -> is_byte w ->
  Z.min a b <= Z.quot (a * w + b * (255 - w)) 255 <= Z.max a b.
Proof.
  unfold is_byte. intros Ha Hb Hw.
  rewrite Z.quot_div_nonneg by nia.
  split.
  - apply Z.div_le_lower_bound; [lia|].
    destruct (Z.min_spec a b) as [[? ->]|[? ->]]; nia.
  - apply Z.div_le_upper_bound; [lia|].
    destruct (Z.max_spec a b) as [[? ->]|[? ->]]; nia.
Qed.

(** X8.  Blending never overshoots: for images whose pixel count fits
    an [int], every byte of the result lies between the corresponding
    bytes of the two sources. *)
Theorem alpha_blend_stays_between_sources (srca srcb mask out : Mat) (i : nat) :
  blend_inputs srca srcb mask ->
  rows srca * cols srca <= INT_MAX ->
  alpha_blend srca srcb mask = Some out ->
  (i < length (data out))%nat ->
  Z.min (nth i (data srca) 0) (nth i (data srcb) 0) <= nth i (data out) 0
    <= Z.max (nth i (data srca) 0) (nth i (data srcb) 0).
Proof.
  intros I Hmax. pose proof (blend_inputs_asserts _ _ _ I) as A.
  destruct I as [Wa Wb Wm _ _ _ _ Ta _ _].
  pose proof (wf_rows _ Wa) as R0. pose proof (wf_cols _ Wa) as C0.
  rewrite (alpha_blend_fills srca srcb mask) by (auto; nia).
  intros E; injection E as <-.
  cbn [data]. rewrite blend_loop_length. intros Hi.
  pose proof (Nat.div_mod_eq i 3) as D.
  pose proof (Nat.mod_upper_bound i 3 ltac:(lia)) as M.
  rewrite D.
  rewrite blend_loop_nth by lia.
  rewrite blend_byte_exact by (apply wf_nth_byte; assumption).
  apply weighted_mean_between; apply wf_nth_byte; assumption.
Qed.

(** X9.  Blending an image whose pixel count fits an [int] with itself
    gives it back, whatever the mask. *)
Theorem alpha_blend_same_source (src mask : Mat) :
  blend_inputs src src mask ->
  rows src * cols src <= INT_MAX ->
  alpha_blend src src mask = Some src.
Proof.
  intros I Hmax. pose proof (blend_inputs_asserts _ _ _ I) as A.
  destruct I as [W _ Wm _ _ Hrm Hcm T _ Tm].
  pose proof (wf_rows _ W) as R0. pose proof (wf_cols _ W) as C0.
  rewrite (alpha_blend_fills src src mask) by (auto; nia).
  destruct src as [r c t d]; cbn [rows cols type data] in *. subst t.
  f_equal. f_equal.
  apply nth_ext with (d := 0) (d' := 0).
  - rewrite blend_loop_length. pose proof (wf_pixels _ W) as L.
    cbn [rows cols type data channels] in L. rewrite L.
    pose proof (wf_rows _ W). pose proof (wf_cols _ W).
    cbn [rows cols] in *. nia.
  - rewrite blend_loop_length. intros i Hi.
    pose proof (Nat.div_mod_eq i 3) as D.
    pose proof (Nat.mod_upper_bound i 3 ltac:(lia)) as M.
    rewrite D.
    rewrite blend_loop_nth by lia.
    set (j := (3 * (i / 3) + i mod 3)%nat).
    assert (Ba : is_byte (nth j d 0)) by (apply (wf_nth_byte _ j W)).
    assert (Bm : is_byte (nth (i / 3) (data mask) 0)) by (apply wf_nth_byte, Wm).
    rewrite blend_byte_exact by assumption.
    replace (nth j d 0 * nth (i / 3) (data mask) 0 +
             nth j d 0 * (255 - nth (i / 3) (data mask) 0))
      with (nth j d 0 * 255) by lia.
    apply Z.quot_mul. lia.
Qed.

End BlendFacts.

Section BlendFactsExamples.

Import Compositor.

Lemma example_blend_inputs (a b : list Z) (m : Z) :
  Forall is_byte a -> Forall is_byte b -> is_byte m ->
  length a = 3%nat -> length b = 3%nat ->
  blend_inputs (mkMat 1 1 CV_8UC3 a) (mkMat 1 1 CV_8UC3 b) (mkMat 1 1 CV_8UC1 [m]).
Proof.
  intros Fa Fb Bm La Lb.
  constructor; cbn [rows cols type data]; try reflexivity;
    constructor; cbn [rows cols type data channels length]; try lia; auto.
Defined.

Lemma three_bytes (x y z : Z) :
  is_byte x -> is_byte y -> is_byte z -> Forall is_byte [x; y; z].
Proof.
  intros Hx Hy Hz.
  exact (Forall_cons x Hx (Forall_cons y Hy (Forall_cons z Hz (Forall_nil _)))).
Defined.

Lemma byte_0 : is_byte 0. Proof. unfold is_byte; lia. Defined.
Lemma byte_10 : is_byte 10. Proof. unfold is_byte; lia. Defined.
Lemma byte_20 : is_byte 20. Proof. unfold is_byte; lia. Defined.
Lemma byte_30 : is_byte 30. Proof. unfold is_byte; lia. Defined.
Lemma byte_128 : is_byte 128. Proof. unfold is_byte; lia. Defined.
Lemma byte_255 : is_byte 255. Proof. unfold is_byte; lia. Defined.

Lemma one_pixel_fits : 1 * 1 <= INT_MAX.
Proof. unfold INT_MAX; lia. Defined.

Lemma alpha_blend_stays_between_sources_witness :
  Z.min 255 20 <= nth 1 [4; 137; 14] 0 <= Z.max 255 20.
Proof.
  exact (alpha_blend_stays_between_sources
           (mkMat 1 1 CV_8UC3 [0; 255; 0]) (mkMat 1 1 CV_8UC3 [10; 20; 30])
           (mkMat 1 1 CV_8UC1 [128]) (mkMat 1 1 CV_8UC3 [4; 137; 14]) 1
           (example_blend_inputs [0; 255; 0] [10; 20; 30] 128
              (three_bytes _ _ _ byte_0 byte_255 byte_0)
              (three_bytes _ _ _ byte_10 byte_20 byte_30) byte_128 eq_refl eq_refl)
           one_pixel_fits eq_refl ltac:(cbn; lia)).
Defined.

Lemma alpha_blend_same_source_witness :
  alpha_blend (mkMat 1 1 CV_8UC3 [10; 20; 30]) (mkMat 1 1 CV_8UC3 [10; 20; 30])
    (mkMat 1 1 CV_8UC1 [128]) = Some (mkMat 1 1 CV_8UC3 [10; 20; 30]).
Proof.
  exact (alpha_blend_same_source (mkMat 1 1 CV_8UC3 [10; 20; 30])
           (mkMat 1 1 CV_8UC1 [128])
           (example_blend_inputs [10; 20; 30] [10; 20; 30] 128
              (three_bytes _ _ _ byte_10 byte_20 byte_30)
              (three_bytes _ _ _ byte_10 byte_20 byte_30) byte_128 eq_refl eq_refl)
           one_pixel_fits).
Defined.

End BlendFactsExamples.

(** ** More on packing *)

Section PackFacts.

Import Compositor.

Variable cvtColor_RGB2YUV : Mat -> Mat.

Lemma split3_bytes (bytes : list Z) :
  Forall is_byte bytes ->
  let '(p0, p1, p2) := split3 bytes in
  Forall is_byte p0 /\ Forall is_byte p1 /\ Forall is_byte p2.
Proof.
  assert (G : forall n l, (length l <= n)%nat -> Forall is_byte l ->
              let '(p0, p1, p2) := split3 l in
              Forall is_byte p0 /\ Forall is_byte p1 /\ Forall is_byte p2).
  { induction n as [|n IH]; intros l Hl F.
    - destruct l; [|cbn [length] in Hl; lia]. cbn. repeat split; constructor.
    - destruct l as [|c0 [|c1 [|c2 rest]]]; cbn [split3];
        try (repeat split; constructor).
      inversion F as [|? ? B0 F0]; subst. inversion F0 as [|? ? B1 F1]; subst.
      inversion F1 as [|? ? B2 F2]; subst.
      specialize (IH rest ltac:(cbn [length] in Hl; lia) F2).
      destruct (split3 rest) as [[p0 p1] p2]. destruct IH as (I0 & I1 & I2).
      repeat split; constructor; assumption. }
  apply (G (length bytes)). lia.
Qed.

Lemma nth_byte (l : list Z) (i : nat) : Forall is_byte l -> is_byte (nth i l 0).
Proof.
  intros F. destruct (Nat.lt_ge_cases i (length l)) as [Hi|Hi].
  - rewrite Forall_forall in F. apply F, nth_In, Hi.
  - rewrite nth_overflow by exact Hi. unfold is_byte; lia.
Qed.

Lemma halved_sum_between (a b : Z) :
  Z.min a b <= (a + b) / 2 <= Z.max a b.
Proof.
  split.
  - apply Z.div_le_lower_bound; lia.
  - apply Z.div_le_upper_bound; lia.
Qed.

(** Every byte of the image returned is a byte. *)
Lemma convert_rgb_to_yuyv_bytes (input : Mat) (fuel : nat) (out : Mat) :
  let tmp := cvtColor_RGB2YUV input in
  Mat_wf tmp -> type tmp = CV_8UC3 ->
  Z.even (total tmp) = true -> total tmp <= INT_MAX ->
  (Z.to_nat (total tmp / 2) < fuel)%nat ->
  convert_rgb_to_yuyv cvtColor_RGB2YUV fuel input = Returned out ->
  Forall is_byte (data out).
Proof.
  intros tmp W T Ev Hmax Hfuel E.
  destruct (convert_rgb_to_yuyv_returns cvtColor_RGB2YUV input fuel W T Ev Hmax Hfuel)
    as (out' & E' & _ & _ & _ & L & Pairs).
  fold tmp in L, Pairs. rewrite E in E'. injection E' as <-.
  apply Forall_nth. intros i d Hi.
  rewrite (nth_indep _ d 0 Hi).
  apply Z.even_spec in Ev. destruct Ev as [half Eh].
  pose proof (Nat.div_mod_eq i 4) as D.
  pose proof (Nat.mod_upper_bound i 4 ltac:(lia)) as M.
  destruct (Pairs (i / 4)%nat ltac:(lia)) as (E0 & E1 & E2 & E3).
  assert (Hb : forall a b, is_byte a -> is_byte b -> is_byte ((a + b) / 2)).
  { unfold is_byte. intros a b Ha Hb. split.
    - apply Z.div_pos; lia.
    - apply Z.div_lt_upper_bound; lia. }
  rewrite D.
  destruct (i mod 4)%nat as [|[|[|[|r]]]]; try lia.
  - rewrite Nat.add_0_r, E0. apply wf_nth_byte, W.
  - rewrite E1. apply Hb; apply wf_nth_byte, W.
  - rewrite E2. apply wf_nth_byte, W.
  - rewrite E3. apply Hb; apply wf_nth_byte, W.
Qed.

(** X10.  In an image with an even number of pixels, at most [INT_MAX]
    of them, the chroma shared by a pair of pixels lies between the
    pair's two values, for U and for V; so a pair whose two pixels have
    the same chroma keeps it exactly, and the packing loses colour only
    where adjacent pixels differ. *)
Theorem shared_chroma_between_pair (input : Mat) (fuel k : nat) :
  let tmp := cvtColor_RGB2YUV input in
  let U j := nth (3 * j + 1) (data tmp) 0 in
  let V j := nth (3 * j + 2) (data tmp) 0 in
  Mat_wf tmp -> type tmp = CV_8UC3 ->
  Z.even (total tmp) = true -> total tmp <= INT_MAX ->
  (Z.to_nat (total tmp / 2) < fuel)%nat ->
  2 * Z.of_nat k + 1 < total tmp ->
  exists out,
    convert_rgb_to_yuyv cvtColor_RGB2YUV fuel input = Returned out /\
    Z.min (V (2 * k)%nat) (V (2 * k + 1)%nat) <= nth (4 * k + 1) (data out) 0
      <= Z.max (V (2 * k)%nat) (V (2 * k + 1)%nat) /\
    Z.min (U (2 * k)%nat) (U (2 * k + 1)%nat) <= nth (4 * k + 3) (data out) 0
      <= Z.max (U (2 * k)%nat) (U (2 * k + 1)%nat) /\
    (V (2 * k)%nat = V (2 * k + 1)%nat ->
     nth (4 * k + 1) (data out) 0 = V (2 * k)%nat) /\
    (U (2 * k)%nat = U (2 * k + 1)%nat ->
     nth (4 * k + 3) (data out) 0 = U (2 * k)%nat).
Proof.
  intros tmp U V W T Ev Hmax Hfuel Hk.
  destruct (convert_rgb_to_yuyv_returns cvtColor_RGB2YUV input fuel W T Ev Hmax Hfuel)
    as (out & E & _ & _ & _ & _ & Pairs).
  fold tmp in Pairs. destruct (Pairs k Hk) as (_ & Ev' & _ & Eu).
  exists out. split; [exact E|]. subst U V. cbv beta.
  rewrite Ev', Eu.
  split; [apply halved_sum_between|]. split; [apply halved_sum_between|].
  split; intros Eq; rewrite <- Eq.
  - pose proof (halved_sum_between (nth (3 * (2 * k) + 2) (data tmp) 0)
                  (nth (3 * (2 * k) + 2) (data tmp) 0)) as B.
    rewrite Z.min_id, Z.max_id in B. lia.
  - pose proof (halved_sum_between (nth (3 * (2 * k) + 1) (data tmp) 0)
                  (nth (3 * (2 * k) + 1) (data tmp) 0)) as B.
    rewrite Z.min_id, Z.max_id in B. lia.
Qed.

(** X11.  For a converted image with an even number of pixels, at most
    [INT_MAX] of them, [convert_rgb_to_yuyv] returns, and what it
    returns is a well-formed two-channel image of the same geometry: two
    bytes per pixel, every one in 0..255. *)
Theorem convert_rgb_to_yuyv_is_well_formed (input : Mat) (fuel : nat) :
  let tmp := cvtColor_RGB2YUV input in
  Mat_wf tmp -> type tmp = CV_8UC3 ->
  Z.even (total tmp) = true -> total tmp <= INT_MAX ->
  (Z.to_nat (total tmp / 2) < fuel)%nat ->
  exists out,
    convert_rgb_to_yuyv cvtColor_RGB2YUV fuel input = Returned out /\
    Mat_wf out /\ rows out = rows tmp /\ cols out = cols tmp /\
    type out = CV_8UC2.
Proof.
  intros tmp W T Ev Hmax Hfuel.
  destruct (convert_rgb_to_yuyv_returns cvtColor_RGB2YUV input fuel W T Ev Hmax Hfuel)
    as (out & E & R & C & Ty & L & _).
  fold tmp in R, C, L.
  exists out. split; [exact E|]. split; [|auto].
  constructor.
  - rewrite R. apply (wf_rows _ W).
  - rewrite C. apply (wf_cols _ W).
  - rewrite L, R, C, Ty. cbn [channels]. unfold total. lia.
  - exact (convert_rgb_to_yuyv_bytes input fuel out W T Ev Hmax Hfuel E).
Qed.

(** X3.  The frame written agrees with the format negotiated at start-up:
    for a frame of the output geometry [w] x [h] (an even number of
    pixels, its packed size within [int]), the image packed by
    [convert_rgb_to_yuyv] has the width, height and line length that
    [loopback_init] announced with [VIDIOC_S_FMT], its byte count is the
    announced [sizeimage], and so is the count the main loop first asks
    [write] to take. *)
Theorem packed_frame_has_negotiated_size (input : Mat) (w h : Z) (fuel : nat) :
  let tmp := cvtColor_RGB2YUV input in
  let fmt := VideoFormat.vid_format w h in
  Mat_wf tmp -> type tmp = CV_8UC3 -> cols tmp = w -> rows tmp = h ->
  0 < w -> 0 < h -> Z.even (total tmp) = true -> 2 * (w * h) <= INT_MAX ->
  (Z.to_nat (total tmp / 2) < fuel)%nat ->
  exists out,
    convert_rgb_to_yuyv cvtColor_RGB2YUV fuel input = Returned out /\
    VideoFormat.pix_width fmt = cols out /\
    VideoFormat.pix_height fmt = rows out /\
    VideoFormat.pix_bytesperline fmt = cols out * channels (type out) /\
    VideoFormat.pix_sizeimage fmt = Z.of_nat (length (data out)) /\
    VideoFormat.pix_sizeimage fmt
      = int_cast (cols out * channels (type out) * rows out).
Proof.
  intros tmp fmt W T Hc Hr Pw Ph Ev Hmax Hfuel.
  assert (Ht : total tmp <= INT_MAX) by (unfold total; rewrite Hc, Hr; nia).
  destruct (convert_rgb_to_yuyv_returns cvtColor_RGB2YUV input fuel W T Ev Ht Hfuel)
    as (out & E & Ro & Co & To & Sz & _).
  fold tmp in Ro, Co, Sz. unfold total in Sz.
  exists out. split; [exact E|].
  rewrite Ro, Co, To, Sz. rewrite Hc, Hr in *. cbn [channels] in *.
  unfold INT_MAX in *.
  assert (Bw : w * 2 <= 2147483647) by nia.
  assert (Bh : h <= 2147483647) by nia.
  assert (Li : int_cast (w * 2) = w * 2)
    by (apply int_cast_id; unfold in_int, INT_MIN, INT_MAX; lia).
  assert (Fi : int_cast (w * 2 * h) = w * 2 * h)
    by (apply int_cast_id; unfold in_int, INT_MIN, INT_MAX; nia).
  subst fmt. unfold VideoFormat.vid_format.
  cbn [VideoFormat.pix_width VideoFormat.pix_height VideoFormat.pix_sizeimage
       VideoFormat.pix_bytesperline].
  rewrite Li, Fi. unfold VideoFormat.size_t_cast, VideoFormat.u32_cast.
  rewrite (Z.mod_small (w * 2) 18446744073709551616) by lia.
  rewrite (Z.mod_small h 18446744073709551616) by lia.
  rewrite (Z.mod_small (h * (w * 2)) 18446744073709551616) by nia.
  rewrite (Z.mod_small w) by lia.
  rewrite (Z.mod_small h) by lia.
  rewrite (Z.mod_small (w * 2)) by lia.
  rewrite (Z.mod_small (h * (w * 2))) by nia.
  repeat split; lia.
Qed.

End PackFacts.

Section PackFactsExamples.

Import Compositor.

Lemma yuv_pair_wf : Mat_wf (mkMat 1 2 CV_8UC3 [100; 129; 128; 101; 130; 127]).
Proof.
  constructor; cbn [rows cols type data channels length];
    [ lia | lia | reflexivity | repeat constructor; unfold is_byte; lia ].
Defined.

Lemma yuv_pair_fits :
  total (mkMat 1 2 CV_8UC3 [100; 129; 128; 101; 130; 127]) <= INT_MAX.
Proof. unfold total, INT_MAX; cbn [rows cols]; lia. Defined.

Lemma yuv_pair_fuel :
  Nat.lt (Z.to_nat (total (mkMat 1 2 CV_8UC3 [100; 129; 128; 101; 130; 127]) / 2)) 2.
Proof. unfold total; cbn [rows cols]; change (1 * 2 / 2) with 1; lia. Defined.

Lemma shared_chroma_between_pair_witness :
  exists out,
    convert_rgb_to_yuyv (fun _ => mkMat 1 2 CV_8UC3 [100; 129; 128; 101; 130; 127])
      2 Mat_empty = Returned out /\
    Z.min 129 130 <= nth 3 (data out) 0 <= Z.max 129 130.
Proof.
  assert (Hk : 2 * Z.of_nat 0 + 1
               < total (mkMat 1 2 CV_8UC3 [100; 129; 128; 101; 130; 127]))
    by (unfold total; cbn [rows cols]; lia).
  destruct (shared_chroma_between_pair
              (fun _ => mkMat 1 2 CV_8UC3 [100; 129; 128; 101; 130; 127])
              Mat_empty 2 0 yuv_pair_wf eq_refl eq_refl yuv_pair_fits
              yuv_pair_fuel Hk) as (out & E & _ & B & _).
  exists out. split; [exact E | exact B].
Defined.

Lemma convert_rgb_to_yuyv_is_well_formed_witness :
  exists out,
    convert_rgb_to_yuyv (fun _ => mkMat 1 2 CV_8UC3 [100; 129; 128; 101; 130; 127])
      2 Mat_empty = Returned out /\
    Mat_wf out.
Proof.
  destruct (convert_rgb_to_yuyv_is_well_formed
              (fun _ => mkMat 1 2 CV_8UC3 [100; 129; 128; 101; 130; 127])
              Mat_empty 2 yuv_pair_wf eq_refl eq_refl yuv_pair_fits yuv_pair_fuel)
    as (out & E & W & _).
  exists out. split; [exact E | exact W].
Defined.

Lemma packed_frame_has_negotiated_size_witness :
  exists out,
    convert_rgb_to_yuyv (fun _ => mkMat 1 2 CV_8UC3 [100; 129; 128; 101; 130; 127])
      2 Mat_empty = Returned out /\
    VideoFormat.pix_sizeimage (VideoFormat.vid_format 2 1)
      = Z.of_nat (length (data out)).
Proof.
  assert (H : 2 * (2 * 1) <= INT_MAX) by (unfold INT_MAX; lia).
  assert (Pw : 0 < 2) by lia.
  assert (Ph : 0 < 1) by lia.
  destruct (packed_frame_has_negotiated_size
              (fun _ => mkMat 1 2 CV_8UC3 [100; 129; 128; 101; 130; 127])
              Mat_empty 2 1 2 yuv_pair_wf eq_refl eq_refl eq_refl Pw Ph eq_refl H
              yuv_pair_fuel) as (out & E & _ & _ & _ & S & _).
  exists out. split; [exact E | exact S].
Defined.

End PackFactsExamples.

(** ** More on throttling *)

Section ThrottleFacts.

Import Orchestrator.

Lemma throttle_divisor_one (l : list Mat) :
  throttle 1 1 l =
    map (fun raw => if nonempty_frame raw then tick_processed else tick_empty) l.
Proof.
  induction l as [|raw l IH]; cbn [throttle map]; [reflexivity|].
  unfold nonempty_frame at 1.
  destruct ((rows raw =? 0) || (cols raw =? 0)); cbn [negb]; now rewrite IH.
Qed.

(** X12.  Without [--max-fps], or with a camera no faster than the
    maximum, the divisor is 1 and nothing is throttled: every captured
    frame that passes the sanity check is processed. *)
Theorem no_throttling_below_max_fps (fps maxFps : Z) (captured : list Mat) :
  maxFps = 0 \/ (0 < fps <= maxFps /\ fps + maxFps <= INT_MAX) ->
  fpsDivisor fps maxFps = 1 /\
  main_loop (fpsDivisor fps maxFps) captured =
    map (fun raw => if nonempty_frame raw then tick_processed else tick_empty)
      captured.
Proof.
  intros H.
  assert (E : fpsDivisor fps maxFps = 1).
  { destruct H as [->|((Hf & Hle) & Hs)]; [reflexivity|].
    rewrite fpsDivisor_exact by lia.
    symmetry. apply Z.div_unique with (r := fps - 1); lia. }
  split; [exact E|]. rewrite E. apply throttle_divisor_one.
Qed.

Lemma no_throttling_below_max_fps_witness :
  fpsDivisor 25 30 = 1 /\
  main_loop (fpsDivisor 25 30) [Mat_empty; mkMat 1 2 CV_8UC3 [1; 2; 3; 4; 5; 6]]
    = [tick_empty; tick_processed].
Proof.
  assert (H : 30 = 0 \/ (0 < 25 <= 30 /\ 25 + 30 <= INT_MAX))
    by (right; unfold INT_MAX; lia).
  exact (no_throttling_below_max_fps 25 30
           [Mat_empty; mkMat 1 2 CV_8UC3 [1; 2; 3; 4; 5; 6]] H).
Defined.

(** X13.  Empty frames are invisible to the throttle: they are answered
    with [continue] one for one, and the decisions taken for the other
    frames are those the loop would take had the empty frames never been
    captured. *)
Theorem empty_frames_do_not_disturb_throttle (d skip : Z) (captured : list Mat) :
  filter (fun t => negb (tick_eqb tick_empty t)) (throttle d skip captured)
    = throttle d skip (filter nonempty_frame captured) /\
  count_ticks tick_empty (throttle d skip captured)
    = length (filter (fun raw => negb (nonempty_frame raw)) captured) /\
  skip_after d skip captured = skip_after d skip (filter nonempty_frame captured).
Proof.
  unfold count_ticks. revert skip.
  induction captured as [|raw l IH]; intros skip; [repeat split|].
  cbn [throttle skip_after filter].
  assert (En : nonempty_frame raw = negb ((rows raw =? 0) || (cols raw =? 0)))
    by reflexivity.
  rewrite En. destruct ((rows raw =? 0) || (cols raw =? 0)) eqn:E; cbn [negb].
  - cbn [filter tick_eqb negb length]. destruct (IH skip) as (A & B & C).
    split; [exact A|]. split; [now rewrite B | exact C].
  - cbn [throttle skip_after]. rewrite E.
    destruct (skip <? d); cbn [filter tick_eqb negb].
    + destruct (IH (int_cast (skip + 1))) as (A & B & C).
      split; [now rewrite <- A|]. split; [exact B | exact C].
    + destruct (IH 1) as (A & B & C).
      split; [now rewrite <- A|]. split; [exact B | exact C].
Qed.

(** X14.  From the start of the loop, of the first [m] frames that pass
    the sanity check the loop processes the ceiling of [m / d] and skips
    the rest. *)
Theorem processed_count_from_start (d : Z) (captured : list Mat) :
  1 <= d <= INT_MAX ->
  Z.of_nat (count_ticks tick_processed (main_loop d captured))
    = (nonempty_count captured + d - 1) / d /\
  Z.of_nat (count_ticks tick_processed (main_loop d captured))
  + Z.of_nat (count_ticks tick_skipped (main_loop d captured))
    = nonempty_count captured.
Proof.
  intros Hd. unfold main_loop.
  destruct (throttle_counts d Hd captured d ltac:(lia)) as (P & S & _).
  rewrite P, S.
  replace (d - 1 + nonempty_count captured) with (nonempty_count captured + d - 1)
    by lia.
  split; lia.
Qed.

Lemma processed_count_from_start_witness :
  Z.of_nat (count_ticks tick_processed
    (main_loop 3 (repeat (mkMat 1 2 CV_8UC3 [1; 2; 3; 4; 5; 6]) 7)))
    = (nonempty_count (repeat (mkMat 1 2 CV_8UC3 [1; 2; 3; 4; 5; 6]) 7) + 3 - 1) / 3.
Proof.
  assert (H : 1 <= 3 <= INT_MAX) by (unfold INT_MAX; lia).
  exact (proj1 (processed_count_from_start 3
                  (repeat (mkMat 1 2 CV_8UC3 [1; 2; 3; 4; 5; 6]) 7) H)).
Defined.

End ThrottleFacts.

(** ** More on geometry *)

Section GeometryFacts.

Import Orchestrator.

Variable aspect_too_big : Z * Z -> bool.
Variable cap_geometry : Z * Z -> Z * Z.
Variable cap_fps : Z.

Lemma parse_options_app (a b : list cli_option) :
  forall s, parse_options (a ++ b) s = bind (parse_options a s) (parse_options b).
Proof.
  induction a as [|o a IH]; intros s; cbn [app parse_options bind]; [reflexivity|].
  destruct (parse_option o s); cbn [bind]; [apply IH | reflexivity | reflexivity].
Qed.

(** What a round of the option loop does to the geometry flags. *)
Lemma parse_option_flags (o : cli_option) (s s' : settings) :
  parse_option o s = Ok s' ->
  (setWorH s = true -> setWorH s' = true) /\
  (is_some (capGeo s) = true -> is_some (capGeo s') = true) /\
  (is_some (vidGeo s) = true -> is_some (vidGeo s') = true) /\
  (forall arg, arg <> scan_nomatch -> o = opt_w arg \/ o = opt_h arg ->
     setWorH s' = true) /\
  (forall geo, o = opt_cg geo -> is_some (capGeo s') = true) /\
  (forall geo, o = opt_vg geo -> is_some (vidGeo s') = true) /\
  ((forall geo, o <> opt_vg geo) -> vidGeo s' = vidGeo s).
Proof.
  destruct o as [arg|arg|geo|geo|arg|]; cbn [parse_option].
  - destruct arg as [z| |]; cbn [sscanf_d];
      try (destruct (_ =? 0); [discriminate|]);
      intros E; injection E as <-; cbn [setWorH capGeo vidGeo];
      repeat split; auto; try discriminate;
      intros a Ha [Eo|Eo]; try discriminate; injection Eo as <-; congruence.
  - destruct arg as [z| |]; cbn [sscanf_d];
      try (destruct (_ =? 0); [discriminate|]);
      intros E; injection E as <-; cbn [setWorH capGeo vidGeo];
      repeat split; auto; try discriminate;
      intros a Ha [Eo|Eo]; try discriminate; injection Eo as <-; congruence.
  - destruct geo as [[w h]|]; [|discriminate].
    destruct ((w <? 1) || (h <? 1)); [discriminate|].
    intros E; injection E as <-; cbn [setWorH capGeo vidGeo is_some].
    repeat split; auto; try discriminate.
    intros a Ha [Eo|Eo]; discriminate.
  - destruct geo as [[w h]|]; [|discriminate].
    destruct ((w <? 1) || (h <? 1)); [discriminate|].
    intros E; injection E as <-; cbn [setWorH capGeo vidGeo is_some].
    repeat split; auto; try discriminate.
    + intros a Ha [Eo|Eo]; discriminate.
    + intros H. exfalso. apply (H (Some (w, h))). reflexivity.
  - destruct arg as [z| |]; cbn [sscanf_d];
      try (destruct (_ <=? 0); [discriminate|]);
      intros E; injection E as <-; cbn [setWorH capGeo vidGeo];
      repeat split; auto; try discriminate;
      intros a Ha [Eo|Eo]; discriminate.
  - intros E; injection E as <-. repeat split; auto; try discriminate.
    intros a Ha [Eo|Eo]; discriminate.
Qed.

Lemma parse_options_flags (opts : list cli_option) :
  forall s s', parse_options opts s = Ok s' ->
    ((setWorH s = true \/
      exists arg, arg <> scan_nomatch /\ (In (opt_w arg) opts \/ In (opt_h arg) opts)) ->
     setWorH s' = true) /\
    ((is_some (capGeo s) = true \/ exists geo, In (opt_cg geo) opts) ->
     is_some (capGeo s') = true) /\
    ((forall geo, ~ In (opt_vg geo) opts) -> vidGeo s' = vidGeo s).
Proof.
  induction opts as [|o opts IH]; intros s s' E; cbn [parse_options] in E.
  - injection E as <-. repeat split.
    + intros [H|(arg & _ & [[]|[]])]. exact H.
    + intros [H|(geo & [])]. exact H.
  - destruct (parse_option o s) as [s1| |] eqn:E1; cbn [bind] in E; try discriminate.
    destruct (parse_option_flags _ _ _ E1) as (Kw & Kc & Kv & Sw & Sc & Sv & Nv).
    destruct (IH _ _ E) as (IHw & IHc & IHn).
    repeat split.
    + intros [H|(arg & Ha & [[H|H]|[H|H]])]; apply IHw.
      * left; auto.
      * left. apply (Sw arg Ha). left; auto.
      * right. exists arg. split; [exact Ha|]. left; exact H.
      * left. apply (Sw arg Ha). right; auto.
      * right. exists arg. split; [exact Ha|]. right; exact H.
    + intros [H|(geo & [H|H])]; apply IHc.
      * left; auto.
      * left. apply (Sc geo). auto.
      * right. exists geo. exact H.
    + intros H. rewrite IHn.
      * apply Nv. intros geo Eo. apply (H geo). left. exact Eo.
      * intros geo Hin. apply (H geo). right. exact Hin.
Qed.



End GeometryFacts.

Section GeometryFacts2.

Import Orchestrator.

Variable aspect_too_big : Z * Z -> bool.
Variable cap_geometry : Z * Z -> Z * Z.
Variable cap_fps : Z.

Lemma geo_eqb_eq (g h : Z * Z) : geo_eqb g h = true -> g = h.
Proof.
  destruct g as [a b], h as [c d]. unfold geo_eqb. cbn [fst snd].
  intros E. apply andb_prop in E. destruct E as [E1 E2].
  apply Z.eqb_eq in E1, E2. congruence.
Qed.

(** X16.  The geometry the capture device reports is authoritative: in
    every plan the capture geometry is the device's answer to the
    request (the last [--cg], else the [-w]/[-h] values, else 640x480),
    never the request itself where they differ; and without [--vg] the
    virtual camera takes that same geometry. *)
Theorem capture_geometry_is_the_reported_one (opts : list cli_option) (p : plan) :
  startup aspect_too_big cap_geometry cap_fps opts = Ok p ->
  exists s,
    parse_options opts initial_settings = Ok s /\
    plan_capGeo p =
      cap_geometry (match capGeo s with Some g => g | None => (width s, height s) end) /\
    ((forall geo, ~ In (opt_vg geo) opts) -> plan_vidGeo p = plan_capGeo p).
Proof.
  unfold startup.
  destruct (parse_options opts initial_settings) as [s| |] eqn:E; cbn [bind];
    try discriminate.
  intros R. exists s. split; [reflexivity|].
  destruct (parse_options_flags _ _ _ E) as (_ & _ & Kn).
  unfold resolve in R.
  destruct (match vidGeo s with Some g => aspect_too_big g | None => false end);
    [discriminate|].
  destruct (setWorH s && _); [discriminate|].
  injection R as <-. cbn [plan_capGeo plan_vidGeo].
  split.
  - destruct (geo_eqb _ _) eqn:G; [|reflexivity].
    apply geo_eqb_eq in G. congruence.
  - intros Hn. rewrite (Kn Hn). reflexivity.
Qed.

(** X17.  With [--vg WxH] (the last one given), the virtual camera is
    opened at height [H] and at width [W] rounded up to the next even
    number, whatever the capture device reports. *)
Theorem virtual_geometry_is_vg_rounded_up
    (before after : list cli_option) (w h : Z) (p : plan) :
  (forall geo, ~ In (opt_vg geo) after) ->
  w < INT_MAX ->
  startup aspect_too_big cap_geometry cap_fps
    (before ++ opt_vg (Some (w, h)) :: after) = Ok p ->
  1 <= w /\ 1 <= h /\
  plan_vidGeo p = (w + w mod 2, h) /\
  Z.even (output_width p) = true /\ w <= output_width p <= w + 1.
Proof.
  intros Hn Hw. unfold startup. rewrite parse_options_app.
  destruct (parse_options before initial_settings) as [s0| |]; cbn [bind];
    try discriminate.
  cbn [parse_options parse_option].
  destruct ((w <? 1) || (h <? 1)) eqn:Epos; cbn [bind]; [discriminate|].
  apply orb_false_elim in Epos. destruct Epos as [Ew Eh].
  apply Z.ltb_ge in Ew, Eh.
  match goal with |- context [parse_options after ?s1] =>
    destruct (parse_options after s1) as [s| |] eqn:E; cbn [bind]; try discriminate
  end.
  destruct (parse_options_flags _ _ _ E) as (_ & _ & Kn).
  specialize (Kn Hn). cbn [vidGeo] in Kn.
  unfold resolve. rewrite Kn.
  destruct (aspect_too_big _); [discriminate|].
  destruct (setWorH s && _); [discriminate|].
  intros R; injection R as <-. unfold output_width. cbn [plan_vidGeo fst].
  assert (Er : Z.rem w 2 = w mod 2) by (apply Z.rem_mod_nonneg; lia).
  pose proof (Z.mod_pos_bound w 2 ltac:(lia)) as Bm.
  rewrite Er, int_cast_id by (unfold in_int, INT_MIN, INT_MAX in *; lia).
  repeat split; try lia.
  rewrite <- Er, <- (int_cast_even (w + Z.rem w 2)). apply forced_even.
Qed.

End GeometryFacts2.

Section GeometryFactsExamples.

Import Orchestrator.


Lemma capture_geometry_is_the_reported_one_witness :
  exists s,
    parse_options [opt_cg (Some (1920, 1080))] initial_settings = Ok s /\
    plan_capGeo (mkPlan (1280, 720) (1280, 720) 1) =
      (fun _ : Z * Z => (1280, 720))
        (match capGeo s with Some g => g | None => (width s, height s) end) /\
    ((forall geo, ~ In (opt_vg geo) [opt_cg (Some (1920, 1080))]) ->
     plan_vidGeo (mkPlan (1280, 720) (1280, 720) 1)
       = plan_capGeo (mkPlan (1280, 720) (1280, 720) 1)).
Proof.
  exact (capture_geometry_is_the_reported_one (fun _ => false)
           (fun _ => (1280, 720)) 30 [opt_cg (Some (1920, 1080))]
           (mkPlan (1280, 720) (1280, 720) 1) eq_refl).
Defined.

Lemma virtual_geometry_is_vg_rounded_up_witness :
  plan_vidGeo (mkPlan (1280, 720) (322, 240) 1) = (321 + 321 mod 2, 240).
Proof.
  assert (Hn : forall geo, ~ In (opt_vg geo) [opt_max_fps (scan_ok 30)]).
  { intros geo [H|[]]. discriminate. }
  assert (Hw : 321 < INT_MAX) by (unfold INT_MAX; lia).
  exact (proj1 (proj2 (proj2 (virtual_geometry_is_vg_rounded_up (fun _ => false)
           (fun _ => (1280, 720)) 60 [opt_cg (Some (1280, 720))]
           [opt_max_fps (scan_ok 30)] 321 240
           (mkPlan (1280, 720) (322, 240) 2) Hn Hw eq_refl)))).
Defined.

End GeometryFactsExamples.

(** ** Four-character codes *)

Section FourCcFacts.

Import Cli.

Variable stoi_16 : string -> option Z.

Lemma byte_of_is_byte (c : ascii) : is_byte (byte_of c).
Proof.
  unfold is_byte, byte_of. pose proof (N_ascii_bounded c) as B.
  split; [apply N2Z.is_nonneg|]. change 256 with (Z.of_N 256). now apply N2Z.inj_lt.
Qed.

Lemma toupper_is_byte (c : Z) : is_byte c -> is_byte (uint8_t (toupper c)).
Proof.
  intros _. unfold uint8_t, is_byte. apply Z.mod_pos_bound. lia.
Qed.

Lemma padded_upper_is_byte (inp : string) (k : nat) : is_byte (padded_upper inp k).
Proof.
  unfold padded_upper.
  destruct (Nat.lt_ge_cases k (length (map (fun c => uint8_t (toupper c)) (bytes_of inp))))
    as [Hk|Hk].
  - assert (F : Forall is_byte (map (fun c => uint8_t (toupper c)) (bytes_of inp))).
    { apply Forall_forall. intros x Hx. apply in_map_iff in Hx.
      destruct Hx as (c & <- & _). unfold uint8_t, is_byte.
      apply Z.mod_pos_bound. lia. }
    rewrite Forall_forall in F. apply F, nth_In, Hk.
  - rewrite nth_overflow by exact Hk. unfold is_byte; lia.
Qed.

(** A code of one to four characters is packed from its upper-cased
    characters, padded with spaces. *)
Lemma fourCcFromString_short (inp : string) :
  (1 <= String.length inp <= 4)%nat ->
  fourCcFromString stoi_16 inp =
    Some (VideoWriter_fourcc (padded_upper inp 0) (padded_upper inp 1)
            (padded_upper inp 2) (padded_upper inp 3)).
Proof.
  intros H. unfold fourCcFromString, padded_upper.
  destruct inp as [|c0 [|c1 [|c2 [|c3 [|c4 r]]]]];
    cbn [String.length] in H; try lia; reflexivity.
Qed.

Lemma extract_byte (lo s b hi : Z) :
  0 < s -> 0 <= lo < s -> 0 <= b < 256 ->
  ((lo + s * (b + 256 * hi)) / s) mod 256 = b.
Proof.
  intros Hs Hlo Hb.
  replace (lo + s * (b + 256 * hi)) with (lo + (b + 256 * hi) * s) by lia.
  rewrite Z.div_add by lia. rewrite (Z.div_small lo s) by lia.
  replace (0 + (b + 256 * hi)) with (b + hi * 256) by lia.
  rewrite Z.mod_add by lia. apply Z.mod_small. lia.
Qed.

Lemma fourcc_byte (b0 b1 b2 b3 : Z) (k : nat) :
  is_byte b0 -> is_byte b1 -> is_byte b2 -> is_byte b3 -> (k < 4)%nat ->
  Z.land (Z.shiftr (VideoWriter_fourcc b0 b1 b2 b3) (8 * Z.of_nat k)) 255
    = nth k [b0; b1; b2; b3] 0.
Proof.
  unfold is_byte. intros H0 H1 H2 H3 Hk.
  assert (L : forall b, 0 <= b < 256 -> Z.land b 255 = b).
  { intros b Hb. change 255 with (Z.ones 8). rewrite Z.land_ones by lia.
    apply Z.mod_small. change (2 ^ 8) with 256. lia. }
  unfold VideoWriter_fourcc. rewrite (L b0 H0), (L b1 H1), (L b2 H2), (L b3 H3).
  rewrite !Z.shiftl_mul_pow2 by lia.
  change 255 with (Z.ones 8).
  rewrite Z.land_ones, Z.shiftr_div_pow2 by lia.
  unfold int_cast.
  set (X := b0 + b1 * 2 ^ 8 + b2 * 2 ^ 16 + b3 * 2 ^ 24).
  rewrite (Z.mod_eq (X + 2147483648) 4294967296) by lia.
  set (q := (X + 2147483648) / 4294967296).
  change (2 ^ 8) with 256 in *. subst X.
  destruct k as [|[|[|[|k]]]]; try lia; cbn [nth Z.of_nat Pos.of_succ_nat Pos.succ].
  - change (2 ^ (8 * 0)) with 1.
    replace (b0 + b1 * 256 + b2 * 2 ^ 16 + b3 * 2 ^ 24 + 2147483648
             - 4294967296 * q - 2147483648)
      with (0 + 1 * (b0 + 256 * (b1 + b2 * 256 + b3 * 65536 - 16777216 * q)))
      by (change (2 ^ 16) with 65536; change (2 ^ 24) with 16777216; lia).
    apply extract_byte; lia.
  - change (2 ^ (8 * 1)) with 256.
    replace (b0 + b1 * 256 + b2 * 2 ^ 16 + b3 * 2 ^ 24 + 2147483648
             - 4294967296 * q - 2147483648)
      with (b0 + 256 * (b1 + 256 * (b2 + b3 * 256 - 65536 * q)))
      by (change (2 ^ 16) with 65536; change (2 ^ 24) with 16777216; lia).
    apply extract_byte; lia.
  - change (2 ^ (8 * 2)) with 65536.
    replace (b0 + b1 * 256 + b2 * 2 ^ 16 + b3 * 2 ^ 24 + 2147483648
             - 4294967296 * q - 2147483648)
      with ((b0 + b1 * 256) + 65536 * (b2 + 256 * (b3 - 256 * q)))
      by (change (2 ^ 16) with 65536; change (2 ^ 24) with 16777216; lia).
    apply extract_byte; lia.
  - change (2 ^ (8 * 3)) with 16777216.
    replace (b0 + b1 * 256 + b2 * 2 ^ 16 + b3 * 2 ^ 24 + 2147483648
             - 4294967296 * q - 2147483648)
      with ((b0 + b1 * 256 + b2 * 65536) + 16777216 * (b3 + 256 * (- q)))
      by (change (2 ^ 16) with 65536; change (2 ^ 24) with 16777216; lia).
    apply extract_byte; lia.
Qed.

End FourCcFacts.

Section FourCcTheorems.

Import Cli.

Variable stoi_16 : string -> option Z.

(** The bytes of the integer computed for a short code. *)
Lemma fourCcFromString_bytes (inp : string) :
  (1 <= String.length inp <= 4)%nat ->
  exists code,
    fourCcFromString stoi_16 inp = Some code /\
    forall k, (k < 4)%nat ->
      Z.land (Z.shiftr code (8 * Z.of_nat k)) 255 = padded_upper inp k.
Proof.
  intros H. rewrite (fourCcFromString_short stoi_16 inp H).
  eexists. split; [reflexivity|]. intros k Hk.
  rewrite fourcc_byte by (try apply padded_upper_is_byte; exact Hk).
  destruct k as [|[|[|[|k]]]]; try lia; reflexivity.
Qed.

(** X18.  A code of one to four characters round-trips through
    [fourCcFromString]: byte [k] of the integer returned, least
    significant first, is character [k] of the code in upper case, and a
    space where the code is shorter than four characters. *)
Theorem fourCcFromString_round_trip (inp : string) :
  (1 <= String.length inp <= 4)%nat ->
  exists code,
    fourCcFromString stoi_16 inp = Some code /\
    forall k, (k < 4)%nat ->
      Z.land (Z.shiftr code (8 * Z.of_nat k)) 255 = padded_upper inp k.
Proof. exact (fourCcFromString_bytes inp). Qed.

(** X19.  Two codes of one to four characters give the same integer
    exactly when they agree up to the case of letters and trailing
    spaces. *)
Theorem fourCcFromString_equal_iff (a b : string) :
  (1 <= String.length a <= 4)%nat -> (1 <= String.length b <= 4)%nat ->
  (fourCcFromString stoi_16 a = fourCcFromString stoi_16 b <->
   forall k, (k < 4)%nat -> padded_upper a k = padded_upper b k).
Proof.
  intros Ha Hb. split.
  - intros E k Hk.
    destruct (fourCcFromString_bytes a Ha) as (ca & Ea & Ra).
    destruct (fourCcFromString_bytes b Hb) as (cb & Eb & Rb).
    rewrite <- (Ra k Hk), <- (Rb k Hk). congruence.
  - intros E.
    rewrite (fourCcFromString_short stoi_16 a Ha), (fourCcFromString_short stoi_16 b Hb).
    rewrite (E 0%nat), (E 1%nat), (E 2%nat), (E 3%nat) by lia. reflexivity.
Qed.

Lemma upper_zero (c : Z) : is_byte c -> uint8_t (toupper c) = 0 -> c = 0.
Proof.
  unfold is_byte, uint8_t, toupper. intros Hc.
  destruct ((97 <=? c) && (c <=? 122)) eqn:E.
  - apply andb_prop in E. destruct E as [E1 E2].
    apply Z.leb_le in E1, E2. rewrite Z.mod_small by lia. lia.
  - rewrite Z.mod_small by lia. trivial.
Qed.

(** X20.  [fourCcFromString] returns 0, which the [-f] switch rejects,
    for the empty string and for every length other than one to four and
    eight; for a code of one to four characters (none of them NUL, as in
    any C string) it never returns 0. *)
Theorem fourCcFromString_zero (inp : string) :
  ((String.length inp = 0 \/ 5 <= String.length inp <= 7 \/ 9 <= String.length inp)%nat ->
   fourCcFromString stoi_16 inp = Some 0) /\
  ((1 <= String.length inp <= 4)%nat -> ~ In 0 (bytes_of inp) ->
   exists code, fourCcFromString stoi_16 inp = Some code /\ code <> 0).
Proof.
  split.
  - intros H. unfold fourCcFromString.
    destruct (String.length inp =? 0)%nat eqn:E0; [reflexivity|].
    apply Nat.eqb_neq in E0.
    destruct (String.length inp <=? 4)%nat eqn:E4; [apply Nat.leb_le in E4; lia|].
    destruct (String.length inp =? 8)%nat eqn:E8; [apply Nat.eqb_eq in E8; lia|].
    reflexivity.
  - intros H Hn.
    destruct (fourCcFromString_bytes inp H) as (code & E & R).
    exists code. split; [exact E|]. intros ->.
    specialize (R 0%nat ltac:(lia)). cbn in R.
    destruct inp as [|c0 r]; [cbn [String.length] in H; lia|].
    unfold padded_upper in R. cbn [bytes_of map nth] in R.
    symmetry in R. apply upper_zero in R; [|apply byte_of_is_byte].
    apply Hn. left. exact R.
Qed.

End FourCcTheorems.

Section FourCcExamples.

Import Cli.

Lemma fourCcFromString_round_trip_witness :
  exists code,
    fourCcFromString (fun _ => None) "mjpg" = Some code /\
    forall k, (k < 4)%nat ->
      Z.land (Z.shiftr code (8 * Z.of_nat k)) 255 = padded_upper "mjpg" k.
Proof.
  apply (fourCcFromString_round_trip (fun _ => None) "mjpg").
  cbn. lia.
Defined.

Lemma fourCcFromString_equal_iff_witness :
  fourCcFromString (fun _ => None) "yuy" = fourCcFromString (fun _ => None) "YUY " <->
  forall k, (k < 4)%nat -> padded_upper "yuy" k = padded_upper "YUY " k.
Proof.
  apply (fourCcFromString_equal_iff (fun _ => None) "yuy" "YUY "); cbn; lia.
Defined.

Lemma fourCcFromString_zero_witness :
  fourCcFromString (fun _ => None) "MJPEG" = Some 0.
Proof.
  apply (proj1 (fourCcFromString_zero (fun _ => None) "MJPEG")).
  right. left. cbn. lia.
Defined.

End FourCcExamples.

(** ** The option loop *)

Section OptionFacts.

Import Orchestrator Cli.

Lemma decimal_nonneg (digits : list Z) :
  forall acc, 0 <= acc -> forallb isdigit digits = true -> 0 <= decimal acc digits.
Proof.
  induction digits as [|d rest IH]; intros acc Hacc F; cbn [decimal]; [exact Hacc|].
  cbn [forallb] in F. apply andb_prop in F. destruct F as [Hd F].
  unfold isdigit in Hd. apply andb_prop in Hd. destruct Hd as [H1 H2].
  apply Z.leb_le in H1, H2. apply IH; [lia | exact F].
Qed.

(** The outcomes of the [-p] switch. *)
Lemma post_processing_cases (option : string) :
  match post_processing option with
  | Parsed strength =>
      Z.odd strength = true /\ 1 <= strength <= INT_MAX /\
      option_key option = "bgblur"%string /\
      (is_number (option_value option) = false -> strength = 25)
  | Stopped code _ => code = 1
  | Thrown =>
      is_number (option_value option) = true /\
      INT_MAX < decimal 0 (bytes_of (option_value option))
  | Undef => False
  end.
Proof.
  unfold post_processing.
  destruct (String.eqb (option_key option) "bgblur") eqn:K; [|reflexivity].
  apply String.eqb_eq in K.
  destruct (is_number (option_value option)) eqn:N.
  - unfold stoi.
    destruct (decimal 0 (bytes_of (option_value option)) <=? INT_MAX) eqn:M.
    + apply Z.leb_le in M.
      destruct (Z.rem _ 2 =? 0) eqn:R; [reflexivity|].
      apply Z.eqb_neq in R.
      unfold is_number in N. apply andb_prop in N. destruct N as [_ N].
      pose proof (decimal_nonneg _ 0 ltac:(lia) N) as P.
      rewrite Z.rem_mod_nonneg in R by lia.
      rewrite Zmod_odd in R.
      destruct (Z.odd (decimal 0 (bytes_of (option_value option)))) eqn:O;
        [|congruence].
      assert (decimal 0 (bytes_of (option_value option)) <> 0)
        by (intros Z0; rewrite Z0 in O; discriminate).
      split; [reflexivity|]. split; [lia|]. split; [exact K|]. discriminate.
    + apply Z.leb_gt in M. split; [reflexivity | exact M].
  - split; [reflexivity|]. split; [unfold INT_MAX; lia|]. split; [exact K|].
    reflexivity.
Qed.

(** X21.  Whatever follows [-p], the switch leaves an odd, positive blur
    strength that fits an [int], or stops the program: a key other than
    [bgblur] and an even number are usage errors, a [bgblur] without a
    number (no colon, nothing or non-digits after it) means 25, and no
    input gives an even or negative strength. *)
Theorem post_processing_strength_is_odd (option : string) :
  match post_processing option with
  | Parsed strength =>
      Z.odd strength = true /\ 1 <= strength <= INT_MAX /\
      option_key option = "bgblur"%string /\
      (is_number (option_value option) = false -> strength = 25)
  | Stopped code _ => code = 1
  | Thrown =>
      is_number (option_value option) = true /\
      INT_MAX < decimal 0 (bytes_of (option_value option))
  | Undef => False
  end.
Proof. exact (post_processing_cases option). Qed.

Lemma parse_option_settled (o : cli_option) (g g' : settings) :
  parse_option o g = Ok g' ->
  0 <= maxFps g -> vidGeo_even g ->
  (forall w h, capGeo g = Some (w, h) -> 1 <= w /\ 1 <= h) ->
  (forall w h, vidGeo g = Some (w, h) -> 1 <= h) ->
  0 <= maxFps g' /\ vidGeo_even g' /\
  (forall w h, capGeo g' = Some (w, h) -> 1 <= w /\ 1 <= h) /\
  (forall w h, vidGeo g' = Some (w, h) -> 1 <= h).
Proof.
  intros E Hm Hv Hc Hh.
  pose proof (parse_option_vidGeo _ _ _ E) as (Kev & _ & _).
  split; [|split; [exact (Kev Hv)|]].
  - destruct o as [arg|arg|geo|geo|arg|]; cbn [parse_option] in E.
    + destruct (sscanf_d arg (width g)) as [w [|]];
        [destruct (w =? 0); [discriminate|]|]; injection E as <-; exact Hm.
    + destruct (sscanf_d arg (height g)) as [h [|]];
        [destruct (h =? 0); [discriminate|]|]; injection E as <-; exact Hm.
    + destruct geo as [[w h]|]; [|discriminate].
      destruct ((w <? 1) || (h <? 1)); [discriminate|]. injection E as <-; exact Hm.
    + destruct geo as [[w h]|]; [|discriminate].
      destruct ((w <? 1) || (h <? 1)); [discriminate|]. injection E as <-; exact Hm.
    + destruct arg as [z| |]; cbn [sscanf_d] in E.
      * destruct (z <=? 0) eqn:Z0; [discriminate|]. apply Z.leb_gt in Z0.
        injection E as <-. cbn [maxFps]. lia.
      * injection E as <-. exact Hm.
      * destruct (maxFps g <=? 0); [discriminate|]. injection E as <-. exact Hm.
    + injection E as <-; exact Hm.
  - destruct o as [arg|arg|geo|geo|arg|]; cbn [parse_option] in E.
    + destruct (sscanf_d arg (width g)) as [w [|]];
        [destruct (w =? 0); [discriminate|]|]; injection E as <-; split; assumption.
    + destruct (sscanf_d arg (height g)) as [h [|]];
        [destruct (h =? 0); [discriminate|]|]; injection E as <-; split; assumption.
    + destruct geo as [[w h]|]; [|discriminate].
      destruct ((w <? 1) || (h <? 1)) eqn:P; [discriminate|]. injection E as <-.
      apply orb_false_elim in P. destruct P as [P1 P2]. apply Z.ltb_ge in P1, P2.
      cbn [capGeo vidGeo]. split; [|assumption].
      intros w' h' I. injection I as <- <-. lia.
    + destruct geo as [[w h]|]; [|discriminate].
      destruct ((w <? 1) || (h <? 1)) eqn:P; [discriminate|]. injection E as <-.
      apply orb_false_elim in P. destruct P as [P1 P2]. apply Z.ltb_ge in P1, P2.
      cbn [capGeo vidGeo]. split; [assumption|].
      intros w' h' I. injection I as _ <-. lia.
    + destruct (sscanf_d arg (maxFps g)) as [f [|]];
        [destruct (f <=? 0); [discriminate|]|]; injection E as <-; split; assumption.
    + injection E as <-; split; assumption.
Qed.

End OptionFacts.

Section OptionLoopFacts.

Import Orchestrator Cli.

Variable scan_int : string -> scanned.
Variable scan_geometry : string -> Z * Z * Z.
Variable stoi_16 : string -> option Z.

#[local] Abbreviation one := (parse_one scan_int scan_geometry stoi_16).
#[local] Abbreviation loop := (parse_args scan_int scan_geometry stoi_16).

Lemma with_value_parsed (next : option string) (s : options)
    (body : string -> parse_result options) (s' : options) (consumed : bool) :
  with_value next s body = Parsed (s', consumed) ->
  exists v, next = Some v /\ starts_with_dash v = false /\
            body v = Parsed s' /\ consumed = true.
Proof.
  unfold with_value, hasValidArgument.
  destruct next as [v|]; cbn [bindp]; [|discriminate].
  destruct (starts_with_dash v) eqn:D; cbn [bindp]; [discriminate|].
  destruct (body v) as [s1| | |] eqn:B; cbn [bindp]; try discriminate.
  intros E; injection E as <- <-. exists v. repeat split; assumption.
Qed.

Lemma geometry_switch_settled (o : cli_option) (s s' : options) :
  settled s -> geometry_switch o s = Parsed s' -> settled s'.
Proof.
  intros (Hb & Ht & Hm & Hv & Hc & Hh). unfold geometry_switch.
  destruct (parse_option o (geometry s)) as [g| |] eqn:E; cbn [lift bindp];
    try discriminate.
  intros P; injection P as <-.
  destruct (parse_option_settled _ _ _ E Hm Hv Hc Hh) as (A & B & C & D).
  unfold settled. cbn [blur_strength threads geometry set_geometry].
  split; [|split; [|split; [|split; [|split]]]]; assumption.
Qed.

Ltac settle_field H :=
  let Hb := fresh in let Ht := fresh in let Hm := fresh in
  let Hv := fresh in let Hc := fresh in let Hh := fresh in
  destruct H as (Hb & Ht & Hm & Hv & Hc & Hh);
  unfold settled; cbn;
  split; [|split; [|split; [|split; [|split]]]]; assumption.

(** One round of the loop keeps the variables settled. *)
Lemma parse_one_settled (tok : string) (next : option string)
    (s s' : options) (consumed : bool) :
  settled s -> one tok next s = Parsed (s', consumed) -> settled s'.
Proof.
  intros H. unfold parse_one.
  repeat match goal with
         | |- (if ?c then _ else _) = _ -> _ => destruct c
         end;
    try discriminate;
    try (intros E; injection E as <- <-; settle_field H);
    try (intros E; apply with_value_parsed in E;
         destruct E as (v & _ & _ & B & _);
         first [ injection B as <-; settle_field H
               | eapply geometry_switch_settled; eassumption
               | idtac ]).
  - (* -p *)
    pose proof (post_processing_cases v) as P.
    destruct (post_processing v) as [b| | |]; cbn [bindp] in B; try discriminate.
    injection B as <-. destruct P as (Po & Pr & _).
    destruct H as (Hb & Ht & Hm & Hv & Hc & Hh).
    unfold settled; cbn.
    split; [|split; [|split; [|split; [|split]]]]; try assumption.
    right. split; assumption.
  - (* -f *)
    destruct (fourCcFromString stoi_16 v) as [code|]; [|discriminate].
    destruct (code =? 0); [discriminate|]. injection B as <-. settle_field H.
  - (* -t *)
    destruct H as (Hb & Ht & Hm & Hv & Hc & Hh).
    destruct (scan_int v) as [z| |]; cbn [sscanf_d] in B.
    + destruct (z =? 0) eqn:Z0; [discriminate|]. apply Z.eqb_neq in Z0.
      injection B as <-. unfold settled; cbn.
      split; [|split; [|split; [|split; [|split]]]]; assumption.
    + injection B as <-. unfold settled; cbn.
      split; [|split; [|split; [|split; [|split]]]]; assumption.
    + destruct (threads s =? 0); [discriminate|].
      injection B as <-. unfold settled; cbn.
      split; [|split; [|split; [|split; [|split]]]]; assumption.
Qed.

Lemma parse_args_settled (n : nat) :
  forall args s s', (length args <= n)%nat ->
    settled s -> loop args s = Parsed s' -> settled s'.
Proof.
  induction n as [|n IH]; intros args s s' Hl H E.
  - destruct args; [|cbn [length] in Hl; lia]. injection E as <-. exact H.
  - destruct args as [|tok rest]; [injection E as <-; exact H|].
    cbn [parse_args] in E.
    destruct (one tok (hd_error rest) s) as [[s1 [|]]| | |] eqn:E1; try discriminate.
    + pose proof (parse_one_settled _ _ _ _ _ H E1) as H1.
      destruct rest as [|v rest']; [injection E as <-; exact H1|].
      apply (IH rest' s1 s'); [cbn [length] in Hl; lia | exact H1 | exact E].
    + pose proof (parse_one_settled _ _ _ _ _ H E1) as H1.
      apply (IH rest s1 s'); [cbn [length] in Hl; lia | exact H1 | exact E].
Qed.

Lemma initial_options_settled : settled initial_options.
Proof.
  unfold settled; cbn.
  split; [left; reflexivity|]. split; [lia|]. split; [lia|]. split; [exact I|].
  split; intros w h E; discriminate.
Qed.

(** X22.  Whenever the option loop and the two mandatory-option checks
    let the program go on, both devices have been named, the blur
    strength is unset or odd and positive, the thread count is not zero,
    the frame-rate cap is not negative, a capture geometry given has
    positive dimensions, and a virtual geometry given has a positive
    height and an even width. *)
Theorem main_options_are_settled (args : list string) (s : options) :
  main_options scan_int scan_geometry stoi_16 args = Parsed s ->
  settled s /\ ccam s <> None /\ vcam s <> None.
Proof.
  unfold main_options. destruct args as [|tok rest]; [discriminate|].
  destruct (loop (tok :: rest) initial_options) as [s1| | |] eqn:E; cbn [bindp];
    try discriminate.
  destruct (ccam s1) eqn:C; [|discriminate].
  destruct (vcam s1) eqn:V; [|discriminate].
  intros P; injection P as <-.
  split; [|split; congruence].
  eapply parse_args_settled; [reflexivity | apply initial_options_settled | exact E].
Qed.

End OptionLoopFacts.

Section ValueSwitches.

Import Orchestrator Cli.

Variable scan_int : string -> scanned.
Variable scan_geometry : string -> Z * Z * Z.
Variable stoi_16 : string -> option Z.

(** X23.  Each of the seventeen spellings of a switch that takes a value
    stops the program with a usage error, exit code 1, when it is the
    last token and when the token after it begins with a dash; so no
    value, a negative number included, can begin with a dash. *)
Theorem value_switches_need_a_value (tok : string) (s : options) :
  In tok ["-v"; "-c"; "-b"; "-m"; "-p"; "-w"; "-h"; "--cg"; "-cg";
          "--camera-geometry"; "--vg"; "-vg"; "--virtual-geometry"; "-f"; "-t";
          "--max-fps"; "-mf"]%string ->
  parse_one scan_int scan_geometry stoi_16 tok None s
    = Stopped 1 "Option require a value" /\
  (forall rest, parse_args scan_int scan_geometry stoi_16 [tok] s
                = Stopped 1 "Option require a value" /\
                forall v, starts_with_dash v = true ->
                  parse_args scan_int scan_geometry stoi_16 (tok :: v :: rest) s
                  = Stopped 1 "Option require a value found").
Proof.
  intros H. cbn [In] in H.
  repeat (destruct H as [<-|H]; [
    split; [reflexivity|]; intros rest; split; [reflexivity|];
    intros v Hv; cbn [parse_args hd_error]; unfold parse_one; cbn;
    unfold with_value, hasValidArgument; rewrite Hv; reflexivity |]).
  destruct H.
Qed.

(** X24.  A device name is used as it is when it begins with [/dev/] and
    gets that prefix otherwise; so the path opened always begins with
    [/dev/], and normalising twice changes nothing. *)
Theorem device_path_is_under_dev (name : string) :
  prefix "/dev/" (device_path name) = true /\
  device_path (device_path name) = device_path name /\
  (prefix "/dev/" name = true -> device_path name = name) /\
  (prefix "/dev/" name = false -> device_path name = ("/dev/" ++ name)%string).
Proof.
  assert (P : forall n, prefix "/dev/" ("/dev/" ++ n) = true).
  { intros n. apply prefix_correct. cbn. destruct n; reflexivity. }
  unfold device_path.
  destruct (prefix "/dev/" name) eqn:E.
  - rewrite E. repeat split; congruence.
  - rewrite P. repeat split; try congruence; apply P.
Qed.

End ValueSwitches.

Section OptionLoopExamples.

Import Orchestrator Cli.

Lemma value_switches_need_a_value_witness :
  parse_args (fun _ => scan_nomatch) (fun _ => (0, 0, 0)) (fun _ => None)
    ["-w"; "-640"]%string initial_options
    = Stopped 1 "Option require a value found".
Proof.
  assert (I : In "-w"%string
                ["-v"; "-c"; "-b"; "-m"; "-p"; "-w"; "-h"; "--cg"; "-cg";
                 "--camera-geometry"; "--vg"; "-vg"; "--virtual-geometry"; "-f";
                 "-t"; "--max-fps"; "-mf"]%string)
    by (cbn; tauto).
  exact (proj2 (proj2 (value_switches_need_a_value (fun _ => scan_nomatch)
                  (fun _ => (0, 0, 0)) (fun _ => None) "-w" initial_options I) [])
           "-640"%string eq_refl).
Defined.

Lemma main_options_are_settled_witness :
  exists s,
    main_options (fun _ => scan_nomatch) (fun _ => (0, 0, 0)) (fun _ => None)
      ["-c"; "video0"; "-v"; "video2"; "-p"; "bgblur:7"]%string = Parsed s /\
    settled s /\ ccam s <> None /\ vcam s <> None.
Proof.
  eexists. split; [reflexivity|].
  exact (main_options_are_settled (fun _ => scan_nomatch) (fun _ => (0, 0, 0))
           (fun _ => None) ["-c"; "video0"; "-v"; "video2"; "-p"; "bgblur:7"]%string
           _ eq_refl).
Defined.

End OptionLoopExamples.

(** ** Frames through the main loop *)

Section Routing.

Import Orchestrator MainLoop.

Variable divisor : Z.
Variable prepare : Mat -> Mat.
Variable render : nat -> Mat -> option Mat.

Lemma raw_at_set_raw (i : Z) (m : Mat) (b : buffers) :
  raw_at (idx (set_raw i m b)) (set_raw (idx b) m b) = m.
Proof.
  unfold set_raw, raw_at. destruct (i =? 0); cbn [idx];
    destruct (idx b =? 0) eqn:E; cbn [idx raw0 raw1]; rewrite ?E; reflexivity.
Qed.

Lemma idx_set_raw (i : Z) (m : Mat) (b : buffers) : idx (set_raw i m b) = idx b.
Proof. unfold set_raw. destruct (i =? 0); reflexivity. Qed.

Lemma raw_at_same (i : Z) (m : Mat) (b : buffers) : raw_at i (set_raw i m b) = m.
Proof. unfold set_raw, raw_at. destruct (i =? 0) eqn:E; cbn; now rewrite ?E. Qed.

(** What a turn does with a frame that passes the sanity check and the
    throttle, from a state whose [idx] is 0 or 1: the frame submitted is
    the prepared frame, in both modes. *)
Lemma iteration_let_through (sendPrevious : bool) (n : nat) (frame : Mat)
    (st : loop_state) :
  idx (bufs st) = 0 \/ idx (bufs st) = 1 ->
  (rows frame =? 0) || (cols frame =? 0) = false ->
  (skip st <? divisor) = false ->
  (exists displayed st',
     iteration sendPrevious divisor prepare render n frame st
       = (ev_frame (prepare frame) displayed, Some st') /\
     skip st' = 1 /\ (idx (bufs st') = 0 \/ idx (bufs st') = 1)) \/
  iteration sendPrevious divisor prepare render n frame st
    = (ev_fatal (prepare frame), None).
Proof.
  intros Hi E Es. unfold iteration.
  replace (raw_at (idx (set_raw (idx (bufs st)) frame (bufs st)))
             (set_raw (idx (bufs st)) frame (bufs st))) with frame
    by (symmetry; apply raw_at_set_raw).
  rewrite E, Es.
  destruct st as [[r0 r1 i] sk]. cbn [bufs idx skip] in *.
  destruct Hi as [-> | ->]; destruct sendPrevious;
    cbn [set_raw set_idx raw_at idx raw0 raw1 Z.eqb];
    try change (other 0) with 1; try change (other 1) with 0;
    cbn [set_raw set_idx raw_at idx raw0 raw1 Z.eqb].
  - destruct (cols r1 =? 0);
      cbn [set_raw set_idx raw_at idx raw0 raw1 Z.eqb];
      match goal with |- context [render n ?d] => destruct (render n d) end;
      [left; do 2 eexists; split; [reflexivity|]; cbn; auto | right; reflexivity
      |left; do 2 eexists; split; [reflexivity|]; cbn; auto | right; reflexivity].
  - destruct (render n (prepare frame));
      [left; do 2 eexists; split; [reflexivity|]; cbn; auto | right; reflexivity].
  - destruct (cols r0 =? 0);
      cbn [set_raw set_idx raw_at idx raw0 raw1 Z.eqb];
      match goal with |- context [render n ?d] => destruct (render n d) end;
      [left; do 2 eexists; split; [reflexivity|]; cbn; auto | right; reflexivity
      |left; do 2 eexists; split; [reflexivity|]; cbn; auto | right; reflexivity].
  - destruct (render n (prepare frame));
      [left; do 2 eexists; split; [reflexivity|]; cbn; auto | right; reflexivity].
Qed.

(** The decisions taken are those of [throttle], up to the turn that
    ends the program; the frames submitted are the prepared frames let
    through; every turn that submits a frame displays one, but for the
    turn that ends the program, which is the last. *)
Lemma turns_shape (sendPrevious : bool) (captured : list Mat) :
  forall n st,
    idx (bufs st) = 0 \/ idx (bufs st) = 1 ->
    let events := turns sendPrevious divisor prepare render n captured st in
    map tick_of events
      = firstn (length events) (throttle divisor (skip st) captured) /\
    submitted_frames events
      = map prepare (let_through (map tick_of events) captured) /\
    (length (displayed_frames events) + length (fatal_frames events)
       = length (submitted_frames events))%nat /\
    (length (fatal_frames events) <= 1)%nat /\
    (fatal_frames events = [] -> length events = length captured).
Proof.
  induction captured as [|frame rest IH]; intros n st Hi; cbv zeta;
    cbn [turns throttle]; [repeat split; auto|].
  destruct ((rows frame =? 0) || (cols frame =? 0)) eqn:E;
    [|destruct (skip st <? divisor) eqn:Es].
  - unfold iteration.
    replace (raw_at (idx (set_raw (idx (bufs st)) frame (bufs st)))
               (set_raw (idx (bufs st)) frame (bufs st))) with frame
      by (symmetry; apply raw_at_set_raw).
    rewrite E.
    match goal with |- context [turns _ _ _ _ _ rest ?st'] =>
      destruct (IH (S n) st') as (A & B & C & D & F) end.
    { cbn [bufs]. rewrite idx_set_raw. exact Hi. }
    cbn [skip] in A.
    cbn [map tick_of length firstn submitted_frames displayed_frames fatal_frames
         let_through].
    split; [f_equal; exact A|]. split; [exact B|]. split; [exact C|].
    split; [exact D|]. intros Hf. f_equal. exact (F Hf).
  - unfold iteration.
    replace (raw_at (idx (set_raw (idx (bufs st)) frame (bufs st)))
               (set_raw (idx (bufs st)) frame (bufs st))) with frame
      by (symmetry; apply raw_at_set_raw).
    rewrite E, Es.
    match goal with |- context [turns _ _ _ _ _ rest ?st'] =>
      destruct (IH (S n) st') as (A & B & C & D & F) end.
    { cbn [bufs]. rewrite idx_set_raw. exact Hi. }
    cbn [skip] in A.
    cbn [map tick_of length firstn submitted_frames displayed_frames fatal_frames
         let_through].
    split; [f_equal; exact A|]. split; [exact B|]. split; [exact C|].
    split; [exact D|]. intros Hf. f_equal. exact (F Hf).
  - destruct (iteration_let_through sendPrevious n frame st Hi E Es)
      as [(displayed & st' & -> & Hs & Hi')| ->].
    + destruct (IH (S n) st' Hi') as (A & B & C & D & F).
      rewrite Hs in A.
      cbn [map tick_of length firstn submitted_frames displayed_frames fatal_frames
           let_through].
      split; [f_equal; exact A|]. split; [cbn [map]; f_equal; exact B|].
      split; [lia|]. split; [exact D|]. intros Hf. f_equal. exact (F Hf).
    + cbn [map tick_of length firstn submitted_frames displayed_frames fatal_frames
           let_through].
      split; [reflexivity|]. split; [reflexivity|]. split; [reflexivity|].
      split; [lia | discriminate].
Qed.

Lemma normal_turns (captured : list Mat) :
  forall n st,
    idx (bufs st) = 0 \/ idx (bufs st) = 1 ->
    submitted_frames (turns false divisor prepare render n captured st)
      = displayed_frames (turns false divisor prepare render n captured st)
        ++ fatal_frames (turns false divisor prepare render n captured st).
Proof.
  induction captured as [|frame rest IH]; intros n st Hi; cbn [turns];
    [reflexivity|].
  unfold iteration.
  replace (raw_at (idx (set_raw (idx (bufs st)) frame (bufs st)))
             (set_raw (idx (bufs st)) frame (bufs st))) with frame
    by (symmetry; apply raw_at_set_raw).
  destruct ((rows frame =? 0) || (cols frame =? 0)).
  - cbn [submitted_frames displayed_frames fatal_frames].
    apply IH. cbn [bufs]. rewrite idx_set_raw. exact Hi.
  - destruct (skip st <? divisor).
    + cbn [submitted_frames displayed_frames fatal_frames].
      apply IH. cbn [bufs]. rewrite idx_set_raw. exact Hi.
    + rewrite !raw_at_set_raw.
      destruct (render n (prepare frame)).
      * cbn [submitted_frames displayed_frames fatal_frames app].
        f_equal. apply IH. cbn [bufs]. rewrite !idx_set_raw. exact Hi.
      * reflexivity.
Qed.

(** X25.  Without [--video-delayed], each captured frame that passes
    the sanity check and the throttle is cropped and resized, submitted
    to the mask engine and, unless the rest of its turn ends the program
    (a background that cannot be read, a failed write), displayed
    itself, in the same turn: the frames displayed are the frames
    submitted, in capture order, but for the one frame of a turn that
    ended the program, which was submitted and never shown; and nothing
    else is ever submitted or displayed. *)
Theorem normal_mode_displays_the_submitted_frame (captured : list Mat) :
  let events := run false divisor prepare render captured in
  map tick_of events = firstn (length events) (main_loop divisor captured) /\
  submitted_frames events
    = map prepare (let_through (map tick_of events) captured) /\
  submitted_frames events = displayed_frames events ++ fatal_frames events /\
  (length (fatal_frames events) <= 1)%nat /\
  (fatal_frames events = [] ->
   length events = length captured /\
   displayed_frames events = submitted_frames events).
Proof.
  cbv zeta. unfold run, main_loop.
  assert (Hi : idx (bufs (initial_state divisor)) = 0 \/
               idx (bufs (initial_state divisor)) = 1) by (left; reflexivity).
  destruct (turns_shape false captured 0 (initial_state divisor) Hi)
    as (A & B & _ & D & F).
  pose proof (normal_turns captured 0 (initial_state divisor) Hi) as N.
  cbn [initial_state skip] in A.
  split; [exact A|]. split; [exact B|]. split; [exact N|]. split; [exact D|].
  intros Hf. split; [exact (F Hf)|].
  rewrite N, Hf, app_nil_r. reflexivity.
Qed.

Hypothesis prepare_nonempty :
  forall frame, nonempty_frame frame = true -> cols (prepare frame) <> 0.

(** Delayed mode once a frame has been processed: the buffer that [idx]
    does not select holds the frame submitted last, and each turn
    displays it. *)
Lemma delayed_turns (captured : list Mat) :
  forall n r0 r1 i sk,
    i = 0 \/ i = 1 ->
    cols (raw_at (other i) (mkBuffers r0 r1 i)) <> 0 ->
    let events :=
      turns true divisor prepare render n captured
        (mkLoopState (mkBuffers r0 r1 i) sk) in
    displayed_frames events
      = firstn (length (displayed_frames events))
          (raw_at (other i) (mkBuffers r0 r1 i) :: submitted_frames events).
Proof.
  induction captured as [|frame rest IH]; intros n r0 r1 i sk Hi Hlast; cbv zeta;
    cbn [turns]; [reflexivity|].
  assert (En : nonempty_frame frame = negb ((rows frame =? 0) || (cols frame =? 0)))
    by reflexivity.
  destruct Hi as [-> | ->].
  - change (other 0) with 1 in *. cbn [raw_at raw1 Z.eqb] in Hlast |- *.
    unfold iteration. cbn [bufs idx skip set_raw raw_at Z.eqb raw0 raw1].
    destruct ((rows frame =? 0) || (cols frame =? 0)) eqn:E.
    + cbn [submitted_frames displayed_frames].
      apply (IH (S n) frame r1 0 sk); [left; reflexivity | exact Hlast].
    + destruct (sk <? divisor).
      * cbn [submitted_frames displayed_frames].
        apply (IH (S n) frame r1 0 (int_cast (sk + 1)));
          [left; reflexivity | exact Hlast].
      * change (other 0) with 1. cbn [raw_at raw1 raw0 Z.eqb idx set_raw set_idx].
        replace (cols r1 =? 0) with false by (symmetry; apply Z.eqb_neq; exact Hlast).
        cbn [raw_at raw1 raw0 Z.eqb idx set_raw set_idx].
        change (other 0) with 1.
        cbn [raw_at raw1 raw0 Z.eqb idx set_raw set_idx].
        destruct (render n r1) as [written|]; [|reflexivity].
        cbn [raw_at raw1 raw0 Z.eqb idx set_raw set_idx submitted_frames
             displayed_frames length firstn].
        f_equal.
        pose proof (IH (S n) (prepare frame) written 1 1) as B. cbv zeta in B.
        change (other 1) with 0 in B. cbn [raw_at raw0 Z.eqb] in B.
        apply B; [right; reflexivity|].
        apply prepare_nonempty. rewrite En. reflexivity.
  - change (other 1) with 0 in *. cbn [raw_at raw0 Z.eqb] in Hlast |- *.
    unfold iteration. cbn [bufs idx skip set_raw raw_at Z.eqb raw0 raw1].
    destruct ((rows frame =? 0) || (cols frame =? 0)) eqn:E.
    + cbn [submitted_frames displayed_frames].
      apply (IH (S n) r0 frame 1 sk); [right; reflexivity | exact Hlast].
    + destruct (sk <? divisor).
      * cbn [submitted_frames displayed_frames].
        apply (IH (S n) r0 frame 1 (int_cast (sk + 1)));
          [right; reflexivity | exact Hlast].
      * change (other 1) with 0. cbn [raw_at raw1 raw0 Z.eqb idx set_raw set_idx].
        replace (cols r0 =? 0) with false by (symmetry; apply Z.eqb_neq; exact Hlast).
        cbn [raw_at raw1 raw0 Z.eqb idx set_raw set_idx].
        change (other 1) with 0.
        cbn [raw_at raw1 raw0 Z.eqb idx set_raw set_idx].
        destruct (render n r0) as [written|]; [|reflexivity].
        cbn [raw_at raw1 raw0 Z.eqb idx set_raw set_idx submitted_frames
             displayed_frames length firstn].
        f_equal.
        pose proof (IH (S n) written (prepare frame) 0 1) as B. cbv zeta in B.
        change (other 0) with 1 in B. cbn [raw_at raw1 Z.eqb] in B.
        apply B; [left; reflexivity|].
        apply prepare_nonempty. rewrite En. reflexivity.
Qed.

(** Delayed mode before any frame has been processed: the first frame
    let through is copied to the other buffer and displayed itself. *)
Lemma delayed_start (captured : list Mat) :
  forall n r0,
    let events :=
      turns true divisor prepare render n captured
        (mkLoopState (mkBuffers r0 Mat_empty 0) divisor) in
    displayed_frames events
      = firstn (length (displayed_frames events))
          match submitted_frames events with
          | [] => []
          | first :: later => first :: first :: later
          end.
Proof.
  induction captured as [|frame rest IH]; intros n r0; cbv zeta;
    cbn [turns]; [reflexivity|].
  assert (En : nonempty_frame frame = negb ((rows frame =? 0) || (cols frame =? 0)))
    by reflexivity.
  unfold iteration. cbn [bufs idx skip set_raw raw_at Z.eqb raw0 raw1].
  destruct ((rows frame =? 0) || (cols frame =? 0)) eqn:E.
  - cbn [submitted_frames displayed_frames]. apply IH.
  - rewrite Z.ltb_irrefl.
    change (other 0) with 1. cbn [raw_at raw1 raw0 Z.eqb idx set_raw set_idx].
    change (cols Mat_empty =? 0) with true.
    cbn [raw_at raw1 raw0 Z.eqb idx set_raw set_idx].
    change (other 0) with 1.
    cbn [raw_at raw1 raw0 Z.eqb idx set_raw set_idx].
    destruct (render n (prepare frame)) as [written|]; [|reflexivity].
    cbn [raw_at raw1 raw0 Z.eqb idx set_raw set_idx submitted_frames
         displayed_frames length firstn].
    f_equal.
    pose proof (delayed_turns rest (S n) (prepare frame) written 1 1) as B.
    cbv zeta in B. change (other 1) with 0 in B. cbn [raw_at raw0 Z.eqb] in B.
    apply B; [right; reflexivity|].
    apply prepare_nonempty. rewrite En. reflexivity.
Qed.

(** X26.  With [--video-delayed], each captured frame that passes the
    sanity check and the throttle is submitted to the mask engine in its
    own turn, but the frame displayed in that turn is the one submitted
    in the previous such turn; only the very first is displayed in the
    turn it is submitted.  So the frames displayed are the first frame
    submitted followed by the frames submitted, one for each turn that
    submitted a frame and did not end the program; a turn that ends the
    program has submitted its frame and displays nothing. *)
Theorem delayed_mode_displays_the_previous_frame (captured : list Mat) :
  let events := run true divisor prepare render captured in
  map tick_of events = firstn (length events) (main_loop divisor captured) /\
  submitted_frames events
    = map prepare (let_through (map tick_of events) captured) /\
  displayed_frames events
    = firstn (length (displayed_frames events))
        match submitted_frames events with
        | [] => []
        | first :: later => first :: first :: later
        end /\
  (length (displayed_frames events) + length (fatal_frames events)
     = length (submitted_frames events))%nat /\
  (length (fatal_frames events) <= 1)%nat /\
  (fatal_frames events = [] ->
   length events = length captured /\
   displayed_frames events
     = match submitted_frames events with
       | [] => []
       | first :: later => first :: removelast (first :: later)
       end).
Proof.
  cbv zeta. unfold run, main_loop.
  assert (Hi : idx (bufs (initial_state divisor)) = 0 \/
               idx (bufs (initial_state divisor)) = 1) by (left; reflexivity).
  destruct (turns_shape true captured 0 (initial_state divisor) Hi)
    as (A & B & C & D & F).
  pose proof (delayed_start captured 0 Mat_empty) as S. cbv zeta in S.
  cbn [initial_state skip] in A. unfold initial_state in *.
  split; [exact A|]. split; [exact B|]. split; [exact S|].
  split; [exact C|]. split; [exact D|].
  intros Hf. split; [exact (F Hf)|].
  rewrite Hf in C. cbn [length] in C. rewrite Nat.add_0_r in C.
  rewrite S at 1. rewrite C.
  destruct (submitted_frames _) as [|first later]; [reflexivity|].
  cbn [length firstn]. f_equal.
  clear. revert first. induction later as [|x later IH]; intros first;
    [reflexivity|].
  cbn [length firstn removelast]. f_equal. apply IH.
Qed.

End Routing.

Section RoutingExamples.

Import Orchestrator MainLoop.

Lemma normal_mode_displays_the_submitted_frame_witness :
  let F1 := mkMat 1 1 CV_8UC3 [1; 1; 1] in
  let F2 := mkMat 1 1 CV_8UC3 [2; 2; 2] in
  let written := fun (_ : nat) (_ : Mat) => Some Mat_empty in
  fatal_frames (run false 1 (fun m => m) written [F1; Mat_empty; F2]) = [] /\
  length (run false 1 (fun m => m) written [F1; Mat_empty; F2]) = 3%nat /\
  displayed_frames (run false 1 (fun m => m) written [F1; Mat_empty; F2])
    = submitted_frames (run false 1 (fun m => m) written [F1; Mat_empty; F2]).
Proof.
  cbv zeta.
  assert (Hf : fatal_frames
                 (run false 1 (fun m => m) (fun (_ : nat) (_ : Mat) => Some Mat_empty)
                    [mkMat 1 1 CV_8UC3 [1; 1; 1]; Mat_empty;
                     mkMat 1 1 CV_8UC3 [2; 2; 2]]) = []) by reflexivity.
  split; [exact Hf|].
  exact (proj2 (proj2 (proj2 (proj2
           (normal_mode_displays_the_submitted_frame 1 (fun m => m)
              (fun (_ : nat) (_ : Mat) => Some Mat_empty)
              [mkMat 1 1 CV_8UC3 [1; 1; 1]; Mat_empty;
               mkMat 1 1 CV_8UC3 [2; 2; 2]])))) Hf).
Defined.

Lemma delayed_mode_displays_the_previous_frame_witness :
  let F1 := mkMat 1 1 CV_8UC3 [1; 1; 1] in
  let F2 := mkMat 1 1 CV_8UC3 [2; 2; 2] in
  let F3 := mkMat 1 1 CV_8UC3 [3; 3; 3] in
  let written := fun (n : nat) (_ : Mat) =>
    match n with 2%nat => None | _ => Some Mat_empty end in
  displayed_frames (run true 1 (fun m => m) written [F1; F2; F3]) = [F1; F1] /\
  submitted_frames (run true 1 (fun m => m) written [F1; F2; F3]) = [F1; F2; F3] /\
  fatal_frames (run true 1 (fun m => m) written [F1; F2; F3]) = [F3] /\
  displayed_frames (run true 1 (fun m => m) written [F1; F2; F3])
    = firstn (length (displayed_frames (run true 1 (fun m => m) written [F1; F2; F3])))
        match submitted_frames (run true 1 (fun m => m) written [F1; F2; F3]) with
        | [] => []
        | first :: later => first :: first :: later
        end.
Proof.
  cbv zeta.
  assert (H : forall frame, nonempty_frame frame = true -> cols frame <> 0).
  { intros frame. unfold nonempty_frame. intros E. apply negb_true_iff in E.
    apply orb_false_elim in E. destruct E as [_ E]. apply Z.eqb_neq in E. exact E. }
  split; [reflexivity|]. split; [reflexivity|]. split; [reflexivity|].
  exact (proj1 (proj2 (proj2 (delayed_mode_displays_the_previous_frame 1 (fun m => m)
           (fun (n : nat) (_ : Mat) =>
              match n with 2%nat => None | _ => Some Mat_empty end) H
           [mkMat 1 1 CV_8UC3 [1; 1; 1]; mkMat 1 1 CV_8UC3 [2; 2; 2];
            mkMat 1 1 CV_8UC3 [3; 3; 3]])))).
Defined.

End RoutingExamples.

(** ** Executions of the mask engine *)

Section Subsequences.

Import EngineRuns.

Context {A : Type}.

Lemma subsequence_refl (l : list A) : subsequence l l.
Proof. induction l; constructor; assumption. Qed.

Lemma subsequence_app_r (sub l extra : list A) :
  subsequence sub l -> subsequence sub (l ++ extra).
Proof.
  induction 1 as [|x sub l _ IH|x sub l _ IH]; cbn [app].
  - induction extra; constructor; assumption.
  - constructor; exact IH.
  - constructor; exact IH.
Qed.

Lemma subsequence_snoc (sub l : list A) (x : A) :
  subsequence sub l -> subsequence (sub ++ [x]) (l ++ [x]).
Proof.
  induction 1 as [|y sub l _ IH|y sub l _ IH]; cbn [app].
  - apply sub_keep, sub_nil.
  - constructor; exact IH.
  - constructor; exact IH.
Qed.

Lemma subsequence_length (sub l : list A) :
  subsequence sub l -> (length sub <= length l)%nat.
Proof. induction 1; cbn [length]; lia. Qed.

Lemma subsequence_In (sub l : list A) (x : A) :
  subsequence sub l -> In x sub -> In x l.
Proof.
  induction 1 as [|y sub l _ IH|y sub l _ IH]; cbn [In]; intros H.
  - exact H.
  - right; auto.
  - destruct H; [left | right]; auto.
Qed.

Lemma last_app_nonempty (l extra : list A) (d : A) :
  extra <> [] -> last (l ++ extra) d = last extra d.
Proof.
  intros H. induction l as [|x l IH]; [reflexivity|].
  cbn [app]. rewrite <- IH. cbn [last].
  destruct (l ++ extra) eqn:E; [|reflexivity].
  apply app_eq_nil in E. destruct E; contradiction.
Qed.

End Subsequences.

Section EngineInvariant.

Import MaskEngine EngineRuns.

Variable bs_maskgen_process : Mat -> Mat -> option Mat.

Lemma construct_consistent : consistent [] construct.
Proof.
  constructor; cbn; try discriminate.
  - reflexivity.
  - exists [], []. split; [reflexivity|]. split; [split; [discriminate | congruence]|].
    split; [congruence|]. split; [apply sub_nil | congruence].
Qed.

Lemma frame_at_store_mask (b b' : buffer) (m : Mat) (c : CalcMask) :
  frame_at b (store_mask b' m c) = frame_at b c.
Proof. destruct b, b'; reflexivity. Qed.

Lemma frame_at_store_other (b b' : buffer) (m : Mat) (c : CalcMask) :
  b <> b' -> frame_at b (store_frame b' m c) = frame_at b c.
Proof. destruct b, b'; intros H; try reflexivity; congruence. Qed.

Lemma mask_at_store_other (b b' : buffer) (m : Mat) (c : CalcMask) :
  b <> b' -> mask_at b (store_mask b' m c) = mask_at b c.
Proof. destruct b, b'; intros H; try reflexivity; congruence. Qed.

Lemma store_frame_fields (b : buffer) (m : Mat) (c : CalcMask) :
  frame_current (store_frame b m c) = frame_current c /\
  frame_next (store_frame b m c) = frame_next c /\
  mask_current (store_frame b m c) = mask_current c /\
  mask_out (store_frame b m c) = mask_out c /\
  state (store_frame b m c) = state c /\
  new_frame (store_frame b m c) = new_frame c /\
  new_mask (store_frame b m c) = new_mask c.
Proof. destruct b; repeat split. Qed.

Lemma store_mask_fields (b : buffer) (m : Mat) (c : CalcMask) :
  frame_current (store_mask b m c) = frame_current c /\
  frame_next (store_mask b m c) = frame_next c /\
  mask_current (store_mask b m c) = mask_current c /\
  mask_out (store_mask b m c) = mask_out c /\
  state (store_mask b m c) = state c /\
  new_frame (store_mask b m c) = new_frame c /\
  new_mask (store_mask b m c) = new_mask c.
Proof. destruct b; repeat split. Qed.

(** A step of the worker keeps the engine consistent. *)
Lemma worker_step_consistent (subs : list Mat) (s s' : system) :
  consistent subs s ->
  worker_step bs_maskgen_process s = Some s' ->
  consistent subs s'.
Proof.
  intros [Hf Hm Hs Hr Hc Hw Hsw (taken & pending & Esub & Hflag & Hnext & Hacc)].
  destruct s as [c w n log]. cbn [engine pc notified processed] in *.
  unfold worker_step. cbn [engine pc notified processed].
  destruct w; try discriminate.
  - (* at_loop_test *)
    rewrite Hs. intros E; injection E as <-.
    constructor; cbn [engine pc notified processed goto]; try assumption;
      try discriminate.
    exists taken, pending. cbn [engine pc notified processed goto]. rewrite ?N.
      split; [exact Esub|]. split; [exact Hflag|]. split; [exact Hnext|]. exact Hacc.
  - (* at_lock_frame *)
    intros E; injection E as <-.
    constructor; cbn [engine pc notified processed goto]; try assumption;
      try discriminate.
    exists taken, pending. cbn [engine pc notified processed goto]. rewrite ?N.
      split; [exact Esub|]. split; [exact Hflag|]. split; [exact Hnext|]. exact Hacc.
  - (* at_new_frame_test *)
    destruct (new_frame c) eqn:N; intros E; injection E as <-.
    + constructor; cbn [engine pc notified processed goto]; try assumption;
        try discriminate; try (intros _; exact N).
      exists taken, pending. cbn [engine pc notified processed goto]. rewrite ?N.
      split; [exact Esub|]. split; [exact Hflag|]. split; [exact Hnext|]. exact Hacc.
    + constructor; cbn [engine pc notified processed]; try assumption;
        try discriminate; try (intros _; exact N).
      exists taken, pending. cbn [engine pc notified processed goto]. rewrite ?N.
      split; [exact Esub|]. split; [exact Hflag|]. split; [exact Hnext|]. exact Hacc.
  - (* at_wait_call *)
    intros E; injection E as <-.
    constructor; cbn [engine pc notified processed]; try assumption;
      try discriminate; try (intros _; exact (Hc eq_refl)).
    exists taken, pending. cbn [engine pc notified processed goto].
      split; [exact Esub|]. split; [exact Hflag|]. split; [exact Hnext|]. exact Hacc.
  - (* in_wait *)
    destruct n; [|discriminate]. intros E; injection E as <-.
    constructor; cbn [engine pc notified processed]; try assumption;
      try discriminate.
    exists taken, pending. cbn [engine pc notified processed goto]. rewrite ?N.
      split; [exact Esub|]. split; [exact Hflag|]. split; [exact Hnext|]. exact Hacc.
  - (* at_frame_swap *)
    intros E; injection E as <-.
    specialize (Hsw eq_refl).
    assert (Hp : pending <> []) by (apply Hflag; exact Hsw).
    constructor; cbn [engine pc notified processed goto with_engine swap_frames
                        set_new_frame frame_current frame_next mask_current mask_out
                        state new_frame]; try assumption; try discriminate.
    + congruence.
    + exists (taken ++ pending), [].
      cbn [engine pc notified processed goto with_engine swap_frames
           set_new_frame frame_current frame_next new_frame].
      split; [now rewrite app_nil_r|].
      split; [split; [discriminate | congruence]|].
      split; [congruence|].
      split; [intros E; apply app_eq_nil in E; destruct E; contradiction|].
      split.
      * rewrite last_app_nonempty by exact Hp. rewrite <- (Hnext Hp).
        destruct (frame_next c); reflexivity.
      * rewrite removelast_app by exact Hp. apply subsequence_app_r. exact (proj1 Hacc).
  - (* at_process *)
    destruct Hacc as (Ht & Hcur & Hsub).
    assert (Hlog : subsequence (log ++ [frame_at (frame_current c) c]) taken /\
                   (taken <> [] ->
                    log ++ [frame_at (frame_current c) c] <> [] /\
                    last (log ++ [frame_at (frame_current c) c]) Mat_empty
                      = last taken Mat_empty)).
    { split.
      - rewrite Hcur. rewrite (app_removelast_last Mat_empty Ht) at 2.
        apply subsequence_snoc. exact Hsub.
      - intros _. split.
        + intros E. apply app_eq_nil in E. destruct E; discriminate.
        + rewrite last_last. exact Hcur. }
    destruct (bs_maskgen_process _ _) as [m|]; intros E; injection E as <-.
    + destruct (store_mask_fields (mask_current c) m c)
        as (F1 & F2 & F3 & F4 & F5 & F6 & F7).
      constructor; cbn [engine pc notified processed goto with_engine];
        rewrite ?F1, ?F2, ?F3, ?F4, ?F5, ?F6; try assumption; try discriminate.
      exists taken, pending.
      cbn [engine pc notified processed goto with_engine].
      rewrite ?F2, ?F6, frame_at_store_mask.
      split; [exact Esub|]. split; [exact Hflag|]. split; [exact Hnext|]. exact Hlog.
    + constructor; cbn [engine pc notified processed goto]; try assumption;
        try discriminate.
      exists taken, pending. cbn [engine pc notified processed goto]. rewrite ?N.
      split; [exact Esub|]. split; [exact Hflag|]. split; [exact Hnext|]. exact Hlog.
  - (* at_lock_mask *)
    intros E; injection E as <-.
    constructor; cbn [engine pc notified processed goto]; try assumption;
      try discriminate.
    exists taken, pending. cbn [engine pc notified processed goto]. rewrite ?N.
      split; [exact Esub|]. split; [exact Hflag|]. split; [exact Hnext|]. exact Hacc.
  - (* at_mask_swap *)
    intros E; injection E as <-.
    constructor; cbn [engine pc notified processed goto with_engine swap_masks
                        set_new_mask frame_current frame_next mask_current mask_out
                        state new_frame]; try assumption; try discriminate.
    + congruence.
    + exists taken, pending.
      cbn [engine pc notified processed goto with_engine swap_masks set_new_mask
           frame_current frame_next new_frame].
      split; [assumption|]. split; [assumption|].
      split; [|assumption].
      intros Hp. rewrite <- (Hnext Hp). destruct (frame_next c); reflexivity.
Qed.

Lemma notify_all_fields (s : system) :
  engine (notify_all s) = engine s /\ pc (notify_all s) = pc s /\
  processed (notify_all s) = processed s /\
  (pc s = in_wait -> notified (notify_all s) = true).
Proof.
  unfold notify_all. destruct (pc s) eqn:P; repeat split; try discriminate; assumption.
Qed.

(** A submission keeps the engine consistent. *)
Lemma set_input_frame_consistent (subs : list Mat) (s s' : system) (frame : Mat) :
  consistent subs s ->
  set_input_frame frame s = Some s' ->
  consistent (subs ++ [frame]) s'.
Proof.
  intros [Hf Hm Hs Hr Hc Hw Hsw (taken & pending & Esub & Hflag & Hnext & Hacc)].
  unfold set_input_frame.
  destruct (worker_holds_lock_frame s) eqn:L; [discriminate|].
  intros E; injection E as <-.
  destruct (notify_all_fields
              (with_engine (set_new_frame true
                 (store_frame (frame_next (engine s)) frame (engine s))) s))
    as (Ne & Np & Nl & Nn).
  destruct (store_frame_fields (frame_next (engine s)) frame (engine s))
    as (F1 & F2 & F3 & F4 & F5 & F6 & F7).
  cbn [engine pc processed with_engine] in Ne, Np, Nl, Nn.
  constructor; rewrite ?Ne, ?Np;
    cbn [set_new_frame frame_current frame_next mask_current mask_out state new_frame];
    rewrite ?F1, ?F2, ?F3, ?F4, ?F5; try assumption.
  - intros P. unfold worker_holds_lock_frame in L. rewrite P in L. discriminate.
  - intros P. symmetry. apply Nn. exact P.
  - reflexivity.
  - exists taken, (pending ++ [frame]). rewrite Ne, Np, Nl.
    cbn [set_new_frame frame_current frame_next new_frame].
    rewrite ?F1, ?F2.
    split; [rewrite Esub; symmetry; apply app_assoc|].
    split; [split; [intros _ E; apply app_eq_nil in E; destruct E; discriminate
                   | reflexivity]|].
    split.
    + intros _. rewrite last_last.
      assert (G : forall b m c,
                 frame_at b (set_new_frame true (store_frame b m c)) = m)
        by (intros b m c; destruct b; reflexivity).
      apply G.
    + assert (G : forall b b' m c, b <> b' ->
                 frame_at b (set_new_frame true (store_frame b' m c)) = frame_at b c)
        by (intros b b' m c H; destruct b, b'; try reflexivity; congruence).
      destruct (pc s); try exact Hacc.
      destruct Hacc as (Ht & Hcur & Hsub).
      split; [exact Ht|]. split; [|exact Hsub].
      rewrite G by exact Hf. exact Hcur.
Qed.

(** A fetch keeps the engine consistent. *)
Lemma get_output_mask_consistent (subs : list Mat) (s s' : system) (out result : Mat) :
  consistent subs s ->
  get_output_mask out s = Some (s', result) ->
  consistent subs s'.
Proof.
  intros H. unfold get_output_mask.
  destruct (new_mask (engine s)); [|intros E; injection E as <- _; exact H].
  destruct (worker_holds_lock_mask s); [discriminate|].
  intros E; injection E as <- _.
  destruct H as [Hf Hm Hs Hr Hc Hw Hsw (taken & pending & Esub & Hflag & Hnext & Hacc)].
  constructor; cbn [engine pc notified with_engine set_new_mask frame_current
                      frame_next mask_current mask_out state new_frame];
    try assumption.
  exists taken, pending.
  cbn [engine pc processed with_engine set_new_mask frame_current frame_next new_frame].
  split; [exact Esub|]. split; [exact Hflag|].
  split; [intros Hp; rewrite <- (Hnext Hp);
          destruct (frame_next (engine s)); reflexivity|].
  destruct (pc s); exact Hacc.
Qed.

(** Every state of a running engine is consistent. *)
Lemma running_consistent (subs : list Mat) (s : system) :
  running bs_maskgen_process subs s -> consistent subs s.
Proof.
  induction 1 as [| subs s s' _ IH E | subs s s' frame _ IH E
                  | subs s s' out result _ IH E].
  - apply construct_consistent.
  - eapply worker_step_consistent; eassumption.
  - eapply set_input_frame_consistent; eassumption.
  - eapply get_output_mask_consistent; eassumption.
Qed.

End EngineInvariant.

Section EngineTheorems.

Import MaskEngine EngineRuns.

Variable bs_maskgen_process : Mat -> Mat -> option Mat.

(** X27.  The buffers of a running engine never alias: the frame the
    worker reads and the frame the caller writes are different slots, and
    so are the mask the worker writes and the mask the caller reads.  So
    a submission never changes the frame under inference, and no step of
    the worker other than the publishing exchange changes the mask that
    [get_output_mask] copies. *)
Theorem buffers_never_alias (subs : list Mat) (s : system) :
  running bs_maskgen_process subs s ->
  frame_current (engine s) <> frame_next (engine s) /\
  mask_current (engine s) <> mask_out (engine s) /\
  (forall frame s', set_input_frame frame s = Some s' ->
     frame_at (frame_current (engine s')) (engine s')
       = frame_at (frame_current (engine s)) (engine s)) /\
  (forall s', worker_step bs_maskgen_process s = Some s' -> pc s <> at_mask_swap ->
     mask_at (mask_out (engine s')) (engine s')
       = mask_at (mask_out (engine s)) (engine s)).
Proof.
  intros R. destruct (running_consistent _ _ _ R) as [Hf Hm _ _ _ _ _ _].
  split; [exact Hf|]. split; [exact Hm|]. split.
  - intros frame s' E. unfold set_input_frame in E.
    destruct (worker_holds_lock_frame s); [discriminate|]. injection E as <-.
    rewrite notify_all_engine. cbn [engine with_engine].
    destruct (engine s) as [st m1 m2 mc mo f1 f2 fc fn nf nm].
    cbn [frame_current frame_next] in Hf |- *.
    destruct fc, fn; try congruence; reflexivity.
  - intros s' E Hpc. unfold worker_step in E.
    destruct s as [c w n log]. cbn [engine pc notified processed] in *.
    destruct w; try discriminate; try congruence;
      try (injection E as <-; reflexivity).
    + destruct (state c); injection E as <-; reflexivity.
    + destruct (new_frame c); injection E as <-; reflexivity.
    + destruct n; [|discriminate]. injection E as <-; reflexivity.
    + destruct (bs_maskgen_process _ _); injection E as <-; [|reflexivity].
      cbn [engine goto with_engine].
      destruct c as [st m1 m2 mc mo f1 f2 fc fn nf nm].
      cbn [mask_current mask_out] in Hm |- *.
      destruct mc, mo; try congruence; reflexivity.
Qed.

(** X28.  The worker only ever infers frames that were submitted, in the
    order of their submission and each submission at most once: the
    frames handed to [bs_maskgen_process] form a subsequence of the
    frames submitted (submissions may be dropped, never repeated,
    reordered or invented). *)
Theorem processed_frames_were_submitted (subs : list Mat) (s : system) :
  running bs_maskgen_process subs s ->
  subsequence (processed s) subs /\
  (length (processed s) <= length subs)%nat /\
  (forall frame, In frame (processed s) -> In frame subs).
Proof.
  intros R.
  destruct (running_consistent _ _ _ R)
    as [_ _ _ _ _ _ _ (taken & pending & Esub & _ & _ & Hacc)].
  assert (S : subsequence (processed s) subs).
  { rewrite Esub. apply subsequence_app_r.
    destruct (pc s); try exact (proj1 Hacc).
    destruct Hacc as (Ht & _ & Hsub).
    rewrite (app_removelast_last Mat_empty Ht). apply subsequence_app_r. exact Hsub. }
  split; [exact S|]. split.
  - apply subsequence_length. exact S.
  - intros frame. apply subsequence_In. exact S.
Qed.

(** X29.  No submission is lost while the worker sleeps.  Whenever the
    worker of a running engine cannot move, either the process has been
    ended by a failed inference, or the worker waits with no frame
    flagged, and then, if anything was ever submitted, the last frame it
    has processed is the last frame submitted. *)
Theorem idle_worker_has_processed_the_latest_frame (subs : list Mat) (s : system) :
  running bs_maskgen_process subs s ->
  worker_step bs_maskgen_process s = None ->
  pc s = exited \/
  (pc s = in_wait /\ new_frame (engine s) = false /\
   (subs <> [] ->
    processed s <> [] /\
    last (processed s) Mat_empty = last subs Mat_empty)).
Proof.
  intros R E.
  destruct (running_consistent _ _ _ R)
    as [_ _ Hs Hr _ Hw _ (taken & pending & Esub & Hflag & _ & Hacc)].
  unfold worker_step in E.
  destruct (pc s) eqn:P; try discriminate; try congruence.
  - destruct (state (engine s)); discriminate.
  - destruct (new_frame (engine s)); discriminate.
  - right. destruct (notified s) eqn:N; [discriminate|].
    specialize (Hw eq_refl).
    split; [reflexivity|]. split; [exact Hw|].
    assert (Hp : pending = []).
    { destruct pending as [|x l]; [reflexivity|].
      assert (new_frame (engine s) = true) by (apply Hflag; discriminate).
      congruence. }
    subst pending. rewrite app_nil_r in Esub. subst taken.
    exact (proj2 Hacc).
  - destruct (bs_maskgen_process _ _); discriminate.
  - left; reflexivity.
Qed.

(** X30.  Submission, inference and fetch compose: a frame submitted to
    a waiting worker whose inference succeeds is processed, its mask is
    published, and the next [get_output_mask] hands exactly that mask to
    the caller and clears the flag, so that a further fetch leaves the
    caller's buffer as it is. *)
Theorem submitted_frame_yields_its_mask (s : system) (frame mask out : Mat) :
  pc s = in_wait ->
  bs_maskgen_process frame (mask_at (mask_current (engine s)) (engine s)) = Some mask ->
  exists s1 s3,
    set_input_frame frame s = Some s1 /\
    processed (run_worker bs_maskgen_process 9 s1) = processed s ++ [frame] /\
    get_output_mask out (run_worker bs_maskgen_process 9 s1) = Some (s3, mask) /\
    forall out', get_output_mask out' s3 = Some (s3, out').
Proof.
  destruct s as [c w n log]; cbn [pc engine]; intros -> Hinf.
  destruct c as [st m1 m2 mc mo f1 f2 fc fn nf nm].
  cbn [engine mask_at mask_current] in Hinf.
  destruct fn, mc, st;
    cbn [mask_at mask1 mask2] in Hinf;
    do 2 eexists; (split; [reflexivity|]);
    cbn [engine with_engine frame_next store_frame set_new_frame notify_all pc
         processed notified mask_at mask_current];
    cbn [run_worker worker_step engine pc notified processed goto with_engine
         store_frame set_new_frame swap_frames new_frame frame_current frame_at
         frame_next mask_at mask_current state notify_all frame1 frame2 mask1 mask2
         mask_out new_mask store_mask swap_masks set_new_mask];
    rewrite Hinf;
    cbn [run_worker worker_step engine pc notified processed goto with_engine
         store_frame set_new_frame swap_frames new_frame frame_current frame_at
         frame_next mask_at mask_current state notify_all frame1 frame2 mask1 mask2
         mask_out new_mask store_mask swap_masks set_new_mask];
    (split; [reflexivity|]); (split; [reflexivity|]); intros out'; reflexivity.
Qed.

End EngineTheorems.

Section EngineRunsExamples.

Import MaskEngine EngineRuns.

(** Letting the worker run is an execution. *)
Lemma running_run_worker (infer : Mat -> Mat -> option Mat) (fuel : nat) :
  forall subs s, running infer subs s -> running infer subs (run_worker infer fuel s).
Proof.
  induction fuel as [|fuel IH]; intros subs s R; cbn [run_worker]; [exact R|].
  destruct (worker_step infer s) as [s'|] eqn:E; [|exact R].
  apply IH. eapply worker_moves; eassumption.
Defined.

(** An engine built, its worker gone to sleep, one frame submitted and
    the worker left to run until it sleeps again. *)
Lemma example_run :
  running (fun _ mask => Some mask) [mkMat 1 1 CV_8UC3 [1; 1; 1]]
    (run_worker (fun _ mask => Some mask) 10
       (notify_all (with_engine
          (set_new_frame true
             (store_frame buf1 (mkMat 1 1 CV_8UC3 [1; 1; 1])
                (engine (run_worker (fun _ mask => Some mask) 4 construct))))
          (run_worker (fun _ mask => Some mask) 4 construct)))).
Proof.
  apply running_run_worker.
  apply (frame_submitted (fun _ mask => Some mask) []
           (run_worker (fun _ mask => Some mask) 4 construct) _
           (mkMat 1 1 CV_8UC3 [1; 1; 1])).
  - apply running_run_worker. apply at_construction.
  - reflexivity.
Defined.

Lemma buffers_never_alias_witness :
  frame_current
    (engine (run_worker (fun _ mask => Some mask) 10
       (notify_all (with_engine
          (set_new_frame true
             (store_frame buf1 (mkMat 1 1 CV_8UC3 [1; 1; 1])
                (engine (run_worker (fun _ mask => Some mask) 4 construct))))
          (run_worker (fun _ mask => Some mask) 4 construct))))) <>
  frame_next
    (engine (run_worker (fun _ mask => Some mask) 10
       (notify_all (with_engine
          (set_new_frame true
             (store_frame buf1 (mkMat 1 1 CV_8UC3 [1; 1; 1])
                (engine (run_worker (fun _ mask => Some mask) 4 construct))))
          (run_worker (fun _ mask => Some mask) 4 construct))))).
Proof.
  exact (proj1 (buffers_never_alias (fun _ mask => Some mask) _ _ example_run)).
Defined.

Lemma processed_frames_were_submitted_witness :
  subsequence
    (processed (run_worker (fun _ mask => Some mask) 10
       (notify_all (with_engine
          (set_new_frame true
             (store_frame buf1 (mkMat 1 1 CV_8UC3 [1; 1; 1])
                (engine (run_worker (fun _ mask => Some mask) 4 construct))))
          (run_worker (fun _ mask => Some mask) 4 construct)))))
    [mkMat 1 1 CV_8UC3 [1; 1; 1]].
Proof.
  exact (proj1 (processed_frames_were_submitted (fun _ mask => Some mask) _ _
                  example_run)).
Defined.

Lemma idle_worker_has_processed_the_latest_frame_witness :
  pc (run_worker (fun _ mask => Some mask) 10
       (notify_all (with_engine
          (set_new_frame true
             (store_frame buf1 (mkMat 1 1 CV_8UC3 [1; 1; 1])
                (engine (run_worker (fun _ mask => Some mask) 4 construct))))
          (run_worker (fun _ mask => Some mask) 4 construct)))) = exited \/
  (pc (run_worker (fun _ mask => Some mask) 10
       (notify_all (with_engine
          (set_new_frame true
             (store_frame buf1 (mkMat 1 1 CV_8UC3 [1; 1; 1])
                (engine (run_worker (fun _ mask => Some mask) 4 construct))))
          (run_worker (fun _ mask => Some mask) 4 construct)))) = in_wait /\
   new_frame (engine (run_worker (fun _ mask => Some mask) 10
       (notify_all (with_engine
          (set_new_frame true
             (store_frame buf1 (mkMat 1 1 CV_8UC3 [1; 1; 1])
                (engine (run_worker (fun _ mask => Some mask) 4 construct))))
          (run_worker (fun _ mask => Some mask) 4 construct))))) = false /\
   ([mkMat 1 1 CV_8UC3 [1; 1; 1]] <> [] ->
    processed (run_worker (fun _ mask => Some mask) 10
       (notify_all (with_engine
          (set_new_frame true
             (store_frame buf1 (mkMat 1 1 CV_8UC3 [1; 1; 1])
                (engine (run_worker (fun _ mask => Some mask) 4 construct))))
          (run_worker (fun _ mask => Some mask) 4 construct)))) <> [] /\
    last (processed (run_worker (fun _ mask => Some mask) 10
       (notify_all (with_engine
          (set_new_frame true
             (store_frame buf1 (mkMat 1 1 CV_8UC3 [1; 1; 1])
                (engine (run_worker (fun _ mask => Some mask) 4 construct))))
          (run_worker (fun _ mask => Some mask) 4 construct))))) Mat_empty
      = last [mkMat 1 1 CV_8UC3 [1; 1; 1]] Mat_empty)).
Proof.
  exact (idle_worker_has_processed_the_latest_frame (fun _ mask => Some mask) _ _
           example_run eq_refl).
Defined.

Lemma submitted_frame_yields_its_mask_witness :
  exists s1 s3,
    set_input_frame (mkMat 1 1 CV_8UC3 [1; 1; 1])
      (run_worker (fun _ _ => Some (mkMat 1 1 CV_8UC1 [200])) 4 construct) = Some s1 /\
    processed (run_worker (fun _ _ => Some (mkMat 1 1 CV_8UC1 [200])) 9 s1)
      = processed (run_worker (fun _ _ => Some (mkMat 1 1 CV_8UC1 [200])) 4 construct)
        ++ [mkMat 1 1 CV_8UC3 [1; 1; 1]] /\
    get_output_mask Mat_empty
      (run_worker (fun _ _ => Some (mkMat 1 1 CV_8UC1 [200])) 9 s1)
      = Some (s3, mkMat 1 1 CV_8UC1 [200]) /\
    forall out', get_output_mask out' s3 = Some (s3, out').
Proof.
  exact (submitted_frame_yields_its_mask
           (fun _ _ => Some (mkMat 1 1 CV_8UC1 [200]))
           (run_worker (fun _ _ => Some (mkMat 1 1 CV_8UC1 [200])) 4 construct)
           (mkMat 1 1 CV_8UC3 [1; 1; 1]) (mkMat 1 1 CV_8UC1 [200]) Mat_empty
           eq_refl eq_refl).
Defined.

End EngineRunsExamples.
